(** * FanPico: tachometer sampling and PWM filters

    A shallow embedding of [tacho.c] (pulse counter, frequency sampler)
    and [filters.c] (filter registry, lossy-peak filter), with the
    properties of the design specification stated and proved over it,
    and of the DHCP hooks, the status callback and the MAC address
    printer of [network.c], with further properties of the code.

    C [float] is IEEE 754 binary32 and C [double] is binary64; both are
    modelled with the executable [spec_float] operations of the standard
    library, so that every definition below can be evaluated.  Unsigned
    32-bit counters are integers reduced modulo [2^32]; arrays are lists
    read and written by index, a read or write outside the array giving
    [None]. *)

From Stdlib Require Import ZArith QArith Qpower Qabs Bool Lia Lqa String Ascii.
From Stdlib Require Import Floats.SpecFloat.
From stdpp Require Import base option list.

Local Open Scope Z_scope.

(** ** Machine integers *)

Module MachInt.

Definition uint_wrap (z : Z) : Z := z mod 2 ^ 32.

Definition uint8_wrap (z : Z) : Z := z mod 2 ^ 8.

(** Reinterpretation of a 64-bit pattern as [int64_t]. *)
Definition to_int64 (z : Z) : Z :=
  let w := z mod 2 ^ 64 in
  if w <? 2 ^ 63 then w else w - 2 ^ 64.

(** [a - b] on [uint]. *)
Definition uint_sub (a b : Z) : Z := uint_wrap (a - b).

(** pico-sdk: [absolute_time_diff_us (from, to)] is
    [(int64_t)(to_us_since_boot(to) - to_us_since_boot(from))],
    both times being [uint64_t] microsecond counts. *)
Definition absolute_time_diff_us (from to : Z) : Z := to_int64 (to - from).

End MachInt.
Export MachInt.

(** ** Floating point *)

Module Ieee.

Definition float32 := spec_float.
Definition float64 := spec_float.

Definition prec32 : Z := 24.
Definition emax32 : Z := 128.
Definition prec64 : Z := 53.
Definition emax64 : Z := 1024.

(** Integer to [double] and to [float] (round to nearest even). *)
Definition f64_of_Z (z : Z) : float64 := binary_normalize prec64 emax64 z 0 false.
Definition f32_of_Z (z : Z) : float32 := binary_normalize prec32 emax32 z 0 false.

(** [float] to [double] (exact) and [double] to [float] (rounded). *)
Definition f64_of_f32 (x : float32) : float64 :=
  match x with
  | S754_finite s m e => binary_round prec64 emax64 s m e
  | _ => x
  end.

Definition f32_of_f64 (x : float64) : float32 :=
  match x with
  | S754_finite s m e => binary_round prec32 emax32 s m e
  | _ => x
  end.

Definition f64_div : float64 -> float64 -> float64 := SFdiv prec64 emax64.
Definition f64_mul : float64 -> float64 -> float64 := SFmul prec64 emax64.
Definition f32_mul : float32 -> float32 -> float32 := SFmul prec32 emax32.
Definition f32_sub : float32 -> float32 -> float32 := SFsub prec32 emax32.

(** The C comparisons [x >= y] and [x > y]; false when either side is
    a NaN. *)
Definition f_ge (x y : spec_float) : bool := SFleb y x.
Definition f_gt (x y : spec_float) : bool := SFltb y x.

Definition is_nan (x : spec_float) : bool :=
  match x with S754_nan => true | _ => false end.

Definition is_finite (x : spec_float) : bool :=
  match x with S754_zero _ | S754_finite _ _ _ => true | _ => false end.

Definition is_zero (x : spec_float) : bool :=
  match x with S754_zero _ => true | _ => false end.

(** The literal [1000000.0] (a [double]) and the [int] literal
    [1000000] converted to [float]. *)
Definition f64_1000000 : float64 := Eval cbv in f64_of_Z 1000000.
Definition f32_1000000 : float32 := Eval cbv in f32_of_Z 1000000.

Definition f32_zero : float32 := S754_zero false.

(** [float] to [int64_t]: the fraction is discarded (rounding towards
    zero).  C leaves the conversion undefined for a NaN, for an infinity
    and for every value whose integer part is outside the range of
    [int64_t]: [None]. *)
Definition f32_to_int64 (x : float32) : option Z :=
  match x with
  | S754_zero _ => Some 0
  | S754_nan => None
  | S754_infinity _ => None
  | S754_finite s m e =>
      let a := match e with
               | Zneg p => Z.shiftr (Zpos m) (Zpos p)
               | _ => Z.shiftl (Zpos m) e
               end in
      let v := if s then - a else a in
      if (- 2 ^ 63 <=? v) && (v <? 2 ^ 63) then Some v else None
  end.

End Ieee.
Export Ieee.

(** ** Arrays and loops *)

Section Arrays.
Context {A : Type}.

(** [a[i]] for a computed (integer) index. *)
Definition arr_get (a : list A) (i : Z) : option A :=
  if bool_decide (0 <= i) then a !! Z.to_nat i else None.

(** [a[i] = v]. *)
Definition arr_set (a : list A) (i : nat) (v : A) : option (list A) :=
  if bool_decide (i < length a)%nat then Some (<[i := v]> a) else None.

(** [for (i = 0; i < n; i++) body], the body threading a state. *)
Fixpoint for_loop {St : Type} (n : nat) (body : nat -> St -> option St) (s : St)
  : option St :=
  match n with
  | O => Some s
  | S k => s' ← for_loop k body s; body k s'
  end.

End Arrays.

(** ** tacho.c *)

Module Tacho.

Record tacho_state := mkTacho {
  gpio_fan_tacho_map : list Z;        (* uint8_t [32] *)
  fan_tacho_counters : list Z;        (* volatile uint [FAN_MAX_COUNT] *)
  fan_tacho_counters_last : list Z;   (* uint [FAN_MAX_COUNT] *)
  fan_tacho_last_read : Z;            (* absolute_time_t *)
  fan_tacho_freq : list float32       (* float [FAN_MAX_COUNT] *)
}.

Definition set_counters (st : tacho_state) (cs : list Z) : tacho_state :=
  mkTacho (gpio_fan_tacho_map st) cs (fan_tacho_counters_last st)
          (fan_tacho_last_read st) (fan_tacho_freq st).

(** Interrupt handler: one pulse on the fan bound to [gpio]. *)
Definition fan_tacho_read_callback (gpio events : Z) (st : tacho_state)
  : option tacho_state :=
  fan ← arr_get (gpio_fan_tacho_map st) (Z.land gpio 31);
  if 0 <? fan then
    c ← arr_get (fan_tacho_counters st) (fan - 1);
    cs ← arr_set (fan_tacho_counters st) (Z.to_nat (fan - 1)) (uint_wrap (c + 1));
    Some (set_counters st cs)
  else Some st.

(** A sequence of edge interrupts. *)
Fixpoint run_callbacks (gpios : list Z) (st : tacho_state) : option tacho_state :=
  match gpios with
  | [] => Some st
  | g :: gs => st' ← fan_tacho_read_callback g 0 st; run_callbacks gs st'
  end.

Section Sampler.
(** [FAN_MAX_COUNT] comes from fanpico.h. *)
Variable FAN_MAX_COUNT : nat.

(** The frequency stored for one channel: [pulses / s], a [double],
    narrowed to the [float] array element. *)
Definition tacho_freq_of (pulses delta : Z) : float32 :=
  let s := f64_div (f64_of_Z delta) f64_1000000 in
  f32_of_f64 (f64_div (f64_of_Z pulses) s).

(** [read_time] is the value [get_absolute_time()] returns. *)
Definition update_tacho_input_freq (read_time : Z) (st : tacho_state)
  : option tacho_state :=
  (* read current counter values *)
  counters ← for_loop FAN_MAX_COUNT
               (fun i cs => v ← fan_tacho_counters st !! i; arr_set cs i v)
               (replicate FAN_MAX_COUNT 0);
  (* calculate new frequency values, if enough time has passed... *)
  let delta := absolute_time_diff_us (fan_tacho_last_read st) read_time in
  if delta <? 1000000 then Some st
  else
    freq ← for_loop FAN_MAX_COUNT
             (fun i fr =>
                c ← counters !! i;
                l ← fan_tacho_counters_last st !! i;
                let pulses := uint_sub c l in
                arr_set fr i (tacho_freq_of pulses delta))
             (fan_tacho_freq st);
    (* save counter values for next time... *)
    last ← for_loop FAN_MAX_COUNT
             (fun i ls => c ← counters !! i; arr_set ls i c)
             (fan_tacho_counters_last st);
    Some (mkTacho (gpio_fan_tacho_map st) (fan_tacho_counters st)
                  last read_time freq).

(** One round of the first loop of [setup_tacho_inputs]. *)
Definition setup_step (fan_gpio_tacho_map : list Z) (i : nat) (st : tacho_state)
  : option tacho_state :=
  pin ← fan_gpio_tacho_map !! i;
  m ← (if bool_decide (0 <= pin) then
         arr_set (gpio_fan_tacho_map st) (Z.to_nat pin) (uint8_wrap (1 + Z.of_nat i))
       else None);
  cs ← arr_set (fan_tacho_counters st) i 0;
  ls ← arr_set (fan_tacho_counters_last st) i 0;
  fr ← arr_set (fan_tacho_freq st) i f32_zero;
  Some (mkTacho m cs ls (fan_tacho_last_read st) fr).

(** [fan_gpio_tacho_map] holds the pin constants of fanpico.h;
    [now] is the value [get_absolute_time()] returns.  The calls that
    configure the pins and enable their interrupts act on the hardware
    and change none of these variables. *)
Definition setup_tacho_inputs (fan_gpio_tacho_map : list Z) (now : Z)
    (st : tacho_state) : option tacho_state :=
  let st0 := mkTacho (replicate 32 0) (fan_tacho_counters st)
                     (fan_tacho_counters_last st) (fan_tacho_last_read st)
                     (fan_tacho_freq st) in
  st1 ← for_loop FAN_MAX_COUNT (setup_step fan_gpio_tacho_map) st0;
  Some (mkTacho (gpio_fan_tacho_map st1) (fan_tacho_counters st1)
                (fan_tacho_counters_last st1) now (fan_tacho_freq st1)).

End Sampler.

End Tacho.
Export Tacho.

(** ** C strings

    A C string is a [string] without the terminating NUL. *)

Module CString.

Definition tolower (c : ascii) : Z :=
  let n := Z.of_N (N_of_ascii c) in
  if (65 <=? n) && (n <=? 90) then n + 32 else n.

(** libc [strcasecmp]: difference of the first pair of characters that
    differ after [tolower], 0 when there is none. *)
Fixpoint strcasecmp (s1 s2 : string) : Z :=
  match s1, s2 with
  | EmptyString, EmptyString => 0
  | EmptyString, String c2 _ => 0 - tolower c2
  | String c1 _, EmptyString => tolower c1
  | String c1 r1, String c2 r2 =>
      let d := tolower c1 - tolower c2 in
      if d =? 0 then strcasecmp r1 r2 else d
  end.

Fixpoint is_delim (delim : string) (c : ascii) : bool :=
  match delim with
  | EmptyString => false
  | String d r => if Ascii.eqb c d then true else is_delim r c
  end.

(** [s + strspn (s, delim)]. *)
Fixpoint skip_delims (delim s : string) : string :=
  match s with
  | EmptyString => EmptyString
  | String c r => if is_delim delim c then skip_delims delim r else s
  end.

(** The token at the head of [s] and what follows its delimiter. *)
Fixpoint cut_token (delim s : string) : string * string :=
  match s with
  | EmptyString => (EmptyString, EmptyString)
  | String c r =>
      if is_delim delim c then (EmptyString, r)
      else let '(tok, rest) := cut_token delim r in (String c tok, rest)
  end.

(** libc [strtok_r]: the string scanned is [s] on the first call and
    [*saveptr] afterwards; the result is the token and the new
    [*saveptr], or [None] for a NULL return. *)
Definition strtok_r (s delim : string) : option (string * string) :=
  match skip_delims delim s with
  | EmptyString => None
  | s1 => Some (cut_token delim s1)
  end.

Definition digit_char (d : Z) : ascii := ascii_of_N (Z.to_N (48 + d)).

(** Decimal digits of a natural number, most significant first. *)
Fixpoint digits_fuel (fuel : nat) (n : Z) (acc : string) : string :=
  match fuel with
  | O => acc
  | S k =>
      let acc' := String (digit_char (n mod 10)) acc in
      if n / 10 =? 0 then acc' else digits_fuel k (n / 10) acc'
  end.

Definition decimal (n : Z) : string :=
  digits_fuel (S (Z.to_nat (Z.log2 n))) n EmptyString.

Definition six_digits (n : Z) : string :=
  String (digit_char (n / 100000 mod 10))
 (String (digit_char (n / 10000 mod 10))
 (String (digit_char (n / 1000 mod 10))
 (String (digit_char (n / 100 mod 10))
 (String (digit_char (n / 10 mod 10))
 (String (digit_char (n mod 10)) EmptyString))))).

(** The integer nearest to [m * 2^e * 10^6], ties to even. *)
Definition scaled6 (m : positive) (e : Z) : Z :=
  match e with
  | Zneg p =>
      let d := 2 ^ Zpos p in
      let n := Zpos m * 1000000 in
      let q := n / d in
      match 2 * (n mod d) ?= d with
      | Lt => q
      | Gt => q + 1
      | Eq => if Z.even q then q else q + 1
      end
  | _ => Zpos m * 2 ^ e * 1000000
  end.

Definition sign_str (s : bool) : string := if s then "-" else "".

(** libc [printf ("%f", x)] for a [double]: six digits after the point,
    the value rounded to nearest.  A NaN is written as nan or as -nan
    according to its sign bit; [spec_float] has one NaN and no sign for
    it, so the text of a NaN is not determined here: [None]. *)
Definition format_f (x : float64) : option string :=
  match x with
  | S754_nan => None
  | S754_infinity s => Some (sign_str s ++ "inf")%string
  | S754_zero s => Some (sign_str s ++ "0.000000")%string
  | S754_finite s m e =>
      let n := scaled6 m e in
      Some (sign_str s ++ decimal (n / 1000000) ++ "."
              ++ six_digits (n mod 1000000))%string
  end.

(** [snprintf (buf, size, ...)] keeps at most [size - 1] characters. *)
Definition snprintf (size : nat) (s : string) : string :=
  substring 0 (size - 1) s.

End CString.
Export CString.

(** ** The heap *)

Module Heap.

(** Only the number of blocks matters here: how many are in use and
    how many more [malloc] can hand out. *)
Record heap := mkHeap { heap_used : nat; heap_avail : nat }.

(** [malloc]: [true] with one more block in use, or [false] (a NULL
    result) with the heap as it was. *)
Definition malloc (h : heap) : bool * heap :=
  match heap_avail h with
  | O => (false, h)
  | S k => (true, mkHeap (S (heap_used h)) k)
  end.

End Heap.
Export Heap.

(** ** filters.c *)

Module Filters.

Record lossypeak_context := mkCtx {
  peak : float32;
  delay_us : Z;        (* int64_t *)
  decay : float32;
  last_t : Z;          (* absolute_time_t *)
  peak_t : Z;          (* absolute_time_t *)
  state : Z            (* uint8_t *)
}.

(** A [void *] context: NULL or the address of a context. *)
Definition ctx_ptr := option lossypeak_context.

(** A parser gives the context (or NULL) and the heap after the call;
    [None] when its behaviour is undefined. *)
Definition filter_parse_args_func_t : Type :=
  Z -> option string -> heap -> option (ctx_ptr * heap).
Definition filter_print_args_func_t : Type :=
  ctx_ptr -> heap -> option (option string * heap).
Definition filter_func_t : Type :=
  Z -> ctx_ptr -> float32 -> option (ctx_ptr * float32).

Record filter_entry := mkEntry {
  name : option string;
  parse_args_func : option filter_parse_args_func_t;
  print_args_func : option filter_print_args_func_t;
  filter_func : option filter_func_t
}.

Definition FILTER_NONE : Z := 0.
Definition FILTER_LOSSYPEAK : Z := 1.

(** [(t_d / 1000000.0) * c->decay], a [double], stored in a [float]. *)
Definition decay_amount (t_d : Z) (rate : float32) : float32 :=
  f32_of_f64 (f64_mul (f64_div (f64_of_Z t_d) f64_1000000) (f64_of_f32 rate)).

(** The block guarded by [c->state == 0]: the new state and the new
    value of [t_d]. *)
Definition hold_check (c : lossypeak_context) (t_now t_d : Z) : Z * Z :=
  if state c =? 0 then
    if 0 <? delay_us c then
      let t_d := absolute_time_diff_us (peak_t c) t_now in
      if delay_us c <? t_d then (1, t_d - delay_us c) else (state c, t_d)
    else (1, t_d)
  else (state c, t_d).

(** The block guarded by [c->state == 1]: the new peak. *)
Definition decay_step (c : lossypeak_context) (st t_d : Z) (input : float32)
  : float32 :=
  if st =? 1 then
    let dec := decay_amount t_d (decay c) in
    if f_gt input (f32_sub (peak c) dec) then input
    else f32_sub (peak c) dec
  else peak c.

(** [t_now] is the value [get_absolute_time()] returns; the result is
    the context after the call and the value returned. *)
Definition lossy_peak_filter (t_now : Z) (c : lossypeak_context) (input : float32)
  : lossypeak_context * float32 :=
  let t_d := absolute_time_diff_us (last_t c) t_now in
  let c' :=
    if f_ge input (peak c) then
      mkCtx input (delay_us c) (decay c) (last_t c) t_now 0
    else
      let '(st, t_d') := hold_check c t_now t_d in
      mkCtx (decay_step c st t_d' input) (delay_us c) (decay c)
            (last_t c) (peak_t c) st in
  (mkCtx (peak c') (delay_us c') (decay c') t_now (peak_t c') (state c'), peak c').

(** The function as the table holds it, on a [void *]: [ctx] is
    dereferenced without a test, so nothing is defined for NULL. *)
Definition lossy_peak_filter_ptr : filter_func_t :=
  fun t_now ctx input =>
    c ← ctx;
    let '(c', r) := lossy_peak_filter t_now c input in Some (Some c', r).

(** The text that [snprintf] leaves in [buf]; [None] when the decay
    rate is a NaN, whose text [format_f] does not determine. *)
Definition lossy_peak_print_args (c : lossypeak_context) : option string :=
  let secs := f32_of_f64 (f64_div (f64_of_Z (delay_us c)) f64_1000000) in
  d ← format_f (f64_of_f32 (decay c));
  s ← format_f (f64_of_f32 secs);
  Some (snprintf 128 (d ++ "," ++ s)%string).

(** The function as the table holds it: the text is returned in a new
    block ([strdup]), NULL when no block is left. *)
Definition lossy_peak_print_args_ptr : filter_print_args_func_t :=
  fun ctx h =>
    c ← ctx;
    buf ← lossy_peak_print_args c;
    match malloc h with
    | (true, h') => Some (Some buf, h')
    | (false, h') => Some (None, h')
    end.

Section Registry.
(** [str_to_float] is declared in fanpico.h: the number read from
    the text, or [None] when it returns 0. *)
Variable str_to_float : string -> option float32.

(** [now] is the value [get_absolute_time()] returns.  The result is
    [None] when the conversion of [delay * 1000000] to [int64_t] is
    undefined. *)
Definition lossy_peak_parse_args : filter_parse_args_func_t :=
  fun now args h =>
    match args with
    | None => Some (None, h)
    | Some a =>
      (* decay parameter (points per second) *)
      match strtok_r a "," with
      | None => Some (None, h)
      | Some (tok, saveptr) =>
        match str_to_float tok with
        | None => Some (None, h)
        | Some decay =>
          (* delay parameter (seconds) *)
          match strtok_r saveptr "," with
          | None => Some (None, h)
          | Some (tok, saveptr) =>
            match str_to_float tok with
            | None => Some (None, h)
            | Some delay =>
              match malloc h with
              | (false, h') => Some (None, h')
              | (true, h') =>
                  delay_us ← f32_to_int64 (f32_mul delay f32_1000000);
                  Some (Some (mkCtx f32_zero delay_us decay now 0 0), h')
              end
            end
          end
        end
      end
    end.

Definition filters : list filter_entry :=
  [ mkEntry (Some "none"%string) None None None;            (* FILTER_NONE *)
    mkEntry (Some "lossypeak"%string) (Some lossy_peak_parse_args)
            (Some lossy_peak_print_args_ptr)
            (Some lossy_peak_filter_ptr);                   (* FILTER_LOSSYPEAK *)
    mkEntry None None None None ].

(** The loop of [str2pwm_filter] from index [i] on; [None] when it
    would run past the table. *)
Fixpoint str2pwm_filter_from (tbl : list filter_entry) (i : Z) (s : string)
  : option Z :=
  match tbl with
  | [] => None
  | e :: rest =>
      match name e with
      | None => Some FILTER_NONE
      | Some n =>
          if strcasecmp s n =? 0 then Some i
          else str2pwm_filter_from rest (i + 1) s
      end
  end.

Definition str2pwm_filter (s : string) : option Z :=
  str2pwm_filter_from filters 0 s.

Fixpoint pwm_filter2str_from (tbl : list filter_entry) (i : Z) (source : Z)
  : option string :=
  match tbl with
  | [] => None
  | e :: rest =>
      match name e with
      | None => Some "none"%string
      | Some n =>
          if source =? i then Some n
          else pwm_filter2str_from rest (i + 1) source
      end
  end.

Definition pwm_filter2str (source : Z) : option string :=
  pwm_filter2str_from filters 0 source.

(** The dispatchers index the table with the selector as it comes:
    [None] stands for an index outside the table, and for a result
    that the function called leaves [None]. *)
Definition filter_parse_args (filter : Z) (now : Z) (args : option string)
    (h : heap) : option (ctx_ptr * heap) :=
  e ← arr_get filters filter;
  match parse_args_func e with
  | Some f => f now args h
  | None => Some (None, h)
  end.

Definition filter_print_args (filter : Z) (ctx : ctx_ptr) (h : heap)
  : option (option string * heap) :=
  e ← arr_get filters filter;
  match print_args_func e with
  | Some f => f ctx h
  | None => Some (None, h)
  end.

Definition filter (filter : Z) (t_now : Z) (ctx : ctx_ptr) (input : float32)
  : option (ctx_ptr * float32) :=
  e ← arr_get filters filter;
  match filter_func e with
  | Some f => f t_now ctx input
  | None => Some (ctx, input)
  end.

End Registry.

(** A run of the filter: the samples with the time each is taken at;
    the result is the final context and the values returned. *)
Fixpoint lossy_peak_run (samples : list (Z * float32)) (c : lossypeak_context)
  : lossypeak_context * list float32 :=
  match samples with
  | [] => (c, [])
  | (t, x) :: rest =>
      let '(c1, r) := lossy_peak_filter t c x in
      let '(c2, rs) := lossy_peak_run rest c1 in
      (c2, r :: rs)
  end.

End Filters.
Export Filters.

(** * Specification vocabulary *)

(** The arrays of the sampler have [n] elements. *)
Definition tacho_wf (n : nat) (st : tacho_state) : Prop :=
  length (fan_tacho_counters st) = n
  /\ length (fan_tacho_counters_last st) = n
  /\ length (fan_tacho_freq st) = n.


(** The entry of the pin-to-fan map that the interrupt handler reads for
    [gpio]. *)
Definition pin_fan (st : tacho_state) (gpio : Z) : Z :=
  default 0 (arr_get (gpio_fan_tacho_map st) (Z.land gpio 31)).

(** The map has its 32 entries, each 0 (unmapped) or a fan number. *)
Definition map_wf (st : tacho_state) : Prop :=
  length (gpio_fan_tacho_map st) = 32%nat
  /\ Forall (fun e => 0 <= e <= Z.of_nat (length (fan_tacho_counters st)))
            (gpio_fan_tacho_map st).

(** Number of edges, among [gpios], on the pin of channel [i]. *)
Fixpoint count_pulses (st : tacho_state) (i : nat) (gpios : list Z) : Z :=
  match gpios with
  | [] => 0
  | g :: gs =>
      (if pin_fan st g =? Z.of_nat i + 1 then 1 else 0) + count_pulses st i gs
  end.

(** Invariant of the first loop of [setup_tacho_inputs], after [k] rounds,
    for the pin table [pins] and the state [st0] the loop starts from. *)
Definition setup_inv (pins : list Z) (st0 : tacho_state) (k : nat)
    (s : tacho_state) : Prop :=
  length (gpio_fan_tacho_map s) = 32%nat
  /\ length (fan_tacho_counters s) = length (fan_tacho_counters st0)
  /\ (k <= length (fan_tacho_counters st0))%nat
  /\ Forall (fun e => 0 <= e <= Z.of_nat k) (gpio_fan_tacho_map s)
  /\ forall j : nat,
       (forall i pin, (i < k)%nat -> pins !! i = Some pin -> Z.to_nat pin <> j) ->
       (j < 32)%nat -> gpio_fan_tacho_map s !! j = Some 0.

(** A [string] that is a C string: no NUL inside. *)
Fixpoint no_nul (s : string) : bool :=
  match s with
  | EmptyString => true
  | String c r => negb (Ascii.eqb c zero) && no_nul r
  end.

(** The characters of [s], letters in lower case. *)
Fixpoint lower (s : string) : list Z :=
  match s with
  | EmptyString => []
  | String c r => tolower c :: lower r
  end.

(** The pieces of [s] between its commas, the empty ones included. *)
Fixpoint split_commas (s : string) : list string :=
  match s with
  | EmptyString => [EmptyString]
  | String c r =>
      if Ascii.eqb c "," then EmptyString :: split_commas r
      else match split_commas r with
           | p :: ps => String c p :: ps
           | [] => [String c EmptyString]
           end
  end.

Definition nonempty (s : string) : bool :=
  match s with EmptyString => false | _ => true end.

(** The comma-separated fields of a configuration text. *)
Definition comma_fields (s : string) : list string :=
  List.filter nonempty (split_commas s).

(** What [str_to_float] returns on the texts of the worked examples: the
    [float] nearest to the decimal number written. *)
Definition str_to_float_sample (s : string) : option float32 :=
  if String.eqb s "2" then Some (f32_of_Z 2)
  else if String.eqb s "3" then Some (f32_of_Z 3)
  else if String.eqb s "0" then Some f32_zero
  else if String.eqb s "0.0000001"
       then Some (SFdiv prec32 emax32 (f32_of_Z 1) (f32_of_Z 10000000))
  else if String.eqb s "0.000000" then Some f32_zero
  else if String.eqb s "2.000000" then Some (f32_of_Z 2)
  else if String.eqb s "0.500000"
       then Some (SFdiv prec32 emax32 (f32_of_Z 1) (f32_of_Z 2))
  else None.






(** The number a [float] or [double] stands for, [(-1)^s * m * 2^e];
    0 for a zero.  An infinity and a NaN stand for no number: 0 is
    written for them, and the properties that use this say beside it
    that the value is finite. *)
Definition Q_of_float (x : spec_float) : Q :=
  match x with
  | S754_finite s m e => ((if s then -1 else 1) * inject_Z (Zpos m) * 2 ^ e)%Q
  | _ => 0%Q
  end.

(** Pulses per second, as a rational number: [pulses] pulses in
    [delta] microseconds. *)
Definition exact_frequency (pulses delta : Z) : Q :=
  (inject_Z pulses / (inject_Z delta / 1000000))%Q.

(** [x] is [y], a number that is not negative, up to the relative
    error [tol]. *)
Definition close_to (tol x y : Q) : Prop := (Qabs (x - y) <= tol * y)%Q.

(** The tolerance of a frequency held in a [float]: [2^-22], two units
    in the last place of the 24 bits of a [float]. *)
Definition float_tolerance : Q := (1 # 4194304)%Q.

(** The result [R] of a rounding and the number [V] rounded, with the
    relative error [u] of the rounding. *)
Definition near (u R V : Q) : Prop := (R * (1 - u) <= V /\ V <= R * (1 + u))%Q.

(** A bound on the relative error of one rounding: one unit in the
    last place, [2^-52] of a [double] and [2^-23] of a [float]. *)
Definition u64 : Q := (1 # 4503599627370496)%Q.
Definition u32 : Q := (1 # 8388608)%Q.

(** A bound on [digits + exponent] of what [binary_round_aux] returns for
    the mantissa [m] and exponent [e]: one more than the larger of
    [digits m + e], [e] and [emin]. *)
Definition round_top (prec emax m e : Z) : Z :=
  Z.max (Z.max (Zdigits2 m + e) e) (emin prec emax) + 1.


(** * network.c: the DHCP hooks, the status callback, the MAC address *)

Module Network.

(** Message types of lwip's prot/dhcp.h (RFC 2132). *)
Definition DHCP_REQUEST : Z := 3.
Definition DHCP_ACK : Z := 5.

Definition u16_wrap (z : Z) : Z := z mod 2 ^ 16.

(** [new_parameters] without its terminating 0, and [extra_len]. *)
Definition new_parameters : list Z := [7; 100].
Definition extra_len : Z := 2.

(** The variables of the rebuilding loop of
    [pico_dhcp_option_add_hook]; [options] is [msg->options]. *)
Record rebuild_state := mkRebuild {
  old_ptr : Z;          (* u16_t *)
  new_ptr : Z;          (* u16_t *)
  options : list Z      (* u8_t [DHCP_OPTIONS_LEN] *)
}.

(** [msg->options[new_ptr++] = b]. *)
Definition put_option_byte (s : rebuild_state) (b : Z) : option rebuild_state :=
  o ← arr_set (options s) (Z.to_nat (new_ptr s)) b;
  Some (mkRebuild (old_ptr s) (u16_wrap (new_ptr s + 1)) o).

(** [tmp.options[old_ptr++]]. *)
Definition take_option_byte (tmp : list Z) (s : rebuild_state)
  : option (Z * rebuild_state) :=
  b ← arr_get tmp (old_ptr s);
  Some (b, mkRebuild (u16_wrap (old_ptr s + 1)) (new_ptr s) (options s)).

(** One round of the [while] loop: one option copied, option 55 with
    the two parameters appended. *)
Definition rebuild_option (tmp : list Z) (s : rebuild_state) : option rebuild_state :=
  '(code, s) ← take_option_byte tmp s;
  '(len, s) ← take_option_byte tmp s;
  s ← put_option_byte s code;
  s ← put_option_byte s (if code =? 55 then uint8_wrap (len + extra_len) else len);
  s ← for_loop (Z.to_nat len)
        (fun _ s => '(b, s) ← take_option_byte tmp s; put_option_byte s b) s;
  if code =? 55 then
    for_loop (Z.to_nat extra_len)
      (fun i s => b ← new_parameters !! i; put_option_byte s b) s
  else Some s.

(** [while (old_ptr < orig_len)], at most [fuel] rounds. *)
Fixpoint rebuild_options (fuel : nat) (tmp : list Z) (orig_len : Z)
    (s : rebuild_state) : option rebuild_state :=
  if old_ptr s <? orig_len then
    match fuel with
    | O => None
    | S k => s' ← rebuild_option tmp s; rebuild_options k tmp orig_len s'
    end
  else Some s.

Section DhcpOptions.
(** [DHCP_OPTIONS_LEN] comes from lwip: the size of [msg->options]. *)
Variable DHCP_OPTIONS_LEN : nat.

(** The result is [msg->options] and [*options_len_ptr] after the
    call; [None] when [LWIP_ASSERT] fails or an access falls outside
    [options].  Every round of the loop advances [old_ptr] by two at
    least, so [options_len] rounds are never used up. *)
Definition pico_dhcp_option_add_hook (msg_type : Z) (msg_options : list Z)
    (options_len : Z) : option (list Z * Z) :=
  let orig_len := options_len in
  if negb (msg_type =? DHCP_REQUEST) then Some (msg_options, options_len)
  else if negb (options_len + extra_len <=? Z.of_nat DHCP_OPTIONS_LEN) then None
  else
    (* Copy options to temporary buffer, so we can 'edit' option 55... *)
    let tmp := msg_options in
    (* Rebuild options... *)
    s ← rebuild_options (Z.to_nat orig_len) tmp orig_len (mkRebuild 0 0 msg_options);
    Some (options s, new_ptr s).

End DhcpOptions.

(** The variables of network.c that the hooks and callbacks use, with
    what they leave behind: the value of the environment variable TZ and
    the number of calls of [syslog_open].  [debug] only prints. *)
Record net_state := mkNet {
  network_initialized : bool;
  syslog_server : Z;             (* ip_addr_t: an IPv4 address, u32_t *)
  timezone : list Z;             (* static char [64] *)
  env_TZ : option (list Z);      (* getenv ("TZ") *)
  syslog_open_calls : nat;
  cyw43_mac : list Z;            (* uint8_t [6] *)
  stdout : string
}.

(** The [u32_t] that four bytes in memory make up (little endian). *)
Definition le32 (b0 b1 b2 b3 : Z) : Z :=
  b0 + 2 ^ 8 * b1 + 2 ^ 16 * b2 + 2 ^ 24 * b3.

(** [memcpy (dst, src + off, n)]: byte by byte, [None] outside either
    array. *)
Definition memcpy (dst src : list Z) (off : Z) (n : nat) : option (list Z) :=
  for_loop n (fun i d => b ← arr_get src (off + Z.of_nat i); arr_set d i b) dst.

(** The C string that starts the array [a]. *)
Fixpoint c_string_of (a : list Z) : list Z :=
  match a with
  | [] => []
  | b :: r => if b =? 0 then [] else b :: c_string_of r
  end.

(** [opt] is the parameter [option], [payload] is [pbuf->payload] and
    [setenv_ok] tells whether [setenv] succeeds (its result is not
    looked at; when it fails TZ is as it was). *)
Definition pico_dhcp_option_parse_hook (msg_type opt option_len : Z)
    (payload : list Z) (option_value_offset : Z) (setenv_ok : bool)
    (st : net_state) : option net_state :=
  if negb (msg_type =? DHCP_ACK) then Some st
  else if (opt =? 7) && (4 <=? option_len) then
    b0 ← arr_get payload option_value_offset;
    b1 ← arr_get payload (option_value_offset + 1);
    b2 ← arr_get payload (option_value_offset + 2);
    b3 ← arr_get payload (option_value_offset + 3);
    let log_ip := le32 b0 b1 b2 b3 in
    if syslog_server st =? 0 then
      (* no syslog server configured, use one from DHCP... *)
      Some (mkNet (network_initialized st) log_ip (timezone st) (env_TZ st)
                  (syslog_open_calls st) (cyw43_mac st) (stdout st))
    else Some st
  else if (opt =? 100) && (0 <? option_len) then
    tz ← memcpy (timezone st) payload option_value_offset (Z.to_nat option_len);
    tz ← arr_set tz (Z.to_nat option_len) 0;
    Some (mkNet (network_initialized st) (syslog_server st) tz
                (if setenv_ok then Some (c_string_of tz) else env_TZ st)
                (syslog_open_calls st) (cyw43_mac st) (stdout st))
  else Some st.

(** [up] is [netif_is_up (netif)]. *)
Definition wifi_status_cb (up : bool) (st : net_state) : net_state :=
  if up && negb (network_initialized st) then
    mkNet true (syslog_server st) (timezone st) (env_TZ st)
          (S (syslog_open_calls st)) (cyw43_mac st) (stdout st)
  else st.

Definition hex_digit (d : Z) : ascii :=
  if d <? 10 then ascii_of_N (Z.to_N (48 + d)) else ascii_of_N (Z.to_N (87 + d)).

(** [printf ("%02x", b)] for a [uint8_t]. *)
Definition format_02x (b : Z) : string :=
  String (hex_digit (b / 16)) (String (hex_digit (b mod 16)) EmptyString).

Definition print (out : string) (st : net_state) : net_state :=
  mkNet (network_initialized st) (syslog_server st) (timezone st) (env_TZ st)
        (syslog_open_calls st) (cyw43_mac st) (stdout st ++ out).

Definition newline : string := String (ascii_of_N 10) EmptyString.

Definition wifi_mac (st : net_state) : option net_state :=
  st ← for_loop 6
         (fun i st =>
            b ← cyw43_mac st !! i;
            let st := print (format_02x b) st in
            Some (if (i <? 5)%nat then print ":" st else st))
         st;
  Some (print newline st).

(** What happens to the variables over time: status callbacks of the
    interface and DHCP options handed to the parse hook. *)
Inductive net_event :=
| EvStatus (up : bool)
| EvDhcpOption (msg_type opt option_len : Z) (payload : list Z)
               (option_value_offset : Z) (setenv_ok : bool).

Definition net_step (ev : net_event) (st : net_state) : option net_state :=
  match ev with
  | EvStatus up => Some (wifi_status_cb up st)
  | EvDhcpOption msg_type opt option_len payload off ok =>
      pico_dhcp_option_parse_hook msg_type opt option_len payload off ok st
  end.

Fixpoint net_run (evs : list net_event) (st : net_state) : option net_state :=
  match evs with
  | [] => Some st
  | ev :: rest => st' ← net_step ev st; net_run rest st'
  end.

End Network.
Export Network.

(** ** Vocabulary for the hooks and the setup *)

(** A list of DHCP options, each a code and its data, as the bytes of
    the message: code, length, data. *)
Fixpoint encode_options (os : list (Z * list Z)) : list Z :=
  match os with
  | [] => []
  | (c, d) :: r => c :: Z.of_nat (length d) :: d ++ encode_options r
  end.

(** Option 55 (parameter request list) asks for options 7 and 100 too. *)
Definition add_parameters (o : Z * list Z) : Z * list Z :=
  if fst o =? 55 then (fst o, snd o ++ new_parameters) else o.

Fixpoint count_55 (os : list (Z * list Z)) : nat :=
  match os with
  | [] => O
  | (c, _) :: r => if c =? 55 then S (count_55 r) else count_55 r
  end.

(** Every data length fits the length byte, also after the addition. *)
Definition options_fit (os : list (Z * list Z)) : Prop :=
  Forall (fun o => (length (snd (add_parameters o)) < 256)%nat) os.

(** The rebuilding loop has written [W] over the start of the buffer
    [orig] and has read [o] bytes. *)
Definition rebuilt (orig W : list Z) (o : Z) (s : rebuild_state) : Prop :=
  old_ptr s = o
  /\ new_ptr s = Z.of_nat (length W)
  /\ options s = W ++ drop (length W) orig.

(** An interface-up status callback among the events. *)
Definition is_up_event (ev : net_event) : bool :=
  match ev with EvStatus up => up | _ => false end.

(** Six bytes. *)
Definition mac_wf (m : list Z) : Prop :=
  length m = 6%nat /\ Forall (fun b => 0 <= b < 256) m.

(** The first loop of [setup_tacho_inputs] after [k] rounds, started
    from [st0] with the map cleared: the first [k] elements of the three
    arrays are zero, the rest as in [st0], and a pin holds the number of
    the last channel, among the first [k], that names it. *)
Definition setup_done (pins : list Z) (st0 : tacho_state) (k : nat)
    (s : tacho_state) : Prop :=
  length (gpio_fan_tacho_map s) = 32%nat
  /\ fan_tacho_counters s = replicate k 0 ++ drop k (fan_tacho_counters st0)
  /\ fan_tacho_counters_last s
     = replicate k 0 ++ drop k (fan_tacho_counters_last st0)
  /\ fan_tacho_freq s = replicate k f32_zero ++ drop k (fan_tacho_freq st0)
  /\ fan_tacho_last_read s = fan_tacho_last_read st0
  /\ forall (i : nat) (pin : Z),
       (i < k)%nat -> pins !! i = Some pin ->
       (forall j : nat, (i < j < k)%nat -> pins !! j <> Some pin) ->
       gpio_fan_tacho_map s !! Z.to_nat pin = Some (Z.of_nat i + 1).

(** The pins of the first [n] channels are GPIO numbers. *)
Definition pins_wf (n : nat) (pins : list Z) : Prop :=
  (n <= length pins)%nat
  /\ forall (i : nat) (pin : Z), (i < n)%nat -> pins !! i = Some pin -> 0 <= pin < 32.

(** The state after [n] full rounds of the rebuilding loop, each begun
    with [old_ptr < orig_len]; [None] when the loop does not go that
    far. *)
Fixpoint loop_rounds (n : nat) (tmp : list Z) (orig_len : Z) (s : rebuild_state)
  : option rebuild_state :=
  match n with
  | O => Some s
  | S k =>
      if old_ptr s <? orig_len then
        s' ← rebuild_option tmp s; loop_rounds k tmp orig_len s'
      else None
  end.

(** The number of edges, among [gpios], whose pin number has the low
    five bits of [pin]. *)
Fixpoint edges_on (pin : Z) (gpios : list Z) : Z :=
  match gpios with
  | [] => 0
  | g :: gs => (if Z.land g 31 =? pin then 1 else 0) + edges_on pin gs
  end.

(** * Properties *)

(** ** Rounding never yields a NaN, and overflows only beyond [emax] *)

Lemma digits2_pos_bounds (p : positive) :
  2 ^ (Zpos (digits2_pos p) - 1) <= Zpos p < 2 ^ Zpos (digits2_pos p).
Proof.
  induction p as [p IH|p IH|]; cbn [digits2_pos].
  - rewrite Pos2Z.inj_succ. change (Zpos p~1) with (2 * Zpos p + 1).
    replace (Z.succ (Zpos (digits2_pos p)) - 1)
      with (Z.succ (Zpos (digits2_pos p) - 1)) by lia.
    rewrite !Z.pow_succ_r by lia. lia.
  - rewrite Pos2Z.inj_succ. change (Zpos p~0) with (2 * Zpos p).
    replace (Z.succ (Zpos (digits2_pos p)) - 1)
      with (Z.succ (Zpos (digits2_pos p) - 1)) by lia.
    rewrite !Z.pow_succ_r by lia. lia.
  - cbn. lia.
Qed.

Lemma Zdigits2_nonneg (m : Z) : 0 <= Zdigits2 m.
Proof. destruct m; cbn; lia. Qed.

Lemma Zdigits2_ub (m : Z) : 0 <= m -> m < 2 ^ Zdigits2 m.
Proof.
  destruct m as [|p|p]; intros Hm; cbn [Zdigits2]; [cbn; lia | | lia].
  apply digits2_pos_bounds.
Qed.

Lemma Zdigits2_le (m k : Z) : 0 <= m -> 0 <= k -> m < 2 ^ k -> Zdigits2 m <= k.
Proof.
  destruct m as [|p|p]; intros Hm Hk Hlt; cbn [Zdigits2]; [lia | | lia].
  pose proof (digits2_pos_bounds p) as [Hlo _].
  assert (Zpos (digits2_pos p) - 1 < k); [|lia].
  apply (Z.pow_lt_mono_r_iff 2); lia.
Qed.

Lemma Zdigits2_mono (a b : Z) : 0 <= a <= b -> Zdigits2 a <= Zdigits2 b.
Proof.
  intros [Ha Hab]. apply Zdigits2_le; [lia | apply Zdigits2_nonneg |].
  pose proof (Zdigits2_ub b). lia.
Qed.

Lemma Zdigits2_succ (a : Z) : 0 <= a -> Zdigits2 (a + 1) <= Zdigits2 a + 1.
Proof.
  intros Ha. pose proof (Zdigits2_nonneg a). pose proof (Zdigits2_ub a Ha).
  apply Zdigits2_le; [lia | lia |]. rewrite Z.pow_add_r by lia. lia.
Qed.

Lemma Zdigits2_shiftr (m n : Z) :
  0 <= m -> 0 <= n -> Zdigits2 (m / 2 ^ n) + n <= Z.max (Zdigits2 m) n.
Proof.
  intros Hm Hn. pose proof (Zdigits2_nonneg m) as Hd.
  pose proof (Zdigits2_ub m Hm) as Hub.
  assert (0 < 2 ^ n) as Hp by (apply Z.pow_pos_nonneg; lia).
  destruct (Z_le_gt_dec n (Zdigits2 m)) as [Hle|Hgt].
  - assert (Zdigits2 (m / 2 ^ n) <= Zdigits2 m - n); [|lia].
    apply Zdigits2_le; [apply Z.div_pos; lia | lia |].
    apply Z.div_lt_upper_bound; [lia|].
    rewrite <- Z.pow_add_r by lia. replace (n + (Zdigits2 m - n)) with (Zdigits2 m) by lia.
    exact Hub.
  - rewrite Z.div_small; [cbn; lia|]. split; [lia|].
    apply Z.lt_le_trans with (2 ^ Zdigits2 m); [exact Hub|].
    apply Z.pow_le_mono_r; lia.
Qed.

Lemma Zdigits2_shiftl (m n : Z) :
  0 <= m -> 0 <= n -> Zdigits2 (m * 2 ^ n) <= Zdigits2 m + n.
Proof.
  intros Hm Hn. pose proof (Zdigits2_nonneg m) as Hd.
  pose proof (Zdigits2_ub m Hm) as Hub.
  assert (0 < 2 ^ n) as Hp by (apply Z.pow_pos_nonneg; lia).
  apply Zdigits2_le; [nia | lia |]. rewrite Z.pow_add_r by lia. nia.
Qed.

Lemma shr_1_m (mrs : shr_record) :
  0 <= shr_m mrs -> shr_m (shr_1 mrs) = shr_m mrs / 2.
Proof.
  destruct mrs as [m r s]. cbn [shr_m]. intros Hm.
  destruct m as [|[p|p|]|p]; cbn [shr_1 shr_m]; try lia; try reflexivity.
  - apply (Z.div_unique (Zpos p~1) 2 (Zpos p) 1); lia.
  - apply (Z.div_unique (Zpos p~0) 2 (Zpos p) 0); lia.
Qed.

Lemma iter_shr_1_m (p : positive) :
  forall mrs, 0 <= shr_m mrs ->
    shr_m (SpecFloat.iter_pos shr_1 p mrs) = shr_m mrs / 2 ^ Zpos p.
Proof.
  induction p as [p IH|p IH|]; intros mrs Hm; cbn [SpecFloat.iter_pos].
  - assert (0 <= shr_m (shr_1 mrs)) as H1
        by (rewrite shr_1_m by exact Hm; apply Z.div_pos; lia).
    assert (0 < 2 ^ Zpos p) as Hp by (apply Z.pow_pos_nonneg; lia).
    rewrite IH; [rewrite IH by exact H1 | rewrite IH by exact H1; apply Z.div_pos; lia].
    rewrite shr_1_m by exact Hm. rewrite !Z.div_div by lia.
    f_equal. replace (Zpos p~1) with (1 + Zpos p + Zpos p) by lia.
    rewrite !Z.pow_add_r by lia. lia.
  - assert (0 < 2 ^ Zpos p) as Hp by (apply Z.pow_pos_nonneg; lia).
    rewrite IH; [rewrite IH by exact Hm | rewrite IH by exact Hm; apply Z.div_pos; lia].
    rewrite !Z.div_div by lia. f_equal.
    replace (Zpos p~0) with (Zpos p + Zpos p) by lia.
    rewrite Z.pow_add_r by lia. reflexivity.
  - rewrite shr_1_m by exact Hm. reflexivity.
Qed.

Section RoundingBounds.
Variables prec emax : Z.
Hypothesis Hprec : 0 < prec.

Local Abbreviation fexp := (SpecFloat.fexp prec emax).
Local Abbreviation emin := (SpecFloat.emin prec emax).

Lemma shr_record_of_loc_m (m : Z) (l : location) :
  shr_m (shr_record_of_loc m l) = m.
Proof. destruct l as [|[]]; reflexivity. Qed.

(** The first component of [shr_fexp]: the mantissa shifted to the
    exponent [Z.max e (fexp (digits + e))]. *)
Lemma shr_fexp_spec (m e : Z) (l : location) :
  0 <= m ->
  snd (shr_fexp prec emax m e l) = Z.max e (fexp (Zdigits2 m + e))
  /\ shr_m (fst (shr_fexp prec emax m e l))
     = m / 2 ^ (snd (shr_fexp prec emax m e l) - e).
Proof.
  intros Hm. unfold shr_fexp, shr.
  destruct (fexp (Zdigits2 m + e) - e) as [|p|p] eqn:En; cbn [fst snd].
  - replace (e - e) with 0 by lia. rewrite shr_record_of_loc_m, Z.div_1_r.
    split; [lia | reflexivity].
  - rewrite iter_shr_1_m by (rewrite shr_record_of_loc_m; exact Hm).
    rewrite shr_record_of_loc_m. replace (e + Zpos p - e) with (Zpos p) by lia.
    split; [lia | reflexivity].
  - replace (e - e) with 0 by lia. rewrite shr_record_of_loc_m, Z.div_1_r.
    split; [lia | reflexivity].
Qed.

Lemma round_nearest_even_bounds (m : Z) (l : location) :
  m <= round_nearest_even m l <= m + 1.
Proof.
  destruct l as [|[]]; cbn; try lia. destruct (Z.even m); lia.
Qed.

Local Abbreviation round_top := (round_top prec emax).

Lemma binary_round_aux_spec (s : bool) (m e : Z) (l : location) :
  0 <= m ->
  match binary_round_aux prec emax s m e l with
  | S754_nan => False
  | S754_zero s' => s' = s
  | S754_infinity s' =>
      s' = s /\ emax - prec < Z.max (Z.max e emin) (round_top m e - prec)
  | S754_finite s' m' e' =>
      s' = s /\ e' <= emax - prec
      /\ Zdigits2 (Zpos m') + e' <= round_top m e
      /\ Zdigits2 (Zpos m') <= prec
  end.
Proof.
  intros Hm. unfold binary_round_aux.
  destruct (shr_fexp_spec m e l Hm) as [He1 Hm1].
  destruct (shr_fexp prec emax m e l) as [mrs1 e1]. cbn [fst snd] in He1, Hm1.
  set (m1 := round_nearest_even (shr_m mrs1) (loc_of_shr_record mrs1)).
  assert (0 <= e1 - e) as Hn1 by lia.
  assert (0 < 2 ^ (e1 - e)) as Hp1 by (apply Z.pow_pos_nonneg; lia).
  assert (0 <= shr_m mrs1) as Hs1 by (rewrite Hm1; apply Z.div_pos; lia).
  pose proof (round_nearest_even_bounds (shr_m mrs1) (loc_of_shr_record mrs1)) as Hr.
  fold m1 in Hr.
  assert (0 <= m1) as Hm1' by lia.
  assert (Zdigits2 m1 + e1 <= round_top m e) as Hd1.
  { pose proof (Zdigits2_mono m1 (shr_m mrs1 + 1) ltac:(lia)) as H1.
    pose proof (Zdigits2_succ (shr_m mrs1) Hs1) as H2.
    pose proof (Zdigits2_shiftr m (e1 - e) Hm Hn1) as H3. rewrite <- Hm1 in H3.
    unfold round_top. unfold SpecFloat.fexp in He1. lia. }
  destruct (shr_fexp_spec m1 e1 loc_Exact Hm1') as [He2 Hm2].
  destruct (shr_fexp prec emax m1 e1 loc_Exact) as [mrs2 e2].
  cbn [fst snd] in He2, Hm2.
  assert (0 <= e2 - e1) as Hn2 by lia.
  assert (0 < 2 ^ (e2 - e1)) as Hp2 by (apply Z.pow_pos_nonneg; lia).
  assert (0 <= shr_m mrs2) as Hs2 by (rewrite Hm2; apply Z.div_pos; lia).
  pose proof (Zdigits2_shiftr m1 (e2 - e1) Hm1' Hn2) as H4. rewrite <- Hm2 in H4.
  assert (e2 <= Z.max (Z.max e emin) (round_top m e - prec)) as He2b.
  { unfold round_top in *. unfold SpecFloat.fexp in He1, He2. lia. }
  destruct (shr_m mrs2) as [|m2|m2] eqn:Em2; [reflexivity | | lia].
  destruct (Z.leb_spec e2 (emax - prec)) as [Hle|Hgt].
  - split; [reflexivity|]. split; [exact Hle|].
    assert (0 < Zdigits2 (Zpos m2)) as Hpos by (cbn; lia).
    unfold round_top in *. unfold SpecFloat.fexp in He2. lia.
  - split; [reflexivity | lia].
Qed.

Lemma iter_xO_pow (d m : positive) :
  Zpos (Pos.iter xO m d) = Zpos m * 2 ^ Zpos d.
Proof.
  revert m. induction d as [|d IH] using Pos.peano_ind; intros m.
  - cbn. lia.
  - rewrite Pos.iter_succ, Pos2Z.inj_xO, IH, Pos2Z.inj_succ, Z.pow_succ_r by lia.
    lia.
Qed.

Lemma shl_align_spec (mx : positive) (ex ex' : Z) :
  snd (shl_align mx ex ex') <= ex
  /\ Zdigits2 (Zpos (fst (shl_align mx ex ex'))) + snd (shl_align mx ex ex')
     <= Zdigits2 (Zpos mx) + ex.
Proof.
  unfold shl_align. destruct (ex' - ex) as [|d|d] eqn:Ed; cbn [fst snd]; try lia.
  split; [lia|]. rewrite iter_xO_pow.
  pose proof (Zdigits2_shiftl (Zpos mx) (Zpos d) ltac:(lia) ltac:(lia)). lia.
Qed.

Lemma binary_round_spec (s : bool) (mx : positive) (ex : Z) :
  match binary_round prec emax s mx ex with
  | S754_nan => False
  | S754_zero s' => s' = s
  | S754_infinity s' =>
      s' = s /\ emax - prec < Z.max (Z.max ex emin) (round_top (Zpos mx) ex - prec)
  | S754_finite s' m' e' =>
      s' = s /\ e' <= emax - prec
      /\ Zdigits2 (Zpos m') + e' <= round_top (Zpos mx) ex
      /\ Zdigits2 (Zpos m') <= prec
  end.
Proof.
  unfold binary_round.
  pose proof (shl_align_spec mx ex (fexp (Zpos (digits2_pos mx) + ex))) as [Hez Hdz].
  destruct (shl_align mx ex _) as [mz ez]. cbn [fst snd] in Hez, Hdz.
  pose proof (binary_round_aux_spec s (Zpos mz) ez loc_Exact ltac:(lia)) as H.
  assert (round_top (Zpos mz) ez <= round_top (Zpos mx) ex) as Htop
      by (unfold round_top; lia).
  destruct (binary_round_aux prec emax s (Zpos mz) ez loc_Exact); try exact H.
  - destruct H as [Hs Hlt]. split; [exact Hs | lia].
  - destruct H as (Hs & He & Hd & Hp). repeat split; [exact Hs | exact He | lia | exact Hp].
Qed.

End RoundingBounds.

(** *** The conversions and products the code performs stay finite *)

Lemma f64_of_Z_finite (z : Z) :
  - 2 ^ 64 < z < 2 ^ 64 ->
  match f64_of_Z z with
  | S754_zero _ => True
  | S754_finite _ m e => e <= 971 /\ Zdigits2 (Zpos m) + e <= 65
  | _ => False
  end.
Proof.
  intros Hz. unfold f64_of_Z, binary_normalize.
  destruct z as [|p|p]; [exact I | |].
  - pose proof (binary_round_spec prec64 emax64 eq_refl false p 0) as H.
    assert (Zdigits2 (Zpos p) <= 64) as Hd by (apply Zdigits2_le; lia).
    unfold round_top, emin, prec64, emax64 in *.
    destruct (binary_round 53 1024 false p 0); try exact I; try lia.
  - pose proof (binary_round_spec prec64 emax64 eq_refl true p 0) as H.
    assert (Zdigits2 (Zpos p) <= 64) as Hd by (apply Zdigits2_le; lia).
    unfold round_top, emin, prec64, emax64 in *.
    destruct (binary_round 53 1024 true p 0); try exact I; try lia.
Qed.

Lemma SFdiv_core_binary_spec (prec emax : Z) (m1 m2 : positive) (e1 e2 : Z) :
  let r := SFdiv_core_binary prec emax (Zpos m1) e1 (Zpos m2) e2 in
  0 <= fst (fst r)
  /\ snd (fst r) <= e1 - e2
  /\ snd (fst r)
     <= fexp prec emax (Zdigits2 (Zpos m1) + e1 - (Zdigits2 (Zpos m2) + e2))
  /\ Zdigits2 (fst (fst r)) + snd (fst r) <= Zdigits2 (Zpos m1) + e1 - e2.
Proof.
  unfold SFdiv_core_binary.
  set (e' := Z.min _ (e1 - e2)).
  assert (e' <= e1 - e2) as He by (subst e'; lia).
  set (m' := match e1 - e2 - e' with
             | 0 => Zpos m1 | Zpos _ => Z.shiftl (Zpos m1) (e1 - e2 - e')
             | Zneg _ => 0 end).
  assert (m' = Zpos m1 * 2 ^ (e1 - e2 - e')) as Hm'.
  { subst m'. destruct (e1 - e2 - e') as [|s|s] eqn:Es; [cbn; lia | | lia].
    rewrite Z.shiftl_mul_pow2 by lia. reflexivity. }
  assert (0 < 2 ^ (e1 - e2 - e')) as Hp by (apply Z.pow_pos_nonneg; lia).
  pose proof (Z.div_eucl_eq m' (Zpos m2) ltac:(lia)) as Heq.
  pose proof (Z.mod_pos_bound m' (Zpos m2) ltac:(lia)) as Hmod.
  unfold Z.modulo in Hmod.
  destruct (Z.div_eucl m' (Zpos m2)) as [q r]. cbn [fst snd].
  assert (0 <= q <= m') as Hq by nia.
  split; [lia|]. split; [exact He|]. split; [subst e'; lia|].
  pose proof (Zdigits2_mono q m' Hq) as H1.
  pose proof (Zdigits2_shiftl (Zpos m1) (e1 - e2 - e') ltac:(lia) ltac:(lia)) as H2.
  rewrite <- Hm' in H2. lia.
Qed.

(** [t_d / 1000000.0] is a finite [double] for every [int64_t] [t_d]. *)
Lemma us_to_seconds_finite (t_d : Z) :
  - 2 ^ 63 <= t_d < 2 ^ 63 ->
  is_finite (f64_div (f64_of_Z t_d) f64_1000000) = true.
Proof.
  intros Ht. pose proof (f64_of_Z_finite t_d ltac:(lia)) as H.
  unfold f64_div, f64_1000000.
  destruct (f64_of_Z t_d) as [s| |  |s m e]; try contradiction; [reflexivity|].
  destruct H as [He Hd]. unfold SFdiv.
  pose proof (SFdiv_core_binary_spec prec64 emax64 m 8589934592000000 e (-33))
    as (Hq & He1 & He2 & Hd1).
  destruct (SFdiv_core_binary prec64 emax64 (Zpos m) e (Zpos 8589934592000000) (-33))
    as [[q e'] l]. cbn [fst snd] in *.
  pose proof (binary_round_aux_spec prec64 emax64 eq_refl
                (xorb s false) q e' l Hq) as Hr.
  change (Zdigits2 (Zpos 8589934592000000)) with 53 in He2.
  unfold round_top, fexp, emin, prec64, emax64 in *.
  destruct (binary_round_aux 53 1024 (xorb s false) q e' l);
    try reflexivity; [lia | contradiction].
Qed.

Lemma f64_of_f32_finite (x : float32) :
  valid_binary prec32 emax32 x = true -> is_finite x = true ->
  is_finite (f64_of_f32 x) = true.
Proof.
  destruct x as [s|s| |s m e]; cbn [is_finite f64_of_f32]; try discriminate;
    [reflexivity|].
  cbn [valid_binary]. unfold bounded, canonical_mantissa. intros Hv _.
  apply andb_true_iff in Hv. destruct Hv as [Hc He].
  apply Z.eqb_eq in Hc. apply Z.leb_le in He.
  pose proof (binary_round_spec prec64 emax64 eq_refl s m e) as H.
  change (Zpos (digits2_pos m)) with (Zdigits2 (Zpos m)) in Hc.
  unfold round_top, fexp, emin, prec64, emax64, prec32, emax32 in *.
  destruct (binary_round 53 1024 s m e); try reflexivity; [lia | contradiction].
Qed.

Lemma f32_of_f64_not_nan (x : float64) :
  is_nan x = false -> is_nan (f32_of_f64 x) = false.
Proof.
  destruct x as [s|s| |s m e]; cbn [is_nan f32_of_f64]; try discriminate;
    try reflexivity.
  intros _. pose proof (binary_round_spec prec32 emax32 eq_refl s m e) as H.
  destruct (binary_round prec32 emax32 s m e); try reflexivity. contradiction.
Qed.

Lemma f64_mul_not_nan (x y : float64) :
  is_finite x = true -> is_finite y = true -> is_nan (f64_mul x y) = false.
Proof.
  destruct x as [sx|sx| |sx mx ex]; destruct y as [sy|sy| |sy my ey];
    cbn [is_finite]; try discriminate; try reflexivity.
  intros _ _. unfold f64_mul, SFmul.
  pose proof (binary_round_aux_spec prec64 emax64 eq_refl (xorb sx sy)
                (Zpos (mx * my)) (ex + ey) loc_Exact ltac:(lia)) as H.
  destruct (binary_round_aux prec64 emax64 _ _ _ _); try reflexivity. contradiction.
Qed.

Lemma f64_mul_zero_r (x y : float64) :
  is_finite x = true -> is_zero y = true -> is_zero (f64_mul x y) = true.
Proof.
  destruct x as [sx|sx| |sx mx ex]; destruct y as [sy|sy| |sy my ey];
    cbn [is_finite is_zero]; try discriminate; reflexivity.
Qed.

(** With a decay rate of zero nothing is taken off the peak. *)
Lemma decay_amount_zero (t_d : Z) (rate : float32) :
  - 2 ^ 63 <= t_d < 2 ^ 63 -> is_zero rate = true ->
  is_zero (decay_amount t_d rate) = true.
Proof.
  intros Ht Hr. unfold decay_amount.
  assert (is_zero (f64_of_f32 rate) = true) as Hz
      by (destruct rate; try discriminate; reflexivity).
  pose proof (f64_mul_zero_r _ _ (us_to_seconds_finite t_d Ht) Hz) as H.
  destruct (f64_mul _ _); try discriminate. reflexivity.
Qed.

Lemma decay_amount_not_nan (t_d : Z) (rate : float32) :
  - 2 ^ 63 <= t_d < 2 ^ 63 ->
  valid_binary prec32 emax32 rate = true -> is_finite rate = true ->
  is_nan (decay_amount t_d rate) = false.
Proof.
  intros Ht Hv Hf. unfold decay_amount. apply f32_of_f64_not_nan.
  apply f64_mul_not_nan; [apply us_to_seconds_finite; exact Ht|].
  apply f64_of_f32_finite; assumption.
Qed.

Lemma binary_normalize_not_nan (prec emax : Z) (m e : Z) (sz : bool) :
  0 < prec -> is_nan (binary_normalize prec emax m e sz) = false.
Proof.
  intros Hprec. unfold binary_normalize. destruct m as [|p|p]; [reflexivity | |].
  - pose proof (binary_round_spec prec emax Hprec false p e) as H.
    destruct (binary_round prec emax false p e); try reflexivity. contradiction.
  - pose proof (binary_round_spec prec emax Hprec true p e) as H.
    destruct (binary_round prec emax true p e); try reflexivity. contradiction.
Qed.

Lemma f32_sub_not_nan (x y : float32) :
  is_finite x = true -> is_nan y = false -> is_nan (f32_sub x y) = false.
Proof.
  destruct x as [sx|sx| |sx mx ex]; destruct y as [sy|sy| |sy my ey];
    cbn [is_finite is_nan]; try discriminate; intros _ _;
    try reflexivity.
  - cbn. destruct sx, sy; reflexivity.
  - unfold f32_sub, SFsub. apply binary_normalize_not_nan. reflexivity.
Qed.

(** *** The order on floats *)

Lemma SFcompare_some (x y : spec_float) :
  is_nan x = false -> is_nan y = false -> exists c, SFcompare x y = Some c.
Proof.
  destruct x, y; cbn; try discriminate; eauto.
Qed.

Lemma SFcompare_refl (x : spec_float) :
  is_nan x = false -> SFcompare x x = Some Eq.
Proof.
  destruct x as [s|s| |s m e]; cbn; try discriminate; intros _;
    try reflexivity.
  - destruct s; reflexivity.
  - rewrite Z.compare_refl.
    change (Pos.compare_cont Eq m m) with (Pos.compare m m).
    rewrite Pos.compare_refl. destruct s; reflexivity.
Qed.

Lemma SFcompare_antisym (x y : spec_float) :
  SFcompare y x = option_map CompOpp (SFcompare x y).
Proof.
  destruct x as [sx|sx| |sx mx ex]; destruct y as [sy|sy| |sy my ey]; cbn;
    try reflexivity;
    try (destruct sx; reflexivity); try (destruct sy; reflexivity);
    try (destruct sx, sy; reflexivity).
  rewrite (Z.compare_antisym ex ey).
  change (Pos.compare_cont Eq my mx) with (Pos.compare my mx).
  change (Pos.compare_cont Eq mx my) with (Pos.compare mx my).
  rewrite (Pos.compare_antisym mx my).
  destruct sx, sy; try reflexivity;
    destruct (ex ?= ey); cbn; try reflexivity;
    destruct (mx ?= my)%positive; reflexivity.
Qed.

(** For numbers, "not less" is "greater or equal". *)
Lemma not_gt_ge (x y : spec_float) :
  is_nan x = false -> is_nan y = false -> f_gt x y = false -> f_ge y x = true.
Proof.
  intros Hx Hy. unfold f_gt, f_ge, SFltb, SFleb.
  rewrite (SFcompare_antisym y x).
  destruct (SFcompare_some y x Hy Hx) as [c ->]. cbn.
  destruct c; [reflexivity | discriminate | reflexivity].
Qed.

Lemma not_ge_gt (x y : spec_float) :
  is_nan x = false -> is_nan y = false -> f_ge x y = false -> f_gt y x = true.
Proof.
  intros Hx Hy. unfold f_gt, f_ge, SFltb, SFleb.
  rewrite (SFcompare_antisym y x).
  destruct (SFcompare_some y x Hy Hx) as [c ->]. cbn.
  destruct c; [discriminate | discriminate | reflexivity].
Qed.

Lemma f_gt_ge (x y : spec_float) : f_gt x y = true -> f_ge x y = true.
Proof.
  unfold f_gt, f_ge, SFltb, SFleb. destruct (SFcompare y x) as [[]|]; auto.
Qed.

Lemma f_ge_not_nan (x y : spec_float) :
  f_ge x y = true -> is_nan x = false /\ is_nan y = false.
Proof.
  unfold f_ge, SFleb. destruct x, y; cbn; try discriminate; auto.
Qed.

Lemma f_ge_refl (x : spec_float) : is_nan x = false -> f_ge x x = true.
Proof.
  intros Hx. unfold f_ge, SFleb. rewrite (SFcompare_refl x Hx). reflexivity.
Qed.

Lemma SFleb_trans (x y z : spec_float) :
  SFleb x y = true -> SFleb y z = true -> SFleb x z = true.
Proof.
  unfold SFleb.
  destruct x as [sx|sx| |sx mx ex]; destruct y as [sy|sy| |sy my ey];
    destruct z as [sz|sz| |sz mz ez]; cbn; try discriminate; try reflexivity;
    try (destruct sx; discriminate || reflexivity);
    try (destruct sx, sy; discriminate || reflexivity);
    try (destruct sx, sz; discriminate || reflexivity);
    try (destruct sy, sz; discriminate || reflexivity);
    try (destruct sx, sy, sz; discriminate || reflexivity).
  change (Pos.compare_cont Eq mx my) with (Pos.compare mx my).
  change (Pos.compare_cont Eq my mz) with (Pos.compare my mz).
  change (Pos.compare_cont Eq mx mz) with (Pos.compare mx mz).
  destruct sx, sy, sz; try discriminate; try reflexivity;
    destruct (Z.compare_spec ex ey); destruct (Z.compare_spec ey ez);
    destruct (Z.compare_spec ex ez); try lia;
    destruct (Pos.compare_spec mx my); destruct (Pos.compare_spec my mz);
    destruct (Pos.compare_spec mx mz);
    cbn; try discriminate; try reflexivity; try lia.
Qed.

Lemma f_ge_trans (x y z : spec_float) :
  f_ge x y = true -> f_ge y z = true -> f_ge x z = true.
Proof. unfold f_ge. intros H1 H2. exact (SFleb_trans z y x H2 H1). Qed.

(** Taking a zero off a number leaves a number that compares the same
    (only the sign of a zero may change). *)
Lemma SFcompare_sub_zero_l (x z y : spec_float) :
  is_nan x = false -> is_zero z = true ->
  SFcompare (f32_sub x z) y = SFcompare x y.
Proof.
  destruct z as [sz| | |]; try discriminate.
  destruct x as [sx|sx| |sx mx ex]; try discriminate; intros _ _;
    try reflexivity.
  cbn. destruct sx, sz; reflexivity.
Qed.

Lemma SFcompare_sub_zero_r (x z y : spec_float) :
  is_nan x = false -> is_zero z = true ->
  SFcompare y (f32_sub x z) = SFcompare y x.
Proof.
  intros Hx Hz. rewrite (SFcompare_antisym (f32_sub x z) y).
  rewrite (SFcompare_sub_zero_l x z y Hx Hz).
  symmetry. apply SFcompare_antisym.
Qed.

Lemma f32_sub_zero_not_nan (x z : spec_float) :
  is_nan x = false -> is_zero z = true -> is_nan (f32_sub x z) = false.
Proof.
  destruct z as [sz| | |]; try discriminate.
  destruct x as [sx|sx| |sx mx ex]; try discriminate; intros _ _;
    try reflexivity.
  cbn. destruct sx, sz; reflexivity.
Qed.

(** ** The frequency computed is a number, and the right one *)

Lemma Zdigits2_lb (m : Z) : 0 < m -> 2 ^ (Zdigits2 m - 1) <= m.
Proof.
  destruct m as [|p|p]; intros Hm; try lia. cbn [Zdigits2].
  apply digits2_pos_bounds.
Qed.

Lemma Zdigits2_ge (m k : Z) : 0 <= k -> 2 ^ k <= m -> k + 1 <= Zdigits2 m.
Proof.
  intros Hk Hle. assert (0 < 2 ^ k) by (apply Z.pow_pos_nonneg; lia).
  pose proof (Zdigits2_ub m ltac:(lia)) as Hub.
  pose proof (Zdigits2_nonneg m).
  assert (k < Zdigits2 m); [|lia].
  apply (Z.pow_lt_mono_r_iff 2); lia.
Qed.

Lemma Zdigits2_pos (m : Z) : 0 < m -> 0 < Zdigits2 m.
Proof. destruct m; intros; cbn; lia. Qed.

Lemma Zdigits2_shiftr_lb (m n : Z) :
  0 < m -> 0 <= n < Zdigits2 m ->
  0 < m / 2 ^ n /\ Zdigits2 m - n <= Zdigits2 (m / 2 ^ n).
Proof.
  intros Hm Hn. pose proof (Zdigits2_lb m Hm) as Hlb.
  assert (0 < 2 ^ n) as Hp by (apply Z.pow_pos_nonneg; lia).
  assert (2 ^ (Zdigits2 m - 1 - n) <= m / 2 ^ n) as Hq.
  { apply Z.div_le_lower_bound; [lia|].
    rewrite <- Z.pow_add_r by lia.
    replace (n + (Zdigits2 m - 1 - n)) with (Zdigits2 m - 1) by lia. exact Hlb. }
  assert (0 < 2 ^ (Zdigits2 m - 1 - n)) by (apply Z.pow_pos_nonneg; lia).
  split; [lia|].
  pose proof (Zdigits2_ge (m / 2 ^ n) (Zdigits2 m - 1 - n) ltac:(lia) Hq). lia.
Qed.

Lemma Zdigits2_shiftl_lb (m n : Z) :
  0 < m -> 0 <= n -> Zdigits2 m + n <= Zdigits2 (m * 2 ^ n).
Proof.
  intros Hm Hn. pose proof (Zdigits2_lb m Hm) as Hlb.
  pose proof (Zdigits2_pos m Hm).
  assert (2 ^ (Zdigits2 m - 1 + n) <= m * 2 ^ n) as Hq.
  { rewrite Z.pow_add_r by lia.
    apply Z.mul_le_mono_nonneg_r; [apply Z.pow_nonneg; lia | exact Hlb]. }
  pose proof (Zdigits2_ge (m * 2 ^ n) (Zdigits2 m - 1 + n) ltac:(lia) Hq). lia.
Qed.

Section RoundingLower.
Variables prec emax : Z.
Hypothesis Hprec : 0 < prec.

(** Rounding a positive mantissa whose top bit lies above [emin] does
    not lose the top bit: the result is not zero. *)
Lemma binary_round_aux_lower (s : bool) (m e : Z) (l : location) :
  0 < m -> SpecFloat.emin prec emax < Zdigits2 m + e ->
  match binary_round_aux prec emax s m e l with
  | S754_finite _ m' e' => Zdigits2 m + e <= Zdigits2 (Zpos m') + e'
  | S754_infinity _ => True
  | _ => False
  end.
Proof.
  intros Hm Hemin. unfold binary_round_aux.
  pose proof (Zdigits2_pos m Hm) as Hd.
  destruct (shr_fexp_spec prec emax m e l ltac:(lia)) as [He1 Hm1].
  destruct (shr_fexp prec emax m e l) as [mrs1 e1]. cbn [fst snd] in He1, Hm1.
  set (m1 := round_nearest_even (shr_m mrs1) (loc_of_shr_record mrs1)).
  assert (0 <= e1 - e < Zdigits2 m) as Hn1
      by (unfold SpecFloat.fexp in He1; lia).
  destruct (Zdigits2_shiftr_lb m (e1 - e) Hm Hn1) as [Hs1 Hd1].
  rewrite <- Hm1 in Hs1, Hd1.
  pose proof (round_nearest_even_bounds (shr_m mrs1) (loc_of_shr_record mrs1)) as Hr.
  fold m1 in Hr.
  assert (0 < m1) as Hm1' by lia.
  pose proof (Zdigits2_mono (shr_m mrs1) m1 ltac:(lia)) as Hmono.
  pose proof (Zdigits2_pos m1 Hm1') as Hdm1.
  destruct (shr_fexp_spec prec emax m1 e1 loc_Exact ltac:(lia)) as [He2 Hm2].
  destruct (shr_fexp prec emax m1 e1 loc_Exact) as [mrs2 e2].
  cbn [fst snd] in He2, Hm2.
  assert (0 <= e2 - e1 < Zdigits2 m1) as Hn2
      by (unfold SpecFloat.fexp in He2; lia).
  destruct (Zdigits2_shiftr_lb m1 (e2 - e1) Hm1' Hn2) as [Hs2 Hd2].
  rewrite <- Hm2 in Hs2, Hd2.
  destruct (shr_m mrs2) as [|m2|m2] eqn:Em2; [lia | | lia].
  destruct (e2 <=? emax - prec); [lia | exact I].
Qed.

Lemma shl_align_lower (mx : positive) (ex ex' : Z) :
  Zdigits2 (Zpos mx) + ex
  <= Zdigits2 (Zpos (fst (shl_align mx ex ex'))) + snd (shl_align mx ex ex').
Proof.
  unfold shl_align. destruct (ex' - ex) as [|d|d] eqn:Ed; cbn [fst snd]; try lia.
  rewrite iter_xO_pow.
  pose proof (Zdigits2_shiftl_lb (Zpos mx) (Zpos d) ltac:(lia) ltac:(lia)). lia.
Qed.

Lemma binary_round_lower (s : bool) (mx : positive) (ex : Z) :
  SpecFloat.emin prec emax < Zdigits2 (Zpos mx) + ex ->
  match binary_round prec emax s mx ex with
  | S754_finite _ m' e' => Zdigits2 (Zpos mx) + ex <= Zdigits2 (Zpos m') + e'
  | S754_infinity _ => True
  | _ => False
  end.
Proof.
  intros Hemin. unfold binary_round.
  pose proof (shl_align_lower mx ex
                (SpecFloat.fexp prec emax (Zpos (digits2_pos mx) + ex))) as Hdz.
  destruct (shl_align mx ex _) as [mz ez]. cbn [fst snd] in Hdz.
  pose proof (binary_round_aux_lower s (Zpos mz) ez loc_Exact ltac:(lia)
                ltac:(lia)) as H.
  destruct (binary_round_aux prec emax s (Zpos mz) ez loc_Exact); try exact H.
  lia.
Qed.

(** The quotient keeps at least [prec] bits. *)
Lemma SFdiv_core_binary_lower (m1 m2 : positive) (e1 e2 : Z) :
  let D := Zdigits2 (Zpos m1) + e1 - (Zdigits2 (Zpos m2) + e2) in
  let r := SFdiv_core_binary prec emax (Zpos m1) e1 (Zpos m2) e2 in
  SpecFloat.emin prec emax <= D - prec ->
  0 < fst (fst r) /\ D <= Zdigits2 (fst (fst r)) + snd (fst r).
Proof.
  intros D r Hemin. subst r. unfold SFdiv_core_binary.
  set (e' := Z.min _ (e1 - e2)).
  assert (e' <= e1 - e2 /\ e' <= D - prec) as [He He']
      by (subst e' D; unfold SpecFloat.fexp; lia).
  set (m' := match e1 - e2 - e' with
             | 0 => Zpos m1 | Zpos _ => Z.shiftl (Zpos m1) (e1 - e2 - e')
             | Zneg _ => 0 end).
  assert (m' = Zpos m1 * 2 ^ (e1 - e2 - e')) as Hm'.
  { subst m'. destruct (e1 - e2 - e') as [|s|s] eqn:Es; [cbn; lia | | lia].
    rewrite Z.shiftl_mul_pow2 by lia. reflexivity. }
  pose proof (Z.div_eucl_eq m' (Zpos m2) ltac:(lia)) as Heq.
  pose proof (Z.mod_pos_bound m' (Zpos m2) ltac:(lia)) as Hmod.
  unfold Z.modulo in Hmod.
  destruct (Z.div_eucl m' (Zpos m2)) as [q r]. cbn [fst snd].
  set (d1 := Zdigits2 (Zpos m1)) in *. set (d2 := Zdigits2 (Zpos m2)) in *.
  pose proof (Zdigits2_lb (Zpos m1) ltac:(lia)) as Hlb1. fold d1 in Hlb1.
  pose proof (Zdigits2_ub (Zpos m2) ltac:(lia)) as Hub2. fold d2 in Hub2.
  assert (0 < d1 /\ 0 < d2) as [Hd1 Hd2]
      by (subst d1 d2; split; apply Zdigits2_pos; lia).
  set (k := d1 - 1 + (e1 - e2 - e') - d2).
  assert (0 <= k) as Hk by (subst k D; lia).
  assert (2 ^ k * 2 ^ d2 <= m') as Hpow.
  { rewrite <- Z.pow_add_r by lia.
    replace (k + d2) with (d1 - 1 + (e1 - e2 - e')) by (subst k; lia).
    rewrite Z.pow_add_r by lia. rewrite Hm'.
    apply Z.mul_le_mono_nonneg_r; [apply Z.pow_nonneg; lia | exact Hlb1]. }
  assert (0 < 2 ^ k) as Hpk by (apply Z.pow_pos_nonneg; lia).
  assert (2 ^ k <= q) as Hq by nia.
  split; [lia|].
  pose proof (Zdigits2_ge q k Hk Hq). subst k D. lia.
Qed.

End RoundingLower.

(** A positive integer below [2^64], as a [double]. *)
Lemma f64_of_Z_pos (z : Z) :
  0 < z < 2 ^ 64 ->
  exists m e,
    f64_of_Z z = S754_finite false m e
    /\ Zdigits2 z <= Zdigits2 (Zpos m) + e <= Zdigits2 z + 1
    /\ Zdigits2 (Zpos m) <= 53.
Proof.
  intros Hz. unfold f64_of_Z, binary_normalize.
  destruct z as [|p|p]; try lia.
  pose proof (binary_round_spec prec64 emax64 eq_refl false p 0) as Hup.
  pose proof (binary_round_lower prec64 emax64 eq_refl false p 0) as Hlo.
  assert (0 < Zdigits2 (Zpos p) <= 64) as Hd
      by (split; [apply Zdigits2_pos; lia | apply Zdigits2_le; lia]).
  unfold round_top, emin, prec64, emax64 in *.
  specialize (Hlo ltac:(lia)).
  destruct (binary_round 53 1024 false p 0) as [s|s| |s m e];
    try contradiction.
  - exfalso. lia.
  - destruct Hup as (-> & He & Hdd & Hp). exists m, e.
    split; [reflexivity|]. lia.
Qed.

(** The quotient of two positive [double]s, away from the ends of the
    exponent range. *)
Lemma f64_div_pos (m1 m2 : positive) (e1 e2 : Z) :
  - 1021 <= Zdigits2 (Zpos m1) + e1 - (Zdigits2 (Zpos m2) + e2) ->
  Zdigits2 (Zpos m1) + e1 - e2 <= 1022 ->
  exists m e,
    f64_div (S754_finite false m1 e1) (S754_finite false m2 e2)
    = S754_finite false m e
    /\ Zdigits2 (Zpos m1) + e1 - (Zdigits2 (Zpos m2) + e2) <= Zdigits2 (Zpos m) + e
    /\ Zdigits2 (Zpos m) + e <= Zdigits2 (Zpos m1) + e1 - e2 + 1
    /\ Zdigits2 (Zpos m) <= 53.
Proof.
  intros Hlo Hhi. unfold f64_div, SFdiv.
  pose proof (SFdiv_core_binary_spec prec64 emax64 m1 m2 e1 e2)
    as (Hq & He1 & He2 & Hd1).
  pose proof (SFdiv_core_binary_lower prec64 emax64 eq_refl m1 m2 e1 e2) as Hl.
  cbv zeta in Hl.
  destruct (SFdiv_core_binary prec64 emax64 (Zpos m1) e1 (Zpos m2) e2)
    as [[q e'] l]. cbn [fst snd] in *.
  destruct Hl as [Hqpos Hdq]; [unfold emin, prec64, emax64; lia|].
  pose proof (binary_round_aux_spec prec64 emax64 eq_refl
                (xorb false false) q e' l Hq) as Hup.
  pose proof (binary_round_aux_lower prec64 emax64 eq_refl
                (xorb false false) q e' l Hqpos) as Hlow.
  pose proof (Zdigits2_pos (Zpos m2) ltac:(lia)) as Hd2.
  unfold round_top, fexp, emin, prec64, emax64 in *.
  specialize (Hlow ltac:(lia)).
  destruct (binary_round_aux 53 1024 (xorb false false) q e' l) as [s|s| |s m e];
    try contradiction.
  - exfalso. lia.
  - destruct Hup as (-> & He & Hdd & Hp). exists m, e.
    split; [reflexivity|]. lia.
Qed.

(** Narrowing a positive [double] inside the range of [float]. *)
Lemma f32_of_f64_pos (m : positive) (e : Z) :
  - 149 < Zdigits2 (Zpos m) + e <= 127 -> e <= 104 ->
  exists m' e', f32_of_f64 (S754_finite false m e) = S754_finite false m' e'.
Proof.
  intros Hd He. cbn [f32_of_f64].
  pose proof (binary_round_spec prec32 emax32 eq_refl false m e) as Hup.
  pose proof (binary_round_lower prec32 emax32 eq_refl false m e) as Hlo.
  unfold round_top, emin, prec32, emax32 in *.
  specialize (Hlo ltac:(lia)).
  destruct (binary_round 24 128 false m e) as [s|s| |s m' e'];
    try contradiction.
  - exfalso. lia.
  - destruct Hup as (-> & _). eauto.
Qed.

(** The quotient the sampler stores: [+0] for no pulse, otherwise a
    finite number above zero. *)
Lemma tacho_freq_of_number (pulses delta : Z) :
  0 <= pulses < 2 ^ 32 -> 1000000 <= delta < 2 ^ 63 ->
  (pulses = 0 -> tacho_freq_of pulses delta = f32_zero)
  /\ (0 < pulses ->
      exists m e, tacho_freq_of pulses delta = S754_finite false m e).
Proof.
  intros Hp Hdelta. unfold tacho_freq_of.
  destruct (f64_of_Z_pos delta ltac:(lia)) as (md & ed & Ed & Hd1 & Hd2).
  assert (20 <= Zdigits2 delta <= 63) as Hdd.
  { split.
    - apply (Zdigits2_ge delta 19); [lia|]. change (2 ^ 19) with 524288. lia.
    - apply Zdigits2_le; lia. }
  rewrite Ed. unfold f64_1000000.
  destruct (f64_div_pos md 8589934592000000 ed (-33)) as (ms & es & Es & Hs1 & Hs2 & Hs3).
  { change (Zdigits2 (Zpos 8589934592000000)) with 53. lia. }
  { lia. }
  change (Zdigits2 (Zpos 8589934592000000)) with 53 in Hs1.
  rewrite Es. split.
  - intros ->. reflexivity.
  - intros Hpos.
    destruct (f64_of_Z_pos pulses ltac:(lia)) as (mp & ep & Ep & Hp1 & Hp2).
    assert (1 <= Zdigits2 pulses <= 32) as Hdp.
    { split; [pose proof (Zdigits2_pos pulses Hpos); lia|].
      apply Zdigits2_le; lia. }
    rewrite Ep.
    pose proof (Zdigits2_pos (Zpos ms) ltac:(lia)) as Hms.
    destruct (f64_div_pos mp ms ep es) as (mf & ef & Ef & Hf1 & Hf2 & Hf3);
      [lia | lia |].
    rewrite Ef.
    pose proof (Zdigits2_pos (Zpos mf) ltac:(lia)) as Hmf.
    apply f32_of_f64_pos; lia.
Qed.

(** *** The error of one rounding *)

Section RoundingError.
Variables prec emax : Z.
Hypothesis Hprec : 0 < prec.

(** The mantissa and exponent [binary_round_aux] returns, for a
    mantissa of [prec] digits or more above the subnormal range: the
    result is one unit of its last place at most from the number [m]
    stands for, whatever the location says of the digits below [m],
    and its mantissa has all its [prec] digits. *)
Lemma binary_round_aux_enclose (s : bool) (m e : Z) (l : location) :
  0 < m -> prec <= Zdigits2 m ->
  SpecFloat.emin prec emax <= Zdigits2 m + e - prec ->
  match binary_round_aux prec emax s m e l with
  | S754_finite s' m' e' =>
      s' = s /\ e <= e'
      /\ (Zpos m' - 1) * 2 ^ (e' - e) <= m
      /\ m + 1 <= (Zpos m' + 1) * 2 ^ (e' - e)
      /\ 2 ^ (prec - 1) <= Zpos m'
  | S754_infinity _ => True
  | _ => False
  end.
Proof.
  intros Hm Hd Hemin. unfold binary_round_aux.
  destruct (shr_fexp_spec prec emax m e l ltac:(lia)) as [He1 Hm1].
  destruct (shr_fexp prec emax m e l) as [mrs1 e1]. cbn [fst snd] in He1, Hm1.
  set (m1 := round_nearest_even (shr_m mrs1) (loc_of_shr_record mrs1)).
  assert (e1 - e = Zdigits2 m - prec) as Hn1
      by (unfold SpecFloat.fexp in He1; lia).
  destruct (Zdigits2_shiftr_lb m (e1 - e) Hm ltac:(lia)) as [Hs1 Hd1].
  rewrite <- Hm1 in Hs1, Hd1.
  pose proof (round_nearest_even_bounds (shr_m mrs1) (loc_of_shr_record mrs1)) as Hr.
  fold m1 in Hr.
  assert (0 < m1) as Hm1' by lia.
  pose proof (Zdigits2_mono (shr_m mrs1) m1 ltac:(lia)) as Hmono.
  destruct (shr_fexp_spec prec emax m1 e1 loc_Exact ltac:(lia)) as [He2 Hm2].
  destruct (shr_fexp prec emax m1 e1 loc_Exact) as [mrs2 e2].
  cbn [fst snd] in He2, Hm2.
  assert (e2 - e1 = Zdigits2 m1 - prec) as Hn2
      by (unfold SpecFloat.fexp in He2; lia).
  destruct (Zdigits2_shiftr_lb m1 (e2 - e1) Hm1' ltac:(lia)) as [Hs2 Hd2].
  rewrite <- Hm2 in Hs2, Hd2.
  assert (0 < 2 ^ (e1 - e)) as Hp1 by (apply Z.pow_pos_nonneg; lia).
  assert (0 < 2 ^ (e2 - e1)) as Hp2 by (apply Z.pow_pos_nonneg; lia).
  assert (2 ^ (e2 - e) = 2 ^ (e1 - e) * 2 ^ (e2 - e1)) as Hpow.
  { rewrite <- Z.pow_add_r by lia. f_equal. lia. }
  pose proof (Z.div_mod m (2 ^ (e1 - e)) ltac:(lia)) as Hdm1.
  pose proof (Z.mod_pos_bound m (2 ^ (e1 - e)) Hp1) as Hmb1.
  rewrite <- Hm1 in Hdm1.
  pose proof (Z.div_mod m1 (2 ^ (e2 - e1)) ltac:(lia)) as Hdm2.
  pose proof (Z.mod_pos_bound m1 (2 ^ (e2 - e1)) Hp2) as Hmb2.
  rewrite <- Hm2 in Hdm2.
  destruct (shr_m mrs2) as [|m2|m2] eqn:Em2; [lia | | lia].
  destruct (e2 <=? emax - prec); [|exact I].
  split; [reflexivity|]. split; [lia|]. rewrite Hpow.
  set (A := 2 ^ (e1 - e)) in *. set (B := 2 ^ (e2 - e1)) in *.
  set (r1 := m mod A) in *. set (r2 := m1 mod B) in *.
  set (s1 := shr_m mrs1) in *.
  split; [nia|]. split; [nia|].
  pose proof (Zdigits2_lb (Zpos m2) ltac:(lia)) as Hlb.
  assert (2 ^ (prec - 1) <= 2 ^ (Zdigits2 (Zpos m2) - 1))
      by (apply Z.pow_le_mono_r; lia).
  lia.
Qed.

(** [shl_align] rewrites a number, it does not change it. *)
Lemma shl_align_exact (mx : positive) (ex ex' : Z) :
  let r := shl_align mx ex ex' in
  snd r <= ex
  /\ Zpos (fst r) = Zpos mx * 2 ^ (ex - snd r)
  /\ ((ex <= ex' /\ fst r = mx) \/ (ex' < ex /\ snd r = ex')).
Proof.
  unfold shl_align. destruct (ex' - ex) as [|d|d] eqn:Ed; cbn [fst snd].
  - rewrite Z.sub_diag. cbn. lia.
  - rewrite Z.sub_diag. cbn. lia.
  - split; [lia|]. split; [|right; lia].
    unfold shift_pos. rewrite iter_xO_pow. f_equal. f_equal. lia.
Qed.

(** [binary_round], for a number above the subnormal range. *)
Lemma binary_round_enclose (s : bool) (mx : positive) (ex : Z) :
  SpecFloat.emin prec emax <= Zdigits2 (Zpos mx) + ex - prec ->
  match binary_round prec emax s mx ex with
  | S754_finite s' m' e' =>
      s' = s
      /\ exists (mz : positive) (ez : Z),
           ez <= ex /\ Zpos mz = Zpos mx * 2 ^ (ex - ez) /\ ez <= e'
           /\ (Zpos m' - 1) * 2 ^ (e' - ez) <= Zpos mz
           /\ Zpos mz + 1 <= (Zpos m' + 1) * 2 ^ (e' - ez)
           /\ 2 ^ (prec - 1) <= Zpos m'
  | S754_infinity _ => True
  | _ => False
  end.
Proof.
  intros Hemin. unfold binary_round.
  pose proof (shl_align_exact mx ex
                (SpecFloat.fexp prec emax (Zpos (digits2_pos mx) + ex)))
    as (Hez & Hmz & Hcase).
  pose proof (shl_align_lower mx ex
                (SpecFloat.fexp prec emax (Zpos (digits2_pos mx) + ex))) as Hlow.
  cbv zeta in Hez, Hmz, Hcase.
  destruct (shl_align mx ex _) as [mz ez]. cbn [fst snd] in *.
  change (Zpos (digits2_pos mx)) with (Zdigits2 (Zpos mx)) in Hcase.
  assert (prec <= Zdigits2 (Zpos mz)) as Hdz.
  { unfold SpecFloat.fexp in Hcase. destruct Hcase as [[H1 ->]|[H1 H2]]; lia. }
  pose proof (binary_round_aux_enclose s (Zpos mz) ez loc_Exact ltac:(lia) Hdz
                ltac:(lia)) as H.
  destruct (binary_round_aux prec emax s (Zpos mz) ez loc_Exact) as [| | |s' m' e'];
    try exact H.
  destruct H as (Hs & He & Hlo & Hhi & Hn).
  split; [exact Hs|]. exists mz, ez. repeat split; try assumption; lia.
Qed.

(** The quotient and the remainder behind [SFdiv_core_binary]. *)
Lemma SFdiv_core_binary_eucl (m1 m2 : positive) (e1 e2 : Z) :
  let r := SFdiv_core_binary prec emax (Zpos m1) e1 (Zpos m2) e2 in
  snd (fst r) <= e1 - e2
  /\ exists rem,
       Zpos m1 * 2 ^ (e1 - e2 - snd (fst r)) = Zpos m2 * fst (fst r) + rem
       /\ 0 <= rem < Zpos m2.
Proof.
  unfold SFdiv_core_binary.
  set (e' := Z.min _ (e1 - e2)).
  assert (e' <= e1 - e2) as He by (subst e'; lia).
  set (m' := match e1 - e2 - e' with
             | 0 => Zpos m1 | Zpos _ => Z.shiftl (Zpos m1) (e1 - e2 - e')
             | Zneg _ => 0 end).
  assert (m' = Zpos m1 * 2 ^ (e1 - e2 - e')) as Hm'.
  { subst m'. destruct (e1 - e2 - e') as [|s|s] eqn:Es; [cbn; lia | | lia].
    rewrite Z.shiftl_mul_pow2 by lia. reflexivity. }
  pose proof (Z.div_eucl_eq m' (Zpos m2) ltac:(lia)) as Heq.
  pose proof (Z.mod_pos_bound m' (Zpos m2) ltac:(lia)) as Hmod.
  unfold Z.modulo in Hmod.
  destruct (Z.div_eucl m' (Zpos m2)) as [q r]. cbn [fst snd].
  split; [exact He|]. exists r. rewrite <- Hm'. split; [exact Heq | exact Hmod].
Qed.

End RoundingError.

(** *** From mantissas and exponents to numbers *)

Lemma pow2_pos (e : Z) : (0 < 2 ^ e)%Q.
Proof. apply Qpower_0_lt. reflexivity. Qed.

Lemma pow2_split (e e' : Z) :
  e <= e' -> (2 ^ e' == inject_Z (2 ^ (e' - e)) * 2 ^ e)%Q.
Proof.
  intros He. replace e' with ((e' - e) + e) at 1 by lia.
  rewrite Qpower_plus by discriminate.
  rewrite (Zpower_Qpower 2 (e' - e)) by lia. reflexivity.
Qed.

(** A number between [mz * 2^ez] and [(mz + 1) * 2^ez] and the result
    [m' * 2^e'] of rounding it: the error is [2^e'] at most, which is
    no more than the result divided by [c] when [c <= m']. *)
Lemma enclose_Q (c m' mz e' ez : Z) (V : Q) :
  ez <= e' -> 0 < c <= m' ->
  (m' - 1) * 2 ^ (e' - ez) <= mz ->
  mz + 1 <= (m' + 1) * 2 ^ (e' - ez) ->
  (inject_Z mz * 2 ^ ez <= V)%Q -> (V <= inject_Z (mz + 1) * 2 ^ ez)%Q ->
  exists E : Q,
    (0 < E)%Q
    /\ (inject_Z m' * 2 ^ e' - E <= V)%Q
    /\ (V <= inject_Z m' * 2 ^ e' + E)%Q
    /\ (inject_Z c * E <= inject_Z m' * 2 ^ e')%Q.
Proof.
  intros He Hc Hlo Hhi HV1 HV2. exists (2 ^ e')%Q.
  pose proof (pow2_pos ez) as HP. pose proof (pow2_pos e') as HP'.
  pose proof (pow2_split ez e' He) as Hsplit.
  assert (0 < 2 ^ (e' - ez)) as Hk by (apply Z.pow_pos_nonneg; lia).
  assert (m' * 2 ^ (e' - ez) <= mz + 2 ^ (e' - ez)) as Hlo' by nia.
  clear Hlo. rename Hlo' into Hlo.
  rewrite Zlt_Qlt in Hk. rewrite Zle_Qle in Hlo, Hhi.
  rewrite inject_Z_mult, !inject_Z_plus in Hhi.
  rewrite inject_Z_mult, !inject_Z_plus in Hlo.
  rewrite inject_Z_plus in HV2.
  destruct Hc as [Hc0 Hc]. rewrite Zle_Qle in Hc. rewrite Zlt_Qlt in Hc0.
  set (K := inject_Z (2 ^ (e' - ez))) in *.
  set (P := (2 ^ ez)%Q) in *. set (P' := (2 ^ e')%Q) in *.
  set (M := inject_Z m') in *. set (Mz := inject_Z mz) in *.
  set (C := inject_Z c) in *.
  change (inject_Z 1) with 1%Q in *. change (inject_Z 0) with 0%Q in *.
  split; [exact HP'|]. rewrite Hsplit.
  clearbody K P M Mz C. clear Hsplit HP' P'.
  assert (0 < K * P)%Q as HKP by nra.
  assert (M * K * P <= (Mz + K) * P)%Q as H1 by nra.
  assert ((Mz + 1) * P <= (M + 1) * K * P)%Q as H2 by nra.
  assert (C * (K * P) <= M * (K * P))%Q as H3 by nra.
  repeat split; [nra | nra | exact H3].
Qed.

(** With [2^(prec - 1) <= m'], the error is the fraction [u] of the
    result when [2^(prec - 1) * u = 1]. *)
Lemma enclose_near (c u R E V : Q) :
  (c * u == 1)%Q -> (0 < c)%Q -> (0 < E)%Q ->
  (R - E <= V)%Q -> (V <= R + E)%Q -> (c * E <= R)%Q ->
  near u R V.
Proof.
  intros Hcu Hc HE H1 H2 H3. unfold near.
  assert (E <= R * u)%Q as HEu.
  { assert (0 < u)%Q as Hu by nra.
    assert (c * u * E <= R * u)%Q by nra. nra. }
  split; lra.
Qed.

Lemma f64_of_Z_near (z : Z) (s : bool) (m : positive) (e : Z) :
  0 < z -> f64_of_Z z = S754_finite s m e ->
  near u64 (inject_Z (Zpos m) * 2 ^ e) (inject_Z z).
Proof.
  intros Hz Heq. unfold f64_of_Z, binary_normalize in Heq.
  destruct z as [|p|p]; try lia.
  pose proof (binary_round_enclose prec64 emax64 eq_refl false p 0) as H.
  rewrite Heq in H.
  destruct H as (_ & mz & ez & Hez & Hmz & He & Hlo & Hhi & Hn).
  { pose proof (Zdigits2_pos (Zpos p) ltac:(lia)).
    unfold emin, prec64, emax64. lia. }
  assert (inject_Z (Zpos p) == inject_Z (Zpos mz) * 2 ^ ez)%Q as HV.
  { rewrite Hmz, inject_Z_mult.
    rewrite (Zpower_Qpower 2 (0 - ez)) by lia.
    rewrite <- Qmult_assoc, <- Qpower_plus by discriminate.
    replace (0 - ez + ez) with 0 by lia. cbn. ring. }
  destruct (enclose_Q (2 ^ (prec64 - 1)) (Zpos m) (Zpos mz) e ez
              (inject_Z (Zpos p)) He)
    as (E & HE & H1 & H2 & H3); try assumption.
  - split; [reflexivity | exact Hn].
  - rewrite HV. apply Qle_refl.
  - rewrite HV, inject_Z_plus.
    pose proof (pow2_pos ez). change (inject_Z 1) with 1%Q. nra.
  - apply (enclose_near (inject_Z (2 ^ (prec64 - 1))) u64 _ E); try assumption;
      reflexivity.
Qed.

Lemma f32_of_f64_near (m : positive) (e : Z) (s' : bool) (m' : positive) (e' : Z) :
  - 149 <= Zdigits2 (Zpos m) + e - 24 ->
  f32_of_f64 (S754_finite false m e) = S754_finite s' m' e' ->
  near u32 (inject_Z (Zpos m') * 2 ^ e') (inject_Z (Zpos m) * 2 ^ e).
Proof.
  intros Hd Heq. cbn [f32_of_f64] in Heq.
  pose proof (binary_round_enclose prec32 emax32 eq_refl false m e) as H.
  rewrite Heq in H.
  destruct H as (_ & mz & ez & Hez & Hmz & He & Hlo & Hhi & Hn).
  { unfold emin, prec32, emax32. lia. }
  assert (inject_Z (Zpos m) * 2 ^ e == inject_Z (Zpos mz) * 2 ^ ez)%Q as HV.
  { rewrite Hmz, inject_Z_mult.
    rewrite (pow2_split ez e Hez). ring. }
  destruct (enclose_Q (2 ^ (prec32 - 1)) (Zpos m') (Zpos mz) e' ez
              (inject_Z (Zpos m) * 2 ^ e) He)
    as (E & HE & H1 & H2 & H3); try assumption.
  - split; [reflexivity | exact Hn].
  - rewrite HV. apply Qle_refl.
  - rewrite HV, inject_Z_plus.
    pose proof (pow2_pos ez). change (inject_Z 1) with 1%Q. nra.
  - apply (enclose_near (inject_Z (2 ^ (prec32 - 1))) u32 _ E); try assumption;
      reflexivity.
Qed.

Lemma f64_div_near (m1 m2 : positive) (e1 e2 : Z) (s : bool) (m : positive)
    (e : Z) (V : Q) :
  - 1021 <= Zdigits2 (Zpos m1) + e1 - (Zdigits2 (Zpos m2) + e2) ->
  f64_div (S754_finite false m1 e1) (S754_finite false m2 e2)
  = S754_finite s m e ->
  (V * (inject_Z (Zpos m2) * 2 ^ e2) == inject_Z (Zpos m1) * 2 ^ e1)%Q ->
  near u64 (inject_Z (Zpos m) * 2 ^ e) V.
Proof.
  intros HD Heq HV. unfold f64_div, SFdiv in Heq.
  pose proof (SFdiv_core_binary_spec prec64 emax64 m1 m2 e1 e2)
    as (_ & _ & He2 & _).
  pose proof (SFdiv_core_binary_lower prec64 emax64 eq_refl m1 m2 e1 e2) as Hl.
  pose proof (SFdiv_core_binary_eucl prec64 emax64 m1 m2 e1 e2) as (He1 & rem & Heu & Hrem).
  cbv zeta in Hl.
  destruct (SFdiv_core_binary prec64 emax64 (Zpos m1) e1 (Zpos m2) e2)
    as [[q e'] l]. cbn [fst snd] in *.
  destruct Hl as [Hqpos Hdq]; [unfold emin, prec64, emax64; lia|].
  pose proof (binary_round_aux_enclose prec64 emax64 eq_refl
                (xorb false false) q e' l Hqpos) as H.
  rewrite Heq in H. unfold fexp, emin, prec64, emax64 in *.
  destruct H as (_ & He & Hlo & Hhi & Hn); [lia | lia |].
  (* the quotient lies between [q] and [q + 1] units of [2^e'] *)
  pose proof (pow2_pos e2) as HP2. pose proof (pow2_pos e') as HP'.
  assert (2 ^ e1 == inject_Z (2 ^ (e1 - e2 - e')) * (2 ^ e2 * 2 ^ e'))%Q as Hsplit.
  { rewrite (pow2_split (e2 + e') e1) by lia.
    rewrite Qpower_plus by discriminate.
    replace (e1 - (e2 + e')) with (e1 - e2 - e') by lia. reflexivity. }
  assert (inject_Z (Zpos m1) * inject_Z (2 ^ (e1 - e2 - e'))
          == inject_Z (Zpos m2) * inject_Z q + inject_Z rem)%Q as Heu'.
  { rewrite <- !inject_Z_mult, <- inject_Z_plus, Heu. reflexivity. }
  destruct Hrem as [Hr0 Hr1]. rewrite Zle_Qle in Hr0. rewrite Zlt_Qlt in Hr1.
  assert (0 < inject_Z (Zpos m2))%Q as Hm2
      by (change 0%Q with (inject_Z 0); rewrite <- Zlt_Qlt; lia).
  rewrite Hsplit in HV.
  set (M1 := inject_Z (Zpos m1)) in *. set (M2 := inject_Z (Zpos m2)) in *.
  set (K := inject_Z (2 ^ (e1 - e2 - e'))) in *.
  set (R := inject_Z rem) in *. set (Qq := inject_Z q) in *.
  set (P2 := (2 ^ e2)%Q) in *. set (P' := (2 ^ e')%Q) in *.
  change (inject_Z 0) with 0%Q in *.
  assert (0 < M2 * P2)%Q as HY by nra.
  assert (V * (M2 * P2) == (M2 * Qq + R) * (P2 * P'))%Q as HV'.
  { rewrite HV, <- Heu'. ring. }
  assert (0 < P2 * P')%Q as HPP by nra.
  assert (Qq * P' <= V)%Q as HVlo.
  { apply (Qmult_lt_0_le_reg_r _ _ (M2 * P2) HY). rewrite HV'.
    clearbody M1 M2 K R Qq P2 P'. clear - Hr0 HPP.
    assert (0 <= R * (P2 * P'))%Q by nra. nra. }
  assert (V <= (Qq + 1) * P')%Q as HVhi.
  { apply (Qmult_lt_0_le_reg_r _ _ (M2 * P2) HY). rewrite HV'.
    clearbody M1 M2 K R Qq P2 P'. clear - Hr1 HPP.
    assert (R * (P2 * P') <= M2 * (P2 * P'))%Q by nra. nra. }
  destruct (enclose_Q (2 ^ 52) (Zpos m) q e e' V He)
    as (E & HE & H1 & H2 & H3); try assumption.
  - split; [reflexivity | exact Hn].
  - rewrite inject_Z_plus. exact HVhi.
  - apply (enclose_near (inject_Z (2 ^ 52)) u64 _ E); try assumption;
      reflexivity.
Qed.

Lemma value_pos (m : positive) (e : Z) : (0 < inject_Z (Zpos m) * 2 ^ e)%Q.
Proof.
  pose proof (pow2_pos e).
  assert (0 < inject_Z (Zpos m))%Q
      by (change 0%Q with (inject_Z 0); rewrite <- Zlt_Qlt; lia).
  nra.
Qed.

(** The five roundings of [tacho_freq_of] together. *)
Lemma five_roundings (dq pq Dv V2 Sv Pv V4 Fv fv T : Q) :
  (0 < dq)%Q -> (0 <= pq)%Q -> (0 < Sv)%Q -> (0 < fv)%Q ->
  near u64 Dv dq -> (V2 * 1000000 == Dv)%Q -> near u64 Sv V2 ->
  near u64 Pv pq -> (V4 * Sv == Pv)%Q -> near u64 Fv V4 ->
  near u32 fv Fv ->
  (T * dq == pq * 1000000)%Q ->
  close_to float_tolerance fv T.
Proof.
  unfold near, u64, u32, close_to, float_tolerance.
  intros Hd Hp HS Hf [D1 D2] HV2 [S1 S2] [P1 P2] HV4 [F1 F2] [f1 f2] HT.
  (* the elapsed time against the seconds computed *)
  assert (Sv * (1 - (1 # 4503599627370496)) * (1 - (1 # 4503599627370496)) * 1000000
          <= dq)%Q as Hlo by lra.
  assert (dq <= Sv * (1 + (1 # 4503599627370496)) * (1 + (1 # 4503599627370496))
                * 1000000)%Q as Hhi by lra.
  (* the pulses against the quotient computed times the seconds *)
  assert (Fv * Sv * (1 - (1 # 4503599627370496)) <= Pv)%Q as W1.
  { rewrite <- HV4. nra. }
  assert (Pv <= Fv * Sv * (1 + (1 # 4503599627370496)))%Q as W2.
  { rewrite <- HV4. nra. }
  assert (fv * Sv * (1 - (1 # 8388608)) <= Fv * Sv)%Q as Z1 by nra.
  assert (Fv * Sv <= fv * Sv * (1 + (1 # 8388608)))%Q as Z2 by nra.
  assert (0 < fv * Sv)%Q as HZ by nra.
  assert (fv * Sv * (1 - (1 # 4503599627370496)) * (1 - (1 # 4503599627370496))
            * 1000000 <= fv * dq)%Q as G1 by nra.
  assert (fv * dq <= fv * Sv * (1 + (1 # 4503599627370496))
                       * (1 + (1 # 4503599627370496)) * 1000000)%Q as G2 by nra.
  set (Z := (fv * Sv)%Q) in *. set (W := (Fv * Sv)%Q) in *.
  set (G := (fv * dq)%Q) in *.
  assert ((1 - (1 # 4194304)) * (pq * 1000000) <= G)%Q as B1.
  { clearbody Z W G. clear - P1 P2 W1 W2 Z1 Z2 HZ G1 G2. lra. }
  assert (G <= (1 + (1 # 4194304)) * (pq * 1000000))%Q as B2.
  { clearbody Z W G. clear - P1 P2 W1 W2 Z1 Z2 HZ G1 G2. lra. }
  subst G. rewrite <- HT in B1, B2.
  apply Qabs_Qle_condition. split.
  - apply (Qmult_lt_0_le_reg_r _ _ dq Hd). lra.
  - apply (Qmult_lt_0_le_reg_r _ _ dq Hd). lra.
Qed.

(** [(float) (pulses / (delta / 1000000.0))] is the number of pulses
    per second, up to the tolerance of a [float]. *)
Lemma tacho_freq_of_accurate (pulses delta : Z) :
  0 <= pulses < 2 ^ 32 -> 1000000 <= delta < 2 ^ 63 ->
  is_finite (tacho_freq_of pulses delta) = true
  /\ close_to float_tolerance (Q_of_float (tacho_freq_of pulses delta))
       (exact_frequency pulses delta).
Proof.
  intros Hp Hdelta.
  destruct (Z.eq_dec pulses 0) as [->|Hne].
  - destruct (tacho_freq_of_number 0 delta Hp Hdelta) as [Hz _].
    rewrite (Hz eq_refl). split; [reflexivity|].
    unfold close_to, exact_frequency, Q_of_float, f32_zero, Qdiv.
    change (inject_Z 0) with 0%Q. rewrite !Qmult_0_l, Qmult_0_r.
    apply Qle_refl.
  - unfold tacho_freq_of.
    destruct (f64_of_Z_pos delta ltac:(lia)) as (md & ed & Ed & Hd1 & Hd2).
    pose proof (f64_of_Z_near delta false md ed ltac:(lia) Ed) as N1.
    assert (20 <= Zdigits2 delta <= 63) as Hdd.
    { split.
      - apply (Zdigits2_ge delta 19); [lia|]. change (2 ^ 19) with 524288. lia.
      - apply Zdigits2_le; lia. }
    rewrite Ed. unfold f64_1000000.
    destruct (f64_div_pos md 8589934592000000 ed (-33))
      as (ms & es & Es & Hs1 & Hs2 & Hs3).
    { change (Zdigits2 (Zpos 8589934592000000)) with 53. lia. }
    { lia. }
    pose proof (f64_div_near md 8589934592000000 ed (-33) false ms es
                  (inject_Z (Zpos md) * 2 ^ ed * (1 # 1000000))%Q) as N2.
    change (Zdigits2 (Zpos 8589934592000000)) with 53 in Hs1, N2.
    specialize (N2 ltac:(lia) Es).
    assert (inject_Z (Zpos 8589934592000000) * 2 ^ (-33) == 1000000)%Q as H6
        by reflexivity.
    specialize (N2 ltac:(rewrite H6; ring)).
    rewrite Es.
    destruct (f64_of_Z_pos pulses ltac:(lia)) as (mp & ep & Ep & Hp1 & Hp2).
    pose proof (f64_of_Z_near pulses false mp ep ltac:(lia) Ep) as N3.
    assert (1 <= Zdigits2 pulses <= 32) as Hdp.
    { split; [pose proof (Zdigits2_pos pulses ltac:(lia)); lia|].
      apply Zdigits2_le; lia. }
    rewrite Ep.
    pose proof (Zdigits2_pos (Zpos ms) ltac:(lia)) as Hms.
    destruct (f64_div_pos mp ms ep es) as (mf & ef & Ef & Hf1 & Hf2 & Hf3);
      [lia | lia |].
    pose proof (value_pos ms es) as HSpos.
    pose proof (f64_div_near mp ms ep es false mf ef
                  (inject_Z (Zpos mp) * 2 ^ ep / (inject_Z (Zpos ms) * 2 ^ es))%Q
                  ltac:(lia) Ef) as N4.
    assert ((inject_Z (Zpos mp) * 2 ^ ep / (inject_Z (Zpos ms) * 2 ^ es))
            * (inject_Z (Zpos ms) * 2 ^ es) == inject_Z (Zpos mp) * 2 ^ ep)%Q as HV4.
    { rewrite Qmult_comm. apply Qmult_div_r.
      intros H0. rewrite H0 in HSpos. discriminate. }
    specialize (N4 HV4).
    rewrite Ef.
    pose proof (Zdigits2_pos (Zpos mf) ltac:(lia)) as Hmf.
    destruct (f32_of_f64_pos mf ef) as (m' & e' & Ef32); [lia | lia |].
    pose proof (f32_of_f64_near mf ef false m' e' ltac:(lia) Ef32) as N5.
    rewrite Ef32. split; [reflexivity|].
    unfold Q_of_float, close_to. rewrite Qmult_1_l.
    change (close_to float_tolerance (inject_Z (Zpos m') * 2 ^ e')
              (exact_frequency pulses delta)).
    assert (0 < inject_Z delta)%Q as Hdq
        by (change 0%Q with (inject_Z 0); rewrite <- Zlt_Qlt; lia).
    assert (0 <= inject_Z pulses)%Q as Hpq
        by (change 0%Q with (inject_Z 0); rewrite <- Zle_Qle; lia).
    apply (five_roundings (inject_Z delta) (inject_Z pulses)
             (inject_Z (Zpos md) * 2 ^ ed)
             (inject_Z (Zpos md) * 2 ^ ed * (1 # 1000000))
             (inject_Z (Zpos ms) * 2 ^ es)
             (inject_Z (Zpos mp) * 2 ^ ep)
             (inject_Z (Zpos mp) * 2 ^ ep / (inject_Z (Zpos ms) * 2 ^ es))
             (inject_Z (Zpos mf) * 2 ^ ef)
             (inject_Z (Zpos m') * 2 ^ e')); try assumption.
    + apply value_pos.
    + ring.
    + unfold exact_frequency.
      assert (~ inject_Z delta == 0)%Q as Hd0
          by (intros H0; rewrite H0 in Hdq; discriminate).
      field. exact Hd0.
Qed.

(** ** Loops over arrays *)

Section LoopLemmas.
Context {A : Type}.

Lemma for_loop_ext {St : Type} (f g : nat -> St -> option St) n s :
  (forall i x, (i < n)%nat -> f i x = g i x) ->
  for_loop n f s = for_loop n g s.
Proof.
  induction n as [|n IH]; intros Hfg; [reflexivity|].
  cbn. rewrite IH by (intros; apply Hfg; lia).
  destruct (for_loop n g s) as [s'|]; cbn; [apply Hfg; lia | reflexivity].
Qed.

(** A loop that stores [g i] in slot [i], for [i] below [n]. *)
Lemma for_loop_fill (g : nat -> option A) n (a : list A) :
  (n <= length a)%nat ->
  (forall i, (i < n)%nat -> is_Some (g i)) ->
  exists a',
    for_loop n (fun i s => v ← g i; arr_set s i v) a = Some a'
    /\ length a' = length a
    /\ (forall i, (i < n)%nat -> a' !! i = g i)
    /\ (forall i, (n <= i)%nat -> a' !! i = a !! i).
Proof.
  induction n as [|n IH]; intros Hlen Hg.
  - exists a. split; [reflexivity|]. split; [reflexivity|].
    split; intros; [lia | reflexivity].
  - cbn in Hlen. destruct IH as (a1 & Hrun & Hl & Hlo & Hhi);
      [lia | intros; apply Hg; lia |].
    destruct (Hg n) as [v Hv]; [lia|].
    exists (<[n := v]> a1). cbn. rewrite Hrun. cbn. rewrite Hv. cbn.
    unfold arr_set. rewrite bool_decide_true by lia.
    split; [reflexivity|]. split; [rewrite length_insert; exact Hl|]. split.
    + intros i Hi. destruct (decide (i = n)) as [->|Hne].
      * rewrite list_lookup_insert_eq by lia. symmetry; exact Hv.
      * rewrite list_lookup_insert_ne by lia. apply Hlo. lia.
    + intros i Hi. rewrite list_lookup_insert_ne by lia. apply Hhi. lia.
Qed.

End LoopLemmas.

(** ** The frequency sampler *)

Lemma snapshot_loop n (cs : list Z) :
  length cs = n ->
  for_loop n (fun i s => v ← cs !! i; arr_set s i v) (replicate n 0) = Some cs.
Proof.
  intros Hn.
  destruct (for_loop_fill (fun i => cs !! i) n (replicate n 0))
    as (a' & Hrun & Hl & Hlo & _).
  - rewrite length_replicate. lia.
  - intros i Hi. apply lookup_lt_is_Some. lia.
  - rewrite Hrun. f_equal. apply list_eq. intros i.
    destruct (decide (i < n)%nat) as [Hi|Hi]; [apply Hlo; exact Hi|].
    rewrite length_replicate in Hl.
    rewrite (lookup_ge_None_2 a') by lia. rewrite (lookup_ge_None_2 cs) by lia.
    reflexivity.
Qed.

Lemma copy_loop n (cs ls : list Z) :
  length cs = n -> length ls = n ->
  for_loop n (fun i s => c ← cs !! i; arr_set s i c) ls = Some cs.
Proof.
  intros Hc Hn.
  destruct (for_loop_fill (fun i => cs !! i) n ls) as (a' & Hrun & Hl & Hlo & _).
  - lia.
  - intros i Hi. apply lookup_lt_is_Some. lia.
  - rewrite Hrun. f_equal. apply list_eq. intros i.
    destruct (decide (i < n)%nat) as [Hi|Hi]; [apply Hlo; exact Hi|].
    rewrite (lookup_ge_None_2 a') by lia. rewrite (lookup_ge_None_2 cs) by lia.
    reflexivity.
Qed.

Lemma freq_loop n delta (cs ls : list Z) (fr : list float32) :
  length cs = n -> length ls = n -> length fr = n ->
  exists fr',
    for_loop n
      (fun i s =>
         c ← cs !! i; l ← ls !! i;
         let pulses := uint_sub c l in arr_set s i (tacho_freq_of pulses delta)) fr
    = Some fr'
    /\ length fr' = n
    /\ forall i c l, cs !! i = Some c -> ls !! i = Some l ->
         fr' !! i = Some (tacho_freq_of (uint_sub c l) delta).
Proof.
  intros Hc Hl Hf.
  set (g := fun i : nat =>
              c ← cs !! i; l ← ls !! i; Some (tacho_freq_of (uint_sub c l) delta)).
  destruct (for_loop_fill g n fr) as (fr' & Hrun & Hlen & Hlo & _).
  - lia.
  - intros i Hi. unfold g.
    destruct (lookup_lt_is_Some_2 cs i) as [c ->]; [lia|].
    destruct (lookup_lt_is_Some_2 ls i) as [l ->]; [lia|]. cbn. eauto.
  - exists fr'. split; [|split].
    + rewrite <- Hrun. apply for_loop_ext. intros i x _. unfold g.
      destruct (cs !! i); cbn; [|reflexivity].
      destruct (ls !! i); reflexivity.
    + lia.
    + intros i c l Hci Hli.
      assert (i < n)%nat as Hi by (apply lookup_lt_Some in Hci; lia).
      rewrite (Hlo i Hi). unfold g. rewrite Hci, Hli. reflexivity.
Qed.

(** An accepted sample: one second or more since the last one. *)
Lemma update_tacho_accepted (n : nat) (read_time : Z) (st : tacho_state) :
  tacho_wf n st ->
  let delta := absolute_time_diff_us (fan_tacho_last_read st) read_time in
  1000000 <= delta ->
  exists st',
    update_tacho_input_freq n read_time st = Some st'
    /\ (forall i c l,
          fan_tacho_counters st !! i = Some c ->
          fan_tacho_counters_last st !! i = Some l ->
          fan_tacho_freq st' !! i = Some (tacho_freq_of (uint_sub c l) delta))
    /\ length (fan_tacho_freq st') = n
    /\ fan_tacho_counters_last st' = fan_tacho_counters st
    /\ fan_tacho_last_read st' = read_time
    /\ fan_tacho_counters st' = fan_tacho_counters st
    /\ gpio_fan_tacho_map st' = gpio_fan_tacho_map st.
Proof.
  intros (Hc & Hl & Hf) delta Hge. unfold update_tacho_input_freq.
  rewrite (snapshot_loop n _ Hc).
  destruct (freq_loop n delta _ _ _ Hc Hl Hf) as (fr' & Hrun & Hlen & Hfr).
  change (Some (fan_tacho_counters st) ≫= ?f) with (f (fan_tacho_counters st)).
  cbv beta zeta. fold delta.
  apply Z.ltb_ge in Hge. rewrite Hge.
  cbv zeta in Hrun. rewrite Hrun.
  change (Some fr' ≫= ?f) with (f fr'). cbv beta.
  rewrite (copy_loop n _ _ Hc Hl).
  eexists. split; [reflexivity|]. cbn. repeat split; auto.
Qed.



(** ** The pulse counter *)

Lemma land_31_bounds (gpio : Z) : 0 <= Z.land gpio 31 < 32.
Proof.
  change 31 with (Z.ones 5). rewrite Z.land_ones by lia.
  apply Z.mod_pos_bound. lia.
Qed.

Lemma pin_fan_lookup (st : tacho_state) (gpio : Z) :
  map_wf st ->
  arr_get (gpio_fan_tacho_map st) (Z.land gpio 31) = Some (pin_fan st gpio)
  /\ 0 <= pin_fan st gpio <= Z.of_nat (length (fan_tacho_counters st)).
Proof.
  intros [Hlen Hall]. pose proof (land_31_bounds gpio) as Hb.
  unfold pin_fan, arr_get. rewrite bool_decide_true by lia.
  destruct (lookup_lt_is_Some_2 (gpio_fan_tacho_map st) (Z.to_nat (Z.land gpio 31)))
    as [e He]; [lia|].
  rewrite He. cbn. split; [reflexivity|].
  rewrite Forall_lookup in Hall. exact (Hall _ _ He).
Qed.

Lemma insert_as_alter {A} (f : A -> A) (l : list A) (k : nat) (x : A) :
  l !! k = Some x -> <[k := f x]> l = alter f k l.
Proof.
  intros Hk. apply list_eq. intros j. destruct (decide (j = k)) as [->|Hne].
  - rewrite list_lookup_alter_eq, Hk.
    apply list_lookup_insert_eq. eapply lookup_lt_Some; eassumption.
  - rewrite list_lookup_alter_ne by congruence.
    apply list_lookup_insert_ne. congruence.
Qed.

(** What one interrupt does, in closed form. *)
Lemma callback_closed_form (st : tacho_state) (gpio events : Z) :
  map_wf st ->
  fan_tacho_read_callback gpio events st =
  Some (if 0 <? pin_fan st gpio then
          set_counters st
            (alter (fun c => uint_wrap (c + 1)) (Z.to_nat (pin_fan st gpio - 1))
                   (fan_tacho_counters st))
        else st).
Proof.
  intros Hwf. destruct (pin_fan_lookup st gpio Hwf) as [Hget Hb].
  unfold fan_tacho_read_callback. rewrite Hget. cbn.
  destruct (0 <? pin_fan st gpio) eqn:Hpos; [|reflexivity].
  apply Z.ltb_lt in Hpos.
  destruct (lookup_lt_is_Some_2 (fan_tacho_counters st)
              (Z.to_nat (pin_fan st gpio - 1))) as [c Hc]; [lia|].
  unfold arr_get. rewrite bool_decide_true by lia. rewrite Hc. cbn.
  unfold arr_set. rewrite bool_decide_true by lia. cbn.
  rewrite (insert_as_alter (fun c => uint_wrap (c + 1)) _ _ c Hc). reflexivity.
Qed.

Lemma callback_keeps_wf (st st' : tacho_state) (gpio events : Z) :
  map_wf st -> fan_tacho_read_callback gpio events st = Some st' ->
  map_wf st' /\ gpio_fan_tacho_map st' = gpio_fan_tacho_map st.
Proof.
  intros Hwf Hrun. rewrite (callback_closed_form _ _ _ Hwf) in Hrun.
  injection Hrun as <-. destruct (0 <? pin_fan st gpio); [|auto].
  destruct Hwf as [Hlen Hall]. unfold map_wf. cbn.
  rewrite length_alter. auto.
Qed.

(** *** [setup_tacho_inputs] builds a well-formed map *)

Lemma setup_loop_inv (pins : list Z) (st0 : tacho_state) (k : nat) (s : tacho_state)
    (m0 : list Z) :
  m0 = replicate 32 0 ->
  for_loop k (setup_step pins)
    (mkTacho m0 (fan_tacho_counters st0)
       (fan_tacho_counters_last st0) (fan_tacho_last_read st0)
       (fan_tacho_freq st0)) = Some s ->
  setup_inv pins st0 k s.
Proof.
  intros Hm0. revert s. induction k as [|k IH]; intros s Hrun.
  - injection Hrun as <-. unfold setup_inv.
    cbn [gpio_fan_tacho_map fan_tacho_counters]. subst m0.
    rewrite length_replicate. repeat split; [lia | |].
    + apply Forall_replicate. lia.
    + intros j _ Hj. apply lookup_replicate_2. lia.
  - cbn in Hrun. destruct (for_loop k _ _) as [s1|] eqn:Hk; [|discriminate].
    cbn in Hrun. destruct (IH s1 eq_refl) as (Hm & Hc & Hkc & Hall & Hz).
    unfold setup_step in Hrun.
    destruct (pins !! k) as [pin|] eqn:Hpin; [|discriminate]. cbn in Hrun.
    destruct (bool_decide (0 <= pin)) eqn:Hnn; [|discriminate].
    apply bool_decide_eq_true in Hnn.
    unfold arr_set in Hrun.
    destruct (bool_decide (Z.to_nat pin < _)%nat) eqn:Hp; [|discriminate].
    apply bool_decide_eq_true in Hp. cbn in Hrun.
    destruct (bool_decide (k < length (fan_tacho_counters s1))%nat) eqn:Hkk;
      [|discriminate].
    apply bool_decide_eq_true in Hkk. cbn in Hrun.
    destruct (bool_decide (k < length (fan_tacho_counters_last s1))%nat);
      [|discriminate].
    cbn in Hrun.
    destruct (bool_decide (k < length (fan_tacho_freq s1))%nat); [|discriminate].
    cbn in Hrun. injection Hrun as <-. unfold setup_inv. cbn.
    rewrite !length_insert. repeat split; try lia.
    + apply Forall_insert.
      * eapply Forall_impl; [exact Hall|]. cbn. intros; lia.
      * unfold uint8_wrap.
        pose proof (Z.mod_pos_bound (1 + Z.of_nat k) (2 ^ 8)).
        pose proof (Z.mod_le (1 + Z.of_nat k) (2 ^ 8)). lia.
    + intros j Hj Hj32.
      rewrite list_lookup_insert_ne by (apply (Hj k pin); [lia | exact Hpin]).
      apply Hz; [|exact Hj32]. intros i p Hi. apply Hj. lia.
Qed.

Lemma setup_tacho_inputs_map (n : nat) (pins : list Z) (now : Z)
    (st0 st : tacho_state) :
  setup_tacho_inputs n pins now st0 = Some st ->
  map_wf st
  /\ forall gpio, Z.land gpio 31 ∉ pins -> pin_fan st gpio = 0.
Proof.
  unfold setup_tacho_inputs. intros Hrun.
  destruct (for_loop n _ _) as [s1|] eqn:Hloop; [|discriminate].
  cbn in Hrun. injection Hrun as <-.
  destruct (setup_loop_inv _ _ _ _ _ eq_refl Hloop) as (Hm & Hc & Hkc & Hall & Hz).
  split.
  - split; cbn; [exact Hm|].
    eapply Forall_impl; [exact Hall|]. cbn. intros; lia.
  - intros gpio Hnot. pose proof (land_31_bounds gpio) as Hb.
    unfold pin_fan, arr_get. cbn. rewrite bool_decide_true by lia.
    rewrite Hz; [reflexivity | | lia].
    intros i pin Hi Hpin Heq. apply Hnot.
    assert (0 <= pin) as Hnn.
    { clear -Hloop Hi Hpin. revert s1 Hloop. induction n as [|n IH]; [lia|].
      intros s1 Hloop. cbn in Hloop.
      destruct (for_loop n _ _) as [s2|] eqn:Hk; [|discriminate].
      destruct (decide (i = n)) as [->|Hne].
      - cbn in Hloop. unfold setup_step in Hloop. rewrite Hpin in Hloop.
        cbn in Hloop. destruct (bool_decide (0 <= pin)) eqn:Hnn; [|discriminate].
        apply bool_decide_eq_true in Hnn. exact Hnn.
      - apply (IH ltac:(lia) s2 eq_refl). }
    replace (Z.land gpio 31) with pin by lia.
    apply list_elem_of_lookup. eauto.
Qed.

(** C3, as the code has it: the edge handler, for every pin value,
    returns; it changes nothing but the pulse counters; it reads the
    map entry of the pin number reduced to its low five bits
    ([gpio & 0x1f]), so that a pin number acts as the number between 0
    and 31 with the same low five bits.  When that entry is 0 the state
    is left as it was; otherwise exactly one counter, that of fan
    [entry - 1], goes up by one (modulo [2^32]) and every other counter
    is unchanged.  After [setup_tacho_inputs] a pin is dropped when its
    low five bits are those of no pin of the table. *)
Theorem fan_tacho_read_callback_spec (st : tacho_state) (gpio events : Z) :
  map_wf st ->
  (exists st',
    fan_tacho_read_callback gpio events st = Some st'
    /\ fan_tacho_freq st' = fan_tacho_freq st
    /\ fan_tacho_counters_last st' = fan_tacho_counters_last st
    /\ fan_tacho_last_read st' = fan_tacho_last_read st
    /\ gpio_fan_tacho_map st' = gpio_fan_tacho_map st
    /\ (pin_fan st gpio = 0 -> st' = st)
    /\ (pin_fan st gpio <> 0 ->
        exists c,
          fan_tacho_counters st !! Z.to_nat (pin_fan st gpio - 1) = Some c
          /\ fan_tacho_counters st' !! Z.to_nat (pin_fan st gpio - 1)
             = Some (uint_wrap (c + 1))
          /\ forall j, j <> Z.to_nat (pin_fan st gpio - 1) ->
               fan_tacho_counters st' !! j = fan_tacho_counters st !! j)
    /\ (forall n pins now st0,
          setup_tacho_inputs n pins now st0 = Some st ->
          Z.land gpio 31 ∉ pins -> st' = st))
  /\ 0 <= Z.land gpio 31 < 32
  /\ pin_fan st gpio = pin_fan st (Z.land gpio 31)
  /\ fan_tacho_read_callback gpio events st
     = fan_tacho_read_callback (Z.land gpio 31) events st.
Proof.
  intros Hwf.
  assert (Z.land (Z.land gpio 31) 31 = Z.land gpio 31) as Hidem
      by (rewrite <- Z.land_assoc, Z.land_diag; reflexivity).
  split; [|split; [apply land_31_bounds|split]].
  2:{ unfold pin_fan. rewrite Hidem. reflexivity. }
  2:{ unfold fan_tacho_read_callback. rewrite Hidem. reflexivity. }
  destruct (pin_fan_lookup st gpio Hwf) as [_ Hb].
  eexists. split; [apply (callback_closed_form _ _ _ Hwf)|].
  destruct (0 <? pin_fan st gpio) eqn:Hpos.
  - apply Z.ltb_lt in Hpos. cbn. repeat split; try reflexivity.
    + intros H0. lia.
    + intros _.
      destruct (lookup_lt_is_Some_2 (fan_tacho_counters st)
                  (Z.to_nat (pin_fan st gpio - 1))) as [c Hc]; [lia|].
      exists c. split; [exact Hc|]. split.
      * rewrite list_lookup_alter_eq, Hc. reflexivity.
      * intros j Hj. apply list_lookup_alter_ne. congruence.
    + intros n pins now st0 Hsetup Hnot.
      destruct (setup_tacho_inputs_map _ _ _ _ _ Hsetup) as [_ Hz].
      specialize (Hz gpio Hnot). lia.
  - apply Z.ltb_ge in Hpos. repeat split; try reflexivity. intros Hne. lia.
Qed.

Lemma fan_tacho_read_callback_spec_witness :
  let st := mkTacho (<[2%nat := 1]> (replicate 32 0)) [4294967295; 5] [0; 0] 0
                    [f32_zero; f32_zero] in
  exists st',
    fan_tacho_read_callback 2 0 st = Some st'
    /\ fan_tacho_counters st' !! 0%nat = Some 0.
Proof.
  intros st.
  destruct (fan_tacho_read_callback_spec st 2 0)
    as [(st' & Hrun & _ & _ & _ & _ & _ & Hinc & _) _].
  - split; [reflexivity|]. vm_compute. repeat constructor; discriminate.
  - exists st'. split; [exact Hrun|].
    destruct Hinc as (c & Hc & Hc' & _); [vm_compute; discriminate|].
    vm_compute in Hc. injection Hc as <-. exact Hc'.
Defined.

(** C3 fails as stated: pin 34 is bound to no channel (the pins of the
    table are 2 and 5), and an edge on it is not dropped: it raises
    the counter of the channel on pin 2, since 34 and 2 have the same
    low five bits. *)
Lemma fan_tacho_read_callback_counterexample :
  let st0 := mkTacho (replicate 32 0) [0; 0] [0; 0] 0 [f32_zero; f32_zero] in
  let st := mkTacho (<[5%nat := 2]> (<[2%nat := 1]> (replicate 32 0)))
                    [0; 0] [0; 0] 9 [f32_zero; f32_zero] in
  setup_tacho_inputs 2 [2; 5] 9 st0 = Some st
  /\ 34 <> 2 /\ 34 <> 5
  /\ fan_tacho_read_callback 34 0 st
     = Some (mkTacho (gpio_fan_tacho_map st) [1; 0] [0; 0] 9 [f32_zero; f32_zero])
  /\ fan_tacho_counters st = [0; 0].
Proof. vm_compute. repeat split; discriminate. Qed.

(** *** Counting pulses across a window *)

Lemma count_pulses_map (st st' : tacho_state) (i : nat) (gpios : list Z) :
  gpio_fan_tacho_map st' = gpio_fan_tacho_map st ->
  count_pulses st' i gpios = count_pulses st i gpios.
Proof.
  intros Hmap. induction gpios as [|g gs IH]; [reflexivity|].
  cbn. unfold pin_fan. rewrite Hmap, IH. reflexivity.
Qed.

Lemma count_pulses_nonneg (st : tacho_state) (i : nat) (gpios : list Z) :
  0 <= count_pulses st i gpios.
Proof.
  induction gpios as [|g gs IH]; cbn; [lia|].
  destruct (pin_fan st g =? Z.of_nat i + 1); lia.
Qed.

Lemma uint_wrap_shift (z : Z) : exists k, uint_wrap z = z + k * 2 ^ 32.
Proof.
  exists (- (z / 2 ^ 32)). unfold uint_wrap.
  pose proof (Z.div_mod z (2 ^ 32)). lia.
Qed.

(** After the interrupts [gpios], counter [i] has advanced by the number
    of edges on its pin, modulo [2^32]; nothing else has changed. *)
Lemma run_callbacks_counts (gpios : list Z) :
  forall st : tacho_state,
    map_wf st ->
    exists st',
      run_callbacks gpios st = Some st'
      /\ map_wf st'
      /\ gpio_fan_tacho_map st' = gpio_fan_tacho_map st
      /\ fan_tacho_counters_last st' = fan_tacho_counters_last st
      /\ fan_tacho_last_read st' = fan_tacho_last_read st
      /\ fan_tacho_freq st' = fan_tacho_freq st
      /\ length (fan_tacho_counters st') = length (fan_tacho_counters st)
      /\ forall i c, fan_tacho_counters st !! i = Some c ->
           exists cur k,
             fan_tacho_counters st' !! i = Some cur
             /\ cur = c + count_pulses st i gpios + k * 2 ^ 32.
Proof.
  induction gpios as [|g gs IH]; intros st Hwf.
  - exists st. cbn. do 7 (split; [tauto|]).
    intros i c Hc. exists c, 0. split; [exact Hc | lia].
  - cbn [run_callbacks].
    pose proof (callback_closed_form st g 0 Hwf) as Hstep.
    destruct (callback_keeps_wf _ _ _ _ Hwf Hstep) as [Hwf1 Hmap1].
    rewrite Hstep.
    set (st1 := if 0 <? pin_fan st g then _ else st) in *.
    destruct (IH st1 Hwf1) as (st' & Hrun & Hwf' & Hmap & Hlast & Hread & Hfreq & Hlen & Hcnt).
    exists st'. cbn. split; [exact Hrun|]. split; [exact Hwf'|].
    assert (fan_tacho_counters_last st1 = fan_tacho_counters_last st
            /\ fan_tacho_last_read st1 = fan_tacho_last_read st
            /\ fan_tacho_freq st1 = fan_tacho_freq st
            /\ length (fan_tacho_counters st1) = length (fan_tacho_counters st))
      as (E1 & E2 & E3 & E4).
    { subst st1. destruct (0 <? pin_fan st g); cbn; rewrite ?length_alter; auto. }
    do 5 (split; [congruence|]).
    intros i c Hc.
    assert (exists c1 k1, fan_tacho_counters st1 !! i = Some c1
              /\ c1 = c + (if pin_fan st g =? Z.of_nat i + 1 then 1 else 0)
                      + k1 * 2 ^ 32) as (c1 & k1 & Hc1 & Ek1).
    { subst st1. destruct (0 <? pin_fan st g) eqn:Hpos.
      - apply Z.ltb_lt in Hpos. cbn.
        destruct (pin_fan st g =? Z.of_nat i + 1) eqn:Heq.
        + apply Z.eqb_eq in Heq.
          replace (Z.to_nat (pin_fan st g - 1)) with i by lia.
          rewrite list_lookup_alter_eq, Hc. cbn.
          destruct (uint_wrap_shift (c + 1)) as [k Hk].
          exists (uint_wrap (c + 1)), k. split; [reflexivity | lia].
        + apply Z.eqb_neq in Heq.
          rewrite list_lookup_alter_ne by lia.
          exists c, 0. split; [exact Hc | lia].
      - apply Z.ltb_ge in Hpos.
        destruct (pin_fan st g =? Z.of_nat i + 1) eqn:Heq;
          [apply Z.eqb_eq in Heq; lia|].
        exists c, 0. split; [exact Hc | lia]. }
    destruct (Hcnt i c1 Hc1) as (cur & k & Hcur & Ek).
    rewrite (count_pulses_map st st1 i gs Hmap1) in Ek.
    exists cur, (k + k1). split; [exact Hcur | lia].
Qed.

(** C2: when channel [i] has had [count_pulses st i gpios] edges since
    the counter stood at the baseline [base], fewer than [2^32] of
    them, the unsigned subtraction [current - base] of the sampler is
    exactly that number, whether or not the counter has wrapped; and it
    is the number of pulses the next accepted sample divides by the
    elapsed time. *)
Theorem pulses_in_window_wraparound (n : nat) (st : tacho_state) (gpios : list Z)
    (i : nat) (base read_time : Z) :
  map_wf st -> tacho_wf n st ->
  fan_tacho_counters st !! i = Some base ->
  fan_tacho_counters_last st !! i = Some base ->
  count_pulses st i gpios < 2 ^ 32 ->
  1000000 <= absolute_time_diff_us (fan_tacho_last_read st) read_time ->
  exists st1 st2 cur,
    run_callbacks gpios st = Some st1
    /\ fan_tacho_counters st1 !! i = Some cur
    /\ uint_sub cur base = count_pulses st i gpios
    /\ update_tacho_input_freq n read_time st1 = Some st2
    /\ fan_tacho_freq st2 !! i
       = Some (tacho_freq_of (count_pulses st i gpios)
                 (absolute_time_diff_us (fan_tacho_last_read st) read_time)).
Proof.
  intros Hwf (Hc & Hl & Hf) Hcnt Hbase Hlt Hdelta.
  destruct (run_callbacks_counts gpios st Hwf)
    as (st1 & Hrun & _ & _ & Hlast & Hread & Hfreq & Hlen & Hadv).
  destruct (Hadv i base Hcnt) as (cur & k & Hcur & Ek).
  assert (uint_sub cur base = count_pulses st i gpios) as Hsub.
  { unfold uint_sub, uint_wrap.
    replace (cur - base) with (count_pulses st i gpios + k * 2 ^ 32) by lia.
    rewrite Z.mod_add by lia. apply Z.mod_small.
    pose proof (count_pulses_nonneg st i gpios). lia. }
  assert (tacho_wf n st1) as Hwf1 by (unfold tacho_wf; rewrite Hlast, Hfreq; lia).
  pose proof (update_tacho_accepted n read_time st1 Hwf1) as Hupd.
  rewrite Hread in Hupd. destruct (Hupd Hdelta) as (st2 & Hrun2 & Hfr & _).
  exists st1, st2, cur. repeat split; try assumption.
  rewrite <- Hsub. apply Hfr; [exact Hcur | rewrite Hlast; exact Hbase].
Qed.

Lemma pulses_in_window_wraparound_witness :
  let st := mkTacho (<[2%nat := 1]> (replicate 32 0)) [4294967294; 5]
                    [4294967294; 5] 0 [f32_zero; f32_zero] in
  exists st1 st2,
    run_callbacks [2; 2; 7; 2; 34] st = Some st1
    /\ fan_tacho_counters st1 !! 0%nat = Some 2
    /\ uint_sub 2 4294967294 = 4
    /\ update_tacho_input_freq 2 1000000 st1 = Some st2
    /\ fan_tacho_freq st2 !! 0%nat = Some (tacho_freq_of 4 1000000).
Proof.
  intros st.
  destruct (pulses_in_window_wraparound 2 st [2; 2; 7; 2; 34] 0 4294967294 1000000)
    as (st1 & st2 & cur & Hrun & Hcur & Hsub & Hupd & Hfr).
  - split; [reflexivity|]. vm_compute. repeat constructor; discriminate.
  - repeat split.
  - reflexivity.
  - reflexivity.
  - vm_compute. reflexivity.
  - vm_compute. discriminate.
  - exists st1, st2.
    assert (st1 = mkTacho (<[2%nat := 1]> (replicate 32 0)) [2; 5]
                          [4294967294; 5] 0 [f32_zero; f32_zero]) as E.
    { vm_compute in Hrun. injection Hrun as <-. reflexivity. }
    rewrite E in Hcur. vm_compute in Hcur. injection Hcur as <-.
    split; [exact Hrun|]. split; [rewrite E; reflexivity|].
    split; [reflexivity|]. split; [exact Hupd | exact Hfr].
Defined.

(** ** The filter registry *)

Lemma tolower_zero (c : ascii) : tolower c = 0 -> c = zero.
Proof.
  unfold tolower. intros H.
  assert (N_of_ascii c = 0%N) as Hn.
  { destruct ((65 <=? Z.of_N (N_of_ascii c)) && (Z.of_N (N_of_ascii c) <=? 90)) eqn:E.
    - apply andb_true_iff in E. destruct E as [E1 E2].
      apply Z.leb_le in E1. lia.
    - lia. }
  rewrite <- (ascii_N_embedding c), Hn. reflexivity.
Qed.

Lemma strcasecmp_zero (s1 s2 : string) :
  no_nul s1 = true -> no_nul s2 = true ->
  (strcasecmp s1 s2 = 0 <-> lower s1 = lower s2).
Proof.
  revert s2. induction s1 as [|c1 r1 IH]; intros [|c2 r2] H1 H2; cbn in *.
  - tauto.
  - apply andb_true_iff in H2. destruct H2 as [Hc _].
    split; [|discriminate]. intros H. exfalso.
    assert (tolower c2 = 0) as Hz by lia. apply tolower_zero in Hz. subst c2.
    discriminate.
  - apply andb_true_iff in H1. destruct H1 as [Hc _].
    split; [|discriminate]. intros H. exfalso.
    apply tolower_zero in H. subst c1. discriminate.
  - apply andb_true_iff in H1. destruct H1 as [_ H1].
    apply andb_true_iff in H2. destruct H2 as [_ H2].
    destruct (tolower c1 - tolower c2 =? 0) eqn:E.
    + apply Z.eqb_eq in E. rewrite (IH r2 H1 H2).
      split; [intros ->; f_equal; lia | intros [= _ H]; exact H].
    + apply Z.eqb_neq in E. split; [lia | intros [= H _]; lia].
Qed.

(** C6: name resolution compares the text, letter case apart, with the
    names of the table: a text equal to "lossypeak" gives that filter's
    selector, and every other text, "none" and all unknown names alike,
    gives the selector of "none"; the call always returns.  Applying the
    "none" selector returns the input, and the context, unchanged. *)
Theorem str2pwm_filter_spec (str_to_float : string -> option float32) (s : string) :
  no_nul s = true ->
  (lower s = lower "lossypeak" ->
     str2pwm_filter str_to_float s = Some FILTER_LOSSYPEAK)
  /\ (lower s = lower "none" ->
     str2pwm_filter str_to_float s = Some FILTER_NONE)
  /\ (lower s <> lower "lossypeak" ->
     str2pwm_filter str_to_float s = Some FILTER_NONE)
  /\ (forall t_now ctx input,
        filter str_to_float FILTER_NONE t_now ctx input = Some (ctx, input)).
Proof.
  intros Hs.
  pose proof (strcasecmp_zero s "none" Hs eq_refl) as Hnone.
  pose proof (strcasecmp_zero s "lossypeak" Hs eq_refl) as Hlp.
  unfold str2pwm_filter. cbn [filters str2pwm_filter_from name].
  destruct (Z.eqb_spec (strcasecmp s "none") 0) as [E0|E0];
    destruct (Z.eqb_spec (strcasecmp s "lossypeak") 0) as [E1|E1].
  - apply Hnone in E0. apply Hlp in E1. rewrite E0 in E1. discriminate.
  - repeat split; try reflexivity. intros H. apply Hlp in H. contradiction.
  - repeat split; try reflexivity.
    + intros H. apply Hnone in H. contradiction.
    + intros H. apply Hlp in E1. contradiction.
  - repeat split; try reflexivity. intros H. apply Hlp in H. contradiction.
Qed.

Lemma str2pwm_filter_spec_witness :
  str2pwm_filter (fun _ => None) "LossyPeak" = Some FILTER_LOSSYPEAK
  /\ str2pwm_filter (fun _ => None) "median" = Some FILTER_NONE.
Proof.
  split.
  - apply (str2pwm_filter_spec (fun _ => None) "LossyPeak"); reflexivity.
  - apply (str2pwm_filter_spec (fun _ => None) "median");
      [reflexivity | vm_compute; discriminate].
Defined.

Lemma pwm_filter2str_outside (str_to_float : string -> option float32) (sel : Z) :
  sel < 0 \/ 1 < sel -> pwm_filter2str str_to_float sel = Some "none"%string.
Proof.
  intros Hsel. unfold pwm_filter2str. cbn.
  destruct (Z.eqb_spec sel 0); [lia|]. destruct (Z.eqb_spec sel (0 + 1)); [lia|].
  reflexivity.
Qed.

Lemma filters_outside (str_to_float : string -> option float32) (sel : Z) :
  sel < 0 \/ 2 < sel -> arr_get (filters str_to_float) sel = None.
Proof.
  intros Hsel. unfold arr_get. destruct (bool_decide (0 <= sel)) eqn:E; [|reflexivity].
  apply bool_decide_eq_true in E. apply lookup_ge_None_2. cbn. lia.
Qed.

(** C5, as the code has it: [pwm_filter2str] gives "none" for every
    selector outside the known variants.  The three dispatchers index
    the table with the selector unchecked: for the selector of the
    terminating entry (one past the last variant) they behave as for
    "none" (input and context returned unchanged, null from parsing and
    from serializing); for every other selector outside the known
    variants they read outside the table and yield no result. *)
Theorem dispatch_outside_known_variants (str_to_float : string -> option float32)
    (sel : Z) :
  sel < FILTER_NONE \/ FILTER_LOSSYPEAK < sel ->
  pwm_filter2str str_to_float sel = pwm_filter2str str_to_float FILTER_NONE
  /\ pwm_filter2str str_to_float sel = Some "none"%string
  /\ (sel = 2 ->
      (forall t_now ctx input,
         filter str_to_float sel t_now ctx input = Some (ctx, input)
         /\ filter str_to_float sel t_now ctx input
            = filter str_to_float FILTER_NONE t_now ctx input)
      /\ (forall now args h,
            filter_parse_args str_to_float sel now args h = Some (None, h)
            /\ filter_parse_args str_to_float sel now args h
               = filter_parse_args str_to_float FILTER_NONE now args h)
      /\ (forall ctx h,
            filter_print_args str_to_float sel ctx h = Some (None, h)
            /\ filter_print_args str_to_float sel ctx h
               = filter_print_args str_to_float FILTER_NONE ctx h))
  /\ (sel <> 2 ->
      (forall t_now ctx input, filter str_to_float sel t_now ctx input = None)
      /\ (forall now args h, filter_parse_args str_to_float sel now args h = None)
      /\ (forall ctx h, filter_print_args str_to_float sel ctx h = None)).
Proof.
  unfold FILTER_NONE, FILTER_LOSSYPEAK. intros Hsel.
  split; [rewrite pwm_filter2str_outside by exact Hsel; reflexivity|].
  split; [apply pwm_filter2str_outside; exact Hsel|]. split.
  - intros ->. repeat split.
  - intros Hne. unfold filter, filter_parse_args, filter_print_args.
    rewrite filters_outside by lia. repeat split.
Qed.

Lemma dispatch_outside_known_variants_witness :
  pwm_filter2str (fun _ => None) 7 = Some "none"%string
  /\ filter (fun _ => None) 2 0 None (f32_of_Z 5) = Some (None, f32_of_Z 5).
Proof.
  split.
  - apply (dispatch_outside_known_variants (fun _ => None) 7). right. reflexivity.
  - destruct (dispatch_outside_known_variants (fun _ => None) 2) as (_ & _ & H & _).
    + right. reflexivity.
    + destruct (H eq_refl) as [Hf _]. apply Hf.
Defined.

(** C5 fails as stated: selector 3 is outside the known variants, and
    [filter] does not pass the input through as it does for "none": it
    reads the table past its last entry. *)
Lemma dispatch_out_of_range_counterexample :
  filter (fun _ => None) 3 0 None (f32_of_Z 5) = None
  /\ filter (fun _ => None) FILTER_NONE 0 None (f32_of_Z 5) = Some (None, f32_of_Z 5)
  /\ filter_parse_args (fun _ => None) (-1) 0 (Some "2.0,0.5"%string) (mkHeap 0 1) = None
  /\ filter_print_args (fun _ => None) 3 None (mkHeap 0 1) = None.
Proof. repeat split. Qed.

(** ** Creating a lossy-peak context *)

Lemma split_commas_cons (s : string) : exists p ps, split_commas s = p :: ps.
Proof.
  destruct s as [|c r]; cbn; [eauto|].
  destruct (Ascii.eqb c ","); [eauto|].
  destruct (split_commas r); eauto.
Qed.

Lemma is_delim_comma (c : ascii) : is_delim "," c = Ascii.eqb c ",".
Proof. cbn. destruct (Ascii.eqb c ","); reflexivity. Qed.

Lemma cut_token_fields (s : string) :
  exists ps,
    split_commas s = fst (cut_token "," s) :: ps
    /\ List.filter nonempty ps = comma_fields (snd (cut_token "," s)).
Proof.
  induction s as [|c r IH].
  - exists []. split; reflexivity.
  - cbn [cut_token split_commas]. rewrite is_delim_comma.
    destruct (Ascii.eqb c ",") eqn:Ec.
    + exists (split_commas r). split; reflexivity.
    + destruct IH as (ps & Hsp & Hf). rewrite Hsp.
      destruct (cut_token "," r) as [tok rest]. exists ps. split; [reflexivity|].
      exact Hf.
Qed.

(** [strtok_r] hands out the comma-separated fields one after the other. *)
Lemma strtok_r_fields (s : string) :
  match comma_fields s with
  | [] => strtok_r s "," = None
  | f :: fs =>
      exists rest, strtok_r s "," = Some (f, rest) /\ comma_fields rest = fs
  end.
Proof.
  induction s as [|c r IH]; [reflexivity|].
  unfold strtok_r, comma_fields in *. cbn [skip_delims split_commas].
  rewrite is_delim_comma. destruct (Ascii.eqb c ",") eqn:Ec.
  - cbn [List.filter nonempty]. exact IH.
  - destruct (cut_token_fields (String c r)) as (ps & Hsp & Hf).
    cbn [split_commas] in Hsp. rewrite Ec in Hsp. rewrite Hsp.
    cbn [cut_token] in *. rewrite is_delim_comma, Ec in *.
    destruct (cut_token "," r) as [tok rest]. cbn [fst snd] in *.
    cbn [List.filter nonempty]. exists rest. split; [reflexivity | symmetry; exact Hf].
Qed.

(** The parser in terms of the fields of the text. *)
Lemma lossy_peak_parse_args_fields (str_to_float : string -> option float32)
    (now : Z) (a : string) (h : heap) :
  lossy_peak_parse_args str_to_float now (Some a) h =
  match comma_fields a with
  | f1 :: f2 :: _ =>
      match str_to_float f1, str_to_float f2 with
      | Some dec, Some delay =>
          match heap_avail h with
          | O => Some (None, h)
          | S k =>
              match f32_to_int64 (f32_mul delay f32_1000000) with
              | Some d =>
                  Some (Some (mkCtx f32_zero d dec now 0 0),
                        mkHeap (S (heap_used h)) k)
              | None => None
              end
          end
      | _, _ => Some (None, h)
      end
  | _ => Some (None, h)
  end.
Proof.
  unfold lossy_peak_parse_args.
  pose proof (strtok_r_fields a) as H1.
  destruct (comma_fields a) as [|f1 fs]; [rewrite H1; reflexivity|].
  destruct H1 as (rest & -> & Hrest).
  destruct (str_to_float f1) as [dec|].
  2:{ destruct fs as [|f2 fs]; reflexivity. }
  pose proof (strtok_r_fields rest) as H2. rewrite Hrest in H2.
  destruct fs as [|f2 fs]; [rewrite H2; reflexivity|].
  destruct H2 as (rest2 & -> & _).
  destruct (str_to_float f2) as [delay|]; [|reflexivity].
  unfold malloc. destruct (heap_avail h); [reflexivity|].
  destruct (f32_to_int64 _); reflexivity.
Qed.

(** The conversion to [int64_t], where it is defined, gives an
    [int64_t]: the number without its fraction. *)
Lemma f32_to_int64_defined (x : float32) (d : Z) :
  f32_to_int64 x = Some d ->
  - 2 ^ 63 <= d < 2 ^ 63
  /\ match x with
     | S754_zero _ => d = 0
     | S754_finite s m e =>
         Z.abs d = Zpos m * 2 ^ Z.max e 0 / 2 ^ Z.max (- e) 0
         /\ (if s then d <= 0 else 0 <= d)
     | _ => False
     end.
Proof.
  destruct x as [s|s| |s m e]; cbn [f32_to_int64]; try discriminate.
  - intros H. injection H as <-. split; [lia | reflexivity].
  - set (a := match e with
              | Zneg p => Z.shiftr (Zpos m) (Zpos p)
              | _ => Z.shiftl (Zpos m) e
              end).
    assert (a = Zpos m * 2 ^ Z.max e 0 / 2 ^ Z.max (- e) 0 /\ 0 <= a) as [Ha Hnn].
    { subst a. destruct e as [|q|q].
      - cbn [Z.max Z.opp Z.compare]. rewrite Z.shiftl_0_r.
        change (2 ^ 0) with 1. rewrite Z.mul_1_r, Z.div_1_r. lia.
      - rewrite Z.shiftl_mul_pow2 by lia.
        replace (Z.max (Zpos q) 0) with (Zpos q) by lia.
        replace (Z.max (- Zpos q) 0) with 0 by lia.
        change (2 ^ 0) with 1. rewrite Z.div_1_r.
        assert (0 < 2 ^ Zpos q) by (apply Z.pow_pos_nonneg; lia). split; [reflexivity | nia].
      - rewrite Z.shiftr_div_pow2 by lia.
        replace (Z.max (Zneg q) 0) with 0 by lia.
        replace (Z.max (- Zneg q) 0) with (Zpos q) by lia.
        change (2 ^ 0) with 1. rewrite Z.mul_1_r.
        assert (0 < 2 ^ Zpos q) by (apply Z.pow_pos_nonneg; lia).
        split; [reflexivity | apply Z.div_pos; lia]. }
    destruct ((- 2 ^ 63 <=? (if s then - a else a)) && ((if s then - a else a) <? 2 ^ 63))
      eqn:Hr; [|discriminate].
    intros H. injection H as <-.
    apply andb_true_iff in Hr. destruct Hr as [H1 H2].
    apply Z.leb_le in H1. apply Z.ltb_lt in H2.
    split; [lia|]. rewrite <- Ha. destruct s; split; lia.
Qed.

(** C8, as the code has it: creation returns null, the heap being as
    it was, when the text is absent, when it has fewer than two
    comma-separated fields, when [str_to_float] rejects one of the first
    two fields, and when no memory is left.  In every other case it
    takes one block and stores [delay * 1000000], a [float], converted
    to [int64_t]: when the integer part of that product is an
    [int64_t], the context returned has peak 0, state 0 (tracking), the
    decay rate read and the delay read in whole microseconds, the
    fraction dropped; when the product is a NaN, an infinity or beyond
    the range of [int64_t], the conversion is undefined and so is the
    result.  Whenever the result is null nothing has been allocated.
    [filter_parse_args] delegates to it for "lossypeak" and returns
    null for "none". *)
Theorem lossy_peak_parse_args_spec (str_to_float : string -> option float32)
    (now : Z) (args : option string) (h : heap) :
  (args = None -> lossy_peak_parse_args str_to_float now args h = Some (None, h))
  /\ (forall a, args = Some a -> (length (comma_fields a) < 2)%nat ->
        lossy_peak_parse_args str_to_float now args h = Some (None, h))
  /\ (forall a f1 f2 fs, args = Some a -> comma_fields a = f1 :: f2 :: fs ->
        str_to_float f1 = None \/ str_to_float f2 = None ->
        lossy_peak_parse_args str_to_float now args h = Some (None, h))
  /\ (forall a f1 f2 fs dec delay, args = Some a ->
        comma_fields a = f1 :: f2 :: fs ->
        str_to_float f1 = Some dec -> str_to_float f2 = Some delay ->
        (heap_avail h = O ->
           lossy_peak_parse_args str_to_float now args h = Some (None, h))
        /\ (forall k d, heap_avail h = S k ->
              f32_to_int64 (f32_mul delay f32_1000000) = Some d ->
              lossy_peak_parse_args str_to_float now args h
              = Some (Some (mkCtx f32_zero d dec now 0 0),
                      mkHeap (S (heap_used h)) k)
              /\ - 2 ^ 63 <= d < 2 ^ 63
              /\ match f32_mul delay f32_1000000 with
                 | S754_zero _ => d = 0
                 | S754_finite s m e =>
                     Z.abs d = Zpos m * 2 ^ Z.max e 0 / 2 ^ Z.max (- e) 0
                     /\ (if s then d <= 0 else 0 <= d)
                 | _ => False
                 end)
        /\ (forall k, heap_avail h = S k ->
              f32_to_int64 (f32_mul delay f32_1000000) = None ->
              lossy_peak_parse_args str_to_float now args h = None))
  /\ (forall h', lossy_peak_parse_args str_to_float now args h = Some (None, h') ->
        h' = h)
  /\ filter_parse_args str_to_float FILTER_LOSSYPEAK now args h
     = lossy_peak_parse_args str_to_float now args h
  /\ filter_parse_args str_to_float FILTER_NONE now args h = Some (None, h).
Proof.
  split; [intros ->; reflexivity|].
  split.
  { intros a -> Hlen. rewrite lossy_peak_parse_args_fields.
    destruct (comma_fields a) as [|f1 [|f2 fs]]; cbn in Hlen; try reflexivity. lia. }
  split.
  { intros a f1 f2 fs -> Hf Hbad. rewrite lossy_peak_parse_args_fields, Hf.
    destruct Hbad as [-> | ->]; [reflexivity|].
    destruct (str_to_float f1); reflexivity. }
  split.
  { intros a f1 f2 fs dec delay -> Hf H1 H2.
    rewrite lossy_peak_parse_args_fields, Hf, H1, H2.
    split; [intros ->; reflexivity|]. split.
    - intros k d -> Hd. rewrite Hd. split; [reflexivity|].
      apply f32_to_int64_defined. exact Hd.
    - intros k -> Hd. rewrite Hd. reflexivity. }
  split; [|split; reflexivity].
  intros h'. destruct args as [a|]; [|intros H; injection H as <-; reflexivity].
  rewrite lossy_peak_parse_args_fields.
  destruct (comma_fields a) as [|f1 [|f2 fs]];
    try (intros H; injection H as <-; reflexivity).
  destruct (str_to_float f1); [|intros H; injection H as <-; reflexivity].
  destruct (str_to_float f2); [|intros H; injection H as <-; reflexivity].
  destruct (heap_avail h); [intros H; injection H as <-; reflexivity|].
  destruct (f32_to_int64 _); discriminate.
Qed.

Lemma lossy_peak_parse_args_spec_witness :
  lossy_peak_parse_args str_to_float_sample 77 (Some "2,x"%string) (mkHeap 0 1)
  = Some (None, mkHeap 0 1)
  /\ lossy_peak_parse_args str_to_float_sample 77 (Some "2"%string) (mkHeap 0 1)
     = Some (None, mkHeap 0 1)
  /\ lossy_peak_parse_args str_to_float_sample 77 (Some "2,3"%string) (mkHeap 0 1)
     = Some (Some (mkCtx f32_zero 3000000 (f32_of_Z 2) 77 0 0), mkHeap 1 0).
Proof.
  destruct (lossy_peak_parse_args_spec str_to_float_sample 77 (Some "2,x"%string)
              (mkHeap 0 1)) as (_ & _ & Hbad & _).
  destruct (lossy_peak_parse_args_spec str_to_float_sample 77 (Some "2"%string)
              (mkHeap 0 1)) as (_ & Hshort & _).
  destruct (lossy_peak_parse_args_spec str_to_float_sample 77 (Some "2,3"%string)
              (mkHeap 0 1)) as (_ & _ & _ & Hok & _).
  split; [|split].
  - apply (Hbad "2,x"%string "2"%string "x"%string []); [reflexivity .. |].
    right. reflexivity.
  - apply (Hshort "2"%string); [reflexivity | cbn; lia].
  - destruct (Hok "2,3"%string "2"%string "3"%string [] (f32_of_Z 2) (f32_of_Z 3))
      as (_ & H & _); [reflexivity .. |].
    apply (H O 3000000); reflexivity.
Defined.

(** C8 fails as stated: with a reader that takes "1e30" for the
    [float] nearest to it, the text "2,1e30" has two fields that are
    both read as numbers and memory is left, yet no context holding
    the hold delay comes back: [1e30 * 1000000] is beyond the range of
    [int64_t] and its conversion is undefined. *)
Lemma lossy_peak_parse_args_counterexample :
  let huge := f32_of_Z (10 ^ 30) in
  let reader := fun s : string =>
                  if String.eqb s "1e30" then Some huge else str_to_float_sample s in
  reader "2"%string = Some (f32_of_Z 2)
  /\ reader "1e30"%string = Some huge
  /\ huge = S754_finite false 13234890 76
  /\ f32_mul huge f32_1000000 = S754_finite false 12621775 96
  /\ 2 ^ 63 <= 12621775 * 2 ^ 96
  /\ f32_to_int64 (f32_mul huge f32_1000000) = None
  /\ lossy_peak_parse_args reader 77 (Some "2,1e30"%string) (mkHeap 0 1) = None.
Proof. vm_compute. repeat split; discriminate. Qed.

(** ** The lossy-peak transform *)

(** C4, as the code has it: with a hold delay of 0, a sample below the
    peak taken while tracking switches the context to decaying in that
    very call, with no grace period; the time span it decays over in
    that call is the time since the previous call of the transform
    (now - last update), and the peak is lowered accordingly. *)
Theorem lossy_peak_zero_delay (t_now : Z) (c : lossypeak_context) (input : float32) :
  delay_us c = 0 -> state c = 0 -> f_ge input (peak c) = false ->
  let t_d := absolute_time_diff_us (last_t c) t_now in
  let dec := decay_amount t_d (decay c) in
  hold_check c t_now t_d = (1, t_d)
  /\ state (fst (lossy_peak_filter t_now c input)) = 1
  /\ peak (fst (lossy_peak_filter t_now c input))
     = (if f_gt input (f32_sub (peak c) dec) then input
        else f32_sub (peak c) dec)
  /\ snd (lossy_peak_filter t_now c input)
     = peak (fst (lossy_peak_filter t_now c input)).
Proof.
  intros Hdelay Hstate Hlt t_d dec.
  assert (hold_check c t_now t_d = (1, t_d)) as Hhold.
  { unfold hold_check. rewrite Hstate, Hdelay. reflexivity. }
  split; [exact Hhold|].
  unfold lossy_peak_filter. fold t_d. rewrite Hlt, Hhold. cbn.
  repeat split.
Qed.

Lemma lossy_peak_zero_delay_witness :
  let c := mkCtx (f32_of_Z 10) 0 (f32_of_Z 2) 0 0 0 in
  state (fst (lossy_peak_filter 1000000 c f32_zero)) = 1
  /\ peak (fst (lossy_peak_filter 1000000 c f32_zero)) = f32_of_Z 8.
Proof.
  intros c.
  destruct (lossy_peak_zero_delay 1000000 c f32_zero) as (_ & Hs & Hp & _);
    [reflexivity .. |].
  split; [exact Hs|]. rewrite Hp. vm_compute. reflexivity.
Defined.

(** C4 fails as stated: with hold delay 0, peak 10 and decay rate 2, a
    sample of 0 one second after the previous call enters the decaying
    state with a decay span of 1000000 us, not zero, and the value
    returned is 8; a zero span would have left the peak at 10. *)
Lemma lossy_peak_zero_delay_counterexample :
  let c := mkCtx (f32_of_Z 10) 0 (f32_of_Z 2) 0 0 0 in
  hold_check c 1000000 (absolute_time_diff_us (last_t c) 1000000) = (1, 1000000)
  /\ snd (lossy_peak_filter 1000000 c f32_zero) = f32_of_Z 8
  /\ decay_step c 1 0 f32_zero = f32_of_Z 10
  /\ f32_of_Z 8 <> f32_of_Z 10.
Proof. vm_compute. repeat split. discriminate. Qed.

(** The worked case of the design: decay 2.0 per second, hold delay
    0.5 s; 10 at t = 0, then 0 at t = 0.3 s (held: 10) and 0 at
    t = 1.3 s (0.8 s past the hold: 10 - 1.6). *)
Example lossy_peak_basic_case :
  let c := mkCtx f32_zero 500000 (f32_of_Z 2) 0 0 0 in
  List.map (fun r => format_f (f64_of_f32 r))
    (snd (lossy_peak_run
            [(0, f32_of_Z 10); (300000, f32_zero); (1300000, f32_zero)] c))
  = [Some "10.000000"; Some "10.000000"; Some "8.400000"]%string.
Proof. vm_compute. reflexivity. Qed.

(** *** Time spans are [int64_t] values *)

Lemma to_int64_range (z : Z) : - 2 ^ 63 <= to_int64 z < 2 ^ 63.
Proof.
  unfold to_int64. pose proof (Z.mod_pos_bound z (2 ^ 64) ltac:(lia)).
  destruct (Z.ltb_spec (z mod 2 ^ 64) (2 ^ 63)); lia.
Qed.

Lemma hold_check_range (c : lossypeak_context) (t_now t_d : Z) :
  - 2 ^ 63 <= t_d < 2 ^ 63 ->
  - 2 ^ 63 <= snd (hold_check c t_now t_d) < 2 ^ 63.
Proof.
  intros Ht. unfold hold_check.
  pose proof (to_int64_range (t_now - peak_t c)) as Hr.
  fold (absolute_time_diff_us (peak_t c) t_now) in Hr.
  destruct (state c =? 0); [|exact Ht].
  destruct (Z.ltb_spec 0 (delay_us c)); [|exact Ht].
  destruct (Z.ltb_spec (delay_us c) (absolute_time_diff_us (peak_t c) t_now));
    cbn [snd]; lia.
Qed.

(** *** Zero decay rate *)

(** One call with a decay rate of zero. *)
Lemma lossy_peak_zero_decay_step (t_now : Z) (c : lossypeak_context) (input : float32) :
  is_zero (decay c) = true -> is_nan (peak c) = false ->
  let c' := fst (lossy_peak_filter t_now c input) in
  decay c' = decay c
  /\ is_nan (peak c') = false
  /\ snd (lossy_peak_filter t_now c input) = peak c'
  /\ f_ge (peak c') (peak c) = true
  /\ (f_ge input (peak c) = true /\ peak c' = input
      \/ f_ge input (peak c) = false /\ SFcompare (peak c') (peak c) = Some Eq).
Proof.
  intros Hrate Hpk. unfold lossy_peak_filter.
  set (t_d := absolute_time_diff_us (last_t c) t_now).
  destruct (f_ge input (peak c)) eqn:Hge; cbn [fst snd peak decay].
  - destruct (f_ge_not_nan _ _ Hge) as [Hin _]. auto 10.
  - destruct (hold_check c t_now t_d) as [st t_d'] eqn:Hhold.
    cbn [fst snd peak decay].
    assert (- 2 ^ 63 <= t_d' < 2 ^ 63) as Hrange.
    { pose proof (hold_check_range c t_now t_d (to_int64_range _)) as H.
      rewrite Hhold in H. exact H. }
    assert (SFcompare (decay_step c st t_d' input) (peak c) = Some Eq
            /\ is_nan (decay_step c st t_d' input) = false) as [Hcmp Hnan].
    { unfold decay_step. destruct (st =? 1).
      - pose proof (decay_amount_zero t_d' (decay c) Hrange Hrate) as Hz.
        assert (f_gt input (f32_sub (peak c) (decay_amount t_d' (decay c))) = false)
          as ->.
        { unfold f_gt, SFltb. rewrite SFcompare_sub_zero_l by assumption.
          unfold f_ge, SFleb in Hge.
          destruct (SFcompare (peak c) input) as [[]|]; try reflexivity; discriminate. }
        split; [|apply f32_sub_zero_not_nan; assumption].
        rewrite SFcompare_sub_zero_l by assumption. apply SFcompare_refl. exact Hpk.
      - split; [apply SFcompare_refl; exact Hpk | exact Hpk]. }
    split; [reflexivity|]. split; [exact Hnan|]. split; [reflexivity|]. split.
    + unfold f_ge, SFleb. rewrite SFcompare_antisym, Hcmp. reflexivity.
    + right. split; [reflexivity | exact Hcmp].
Qed.

Lemma lossy_peak_run_zero_decay (samples : list (Z * float32)) :
  forall c : lossypeak_context,
    is_zero (decay c) = true -> is_nan (peak c) = false ->
    f_ge (peak (fst (lossy_peak_run samples c))) (peak c) = true
    /\ Forall (fun r => f_ge r (peak c) = true) (snd (lossy_peak_run samples c)).
Proof.
  induction samples as [|[t x] rest IH]; intros c Hrate Hpk.
  - cbn. split; [apply f_ge_refl; exact Hpk | constructor].
  - cbn [lossy_peak_run].
    pose proof (lossy_peak_zero_decay_step t c x Hrate Hpk) as (Hd & Hn & Hr & Hge & _).
    destruct (lossy_peak_filter t c x) as [c1 r]. cbn [fst snd] in *.
    specialize (IH c1 ltac:(rewrite Hd; exact Hrate) Hn). destruct IH as [IH1 IH2].
    destruct (lossy_peak_run rest c1) as [c2 rs]. cbn [fst snd] in *.
    split; [eapply f_ge_trans; eassumption|].
    constructor; [rewrite Hr; exact Hge|].
    eapply Forall_impl; [exact IH2|]. cbn. intros y Hy.
    eapply f_ge_trans; eassumption.
Qed.

(** C9: with a decay rate of zero, and whatever the times of the calls,
    a call of the transform either takes an input greater than or equal
    to the peak as the new peak, or leaves the peak equal to what it
    was; so over any sequence of calls the peak never ends below where
    it started, and no value returned is below it.  The peak is a number
    (not a NaN) in a new context, where it is 0, and stays one. *)
Theorem lossy_peak_zero_decay (c : lossypeak_context) :
  is_zero (decay c) = true -> is_nan (peak c) = false ->
  (forall t_now input,
     let c' := fst (lossy_peak_filter t_now c input) in
     is_zero (decay c') = true /\ is_nan (peak c') = false
     /\ f_ge (peak c') (peak c) = true
     /\ (f_ge input (peak c) = true /\ peak c' = input
         \/ f_ge input (peak c) = false
            /\ SFcompare (peak c') (peak c) = Some Eq))
  /\ (forall samples,
        f_ge (peak (fst (lossy_peak_run samples c))) (peak c) = true
        /\ Forall (fun r => f_ge r (peak c) = true)
                  (snd (lossy_peak_run samples c))).
Proof.
  intros Hrate Hpk. split.
  - intros t_now input.
    pose proof (lossy_peak_zero_decay_step t_now c input Hrate Hpk)
      as (Hd & Hn & _ & Hge & Hcases).
    cbv zeta. rewrite Hd. auto.
  - intros samples. apply lossy_peak_run_zero_decay; assumption.
Qed.

Lemma lossy_peak_zero_decay_witness :
  let c := mkCtx (f32_of_Z 10) 500000 f32_zero 0 0 0 in
  f_ge (peak (fst (lossy_peak_run
                     [(1000000, f32_of_Z 3); (9000000000000, f32_of_Z 1);
                      (9000000000001, f32_of_Z 12)] c)))
       (peak c) = true.
Proof.
  intros c.
  destruct (lossy_peak_zero_decay c) as [_ H]; [reflexivity | reflexivity |].
  apply H.
Defined.

(** *** Output never below the input *)

(** C10, as the code has it: for a context whose peak and decay rate
    are finite numbers and an input that is a number (not a NaN), the
    value returned is the tracked peak and is greater than or equal to
    the input; and unless the context is in the decaying state after the
    call, the peak is not below what it was before. *)
Theorem lossy_peak_output_above_input (t_now : Z) (c : lossypeak_context)
    (input : float32) :
  is_nan input = false ->
  is_finite (peak c) = true ->
  is_finite (decay c) = true -> valid_binary prec32 emax32 (decay c) = true ->
  let c' := fst (lossy_peak_filter t_now c input) in
  snd (lossy_peak_filter t_now c input) = peak c'
  /\ f_ge (peak c') input = true
  /\ (state c' <> 1 -> f_ge (peak c') (peak c) = true).
Proof.
  intros Hin Hpk Hrf Hrv.
  assert (is_nan (peak c) = false) as Hpn by (destruct (peak c); auto; discriminate).
  unfold lossy_peak_filter.
  set (t_d := absolute_time_diff_us (last_t c) t_now).
  destruct (f_ge input (peak c)) eqn:Hge; cbn [fst snd peak state].
  - split; [reflexivity|]. split; [apply f_ge_refl; exact Hin|]. intros _. exact Hge.
  - destruct (hold_check c t_now t_d) as [st t_d'] eqn:Hhold.
    cbn [fst snd peak state].
    assert (- 2 ^ 63 <= t_d' < 2 ^ 63) as Hrange.
    { pose proof (hold_check_range c t_now t_d (to_int64_range _)) as H.
      rewrite Hhold in H. exact H. }
    split; [reflexivity|].
    pose proof (not_ge_gt _ _ Hin Hpn Hge) as Hlt.
    unfold decay_step. destruct (Z.eqb_spec st 1) as [->|Hst].
    + set (dec := decay_amount t_d' (decay c)).
      assert (is_nan (f32_sub (peak c) dec) = false) as Hsn.
      { apply f32_sub_not_nan; [exact Hpk|].
        apply decay_amount_not_nan; assumption. }
      destruct (f_gt input (f32_sub (peak c) dec)) eqn:Hgt.
      * split; [apply f_ge_refl; exact Hin|]. intros H; contradiction.
      * split; [apply not_gt_ge; assumption|]. intros H; contradiction.
    + split; [apply f_gt_ge; exact Hlt|]. intros _. apply f_ge_refl. exact Hpn.
Qed.

Lemma lossy_peak_output_above_input_witness :
  let c := mkCtx (f32_of_Z 10) 500000 (f32_of_Z 2) 300000 0 0 in
  f_ge (snd (lossy_peak_filter 1300000 c f32_zero)) f32_zero = true.
Proof.
  intros c.
  destruct (lossy_peak_output_above_input 1300000 c f32_zero) as (Hr & Hge & _);
    [reflexivity .. |].
  rewrite Hr. exact Hge.
Defined.

(** C10 fails as stated: the comparisons of the code are all false on a
    NaN.  An input that is a NaN is not taken as a peak and the value
    returned, 0, is not greater than or equal to it; with an infinite
    decay rate and no time elapsed, or with an infinite peak and a decay
    amount that overflows, the peak itself becomes a NaN, which is not
    greater than or equal to the input 3. *)
Lemma lossy_peak_output_above_input_counterexample :
  let c1 := mkCtx f32_zero 500000 (f32_of_Z 2) 0 0 0 in
  let c2 := mkCtx (f32_of_Z 10) 0 (S754_infinity false) 5 5 0 in
  let c3 := mkCtx (S754_infinity false) 0 (S754_finite false 16777215 104) 0 0 0 in
  snd (lossy_peak_filter 1 c1 S754_nan) = f32_zero
  /\ f_ge (snd (lossy_peak_filter 1 c1 S754_nan)) S754_nan = false
  /\ snd (lossy_peak_filter 5 c2 (f32_of_Z 3)) = S754_nan
  /\ f_ge (snd (lossy_peak_filter 5 c2 (f32_of_Z 3))) (f32_of_Z 3) = false
  /\ snd (lossy_peak_filter 2000000 c3 (f32_of_Z 3)) = S754_nan
  /\ f_ge (snd (lossy_peak_filter 2000000 c3 (f32_of_Z 3))) (f32_of_Z 3) = false.
Proof. vm_compute. repeat split. Qed.


(** ** Serializing a context and reading it back *)



























(** The hold delay is written from a [float]: 123456.789012 s is
    written as 123456.789062, and a reader that takes that text for
    the [float] nearest to it gives back 123456.790528 s. *)
Example lossy_peak_delay_through_float :
  let c := mkCtx f32_zero 123456789012 (f32_of_Z 2) 9 0 0 in
  let reader := fun s : string =>
                  if String.eqb s "123456.789062"
                  then Some (S754_finite false 15802469 (-7))
                  else str_to_float_sample s in
  lossy_peak_print_args c = Some "2.000000,123456.789062"%string
  /\ lossy_peak_parse_args reader 9 (Some "2.000000,123456.789062"%string)
       (mkHeap 0 1)
     = Some (Some (mkCtx f32_zero 123456790528 (f32_of_Z 2) 9 0 0), mkHeap 1 0).
Proof. vm_compute. repeat split. Qed.


(** * Further properties of the code *)

(** ** The DHCP option hooks *)

Lemma put_option_byte_rebuilt (orig W : list Z) (o : Z) (s : rebuild_state) (b : Z) :
  rebuilt orig W o s -> (length W < length orig)%nat -> Z.of_nat (length orig) < 2 ^ 16 ->
  exists s', put_option_byte s b = Some s' /\ rebuilt orig (W ++ [b]) o s'.
Proof.
  intros (Ho & Hn & Hopt) Hlt Hsz. unfold put_option_byte, arr_set.
  rewrite Hn, Nat2Z.id, Hopt.
  rewrite bool_decide_true by (rewrite length_app, length_drop; lia).
  eexists. split; [reflexivity|]. unfold rebuilt. cbn.
  split; [exact Ho|]. split.
  - unfold u16_wrap. rewrite Z.mod_small by lia. rewrite length_app. cbn. lia.
  - destruct (lookup_lt_is_Some_2 orig (length W) Hlt) as [x Hx].
    rewrite (drop_S orig x (length W) Hx).
    rewrite insert_app_r_alt by lia. rewrite Nat.sub_diag. cbn.
    rewrite length_app. cbn. rewrite <- app_assoc. cbn.
    replace (length W + 1)%nat with (S (length W)) by lia. reflexivity.
Qed.

Lemma take_option_byte_rebuilt (tmp orig W : list Z) (o : Z) (s : rebuild_state) (b : Z) :
  rebuilt orig W o s -> 0 <= o -> o + 1 < 2 ^ 16 -> tmp !! Z.to_nat o = Some b ->
  exists s', take_option_byte tmp s = Some (b, s') /\ rebuilt orig W (o + 1) s'.
Proof.
  intros (Ho & Hn & Hopt) Hnn Hsz Hb. unfold take_option_byte, arr_get.
  rewrite Ho. rewrite bool_decide_true by lia. rewrite Hb. cbn.
  eexists. split; [reflexivity|]. unfold rebuilt. cbn.
  unfold u16_wrap. rewrite Z.mod_small by lia. auto.
Qed.

(** The loop that copies the data [d] of an option, found in [tmp] at
    [o]. *)
Lemma copy_data_rebuilt (tmp orig d : list Z) (n : nat) :
  forall (W : list Z) (o : Z) (s : rebuild_state),
    rebuilt orig W o s -> 0 <= o ->
    (forall i, (i < length d)%nat -> tmp !! (Z.to_nat o + i)%nat = d !! i) ->
    (n <= length d)%nat ->
    (length W + length d <= length orig)%nat ->
    o + Z.of_nat (length d) < 2 ^ 16 -> Z.of_nat (length orig) < 2 ^ 16 ->
    exists s',
      for_loop n (fun _ s => '(b, s) ← take_option_byte tmp s; put_option_byte s b) s
      = Some s'
      /\ rebuilt orig (W ++ take n d) (o + Z.of_nat n) s'.
Proof.
  induction n as [|n IH]; intros W o s Hs Ho Htmp Hn Hroom Ho16 Hsz.
  - exists s. split; [reflexivity|]. rewrite take_0, app_nil_r, Z.add_0_r. exact Hs.
  - destruct (IH W o s Hs Ho Htmp ltac:(lia) Hroom Ho16 Hsz) as (s1 & Hrun & Hs1).
    destruct (lookup_lt_is_Some_2 d n ltac:(lia)) as [b Hb].
    destruct (take_option_byte_rebuilt tmp orig _ _ s1 b Hs1 ltac:(lia) ltac:(lia))
      as (s2 & Htake & Hs2).
    { rewrite <- Hb, <- (Htmp n ltac:(lia)). f_equal. lia. }
    destruct (put_option_byte_rebuilt orig _ _ s2 b Hs2) as (s3 & Hput & Hs3).
    { rewrite length_app, length_take. lia. }
    { exact Hsz. }
    exists s3. cbn [for_loop]. rewrite Hrun. cbn. rewrite Htake. cbn.
    split; [exact Hput|].
    rewrite (take_S_r d n b Hb), app_assoc.
    replace (o + Z.of_nat (S n)) with (o + Z.of_nat n + 1) by lia. exact Hs3.
Qed.

Lemma add_parameters_rebuilt (orig W : list Z) (o : Z) (s : rebuild_state) :
  rebuilt orig W o s -> (length W + 2 <= length orig)%nat ->
  Z.of_nat (length orig) < 2 ^ 16 ->
  exists s',
    for_loop (Z.to_nat extra_len)
      (fun i s => b ← new_parameters !! i; put_option_byte s b) s = Some s'
    /\ rebuilt orig (W ++ new_parameters) o s'.
Proof.
  intros Hs Hroom Hsz.
  destruct (put_option_byte_rebuilt orig W o s 7 Hs ltac:(lia) Hsz) as (s1 & H1 & Hs1).
  destruct (put_option_byte_rebuilt orig _ o s1 100 Hs1) as (s2 & H2 & Hs2);
    [rewrite length_app; cbn; lia | exact Hsz |].
  exists s2. split.
  - change (put_option_byte s 7 ≫= (fun s1 => put_option_byte s1 100) = Some s2).
    rewrite H1. exact H2.
  - rewrite <- app_assoc in Hs2. exact Hs2.
Qed.

Lemma encode_options_length_map (os : list (Z * list Z)) :
  length (encode_options (map add_parameters os))
  = (length (encode_options os) + 2 * count_55 os)%nat.
Proof.
  induction os as [|[c d] r IH]; [reflexivity|].
  cbn [map encode_options count_55]. unfold add_parameters at 1. cbn [fst snd].
  destruct (c =? 55); cbn [encode_options length]; rewrite ?length_app, IH; cbn; lia.
Qed.

(** One round of the loop on the option [(c, d)] found at [o]. *)
Lemma rebuild_option_rebuilt (tmp orig pre post d W : list Z) (c : Z)
    (s : rebuild_state) :
  tmp = pre ++ (c :: Z.of_nat (length d) :: d) ++ post ->
  rebuilt orig W (Z.of_nat (length pre)) s ->
  (length (snd (add_parameters (c, d))) < 256)%nat ->
  (length W + length (encode_options [add_parameters (c, d)]) <= length orig)%nat ->
  Z.of_nat (length tmp) < 2 ^ 16 -> Z.of_nat (length orig) < 2 ^ 16 ->
  exists s',
    rebuild_option tmp s = Some s'
    /\ rebuilt orig (W ++ encode_options [add_parameters (c, d)])
         (Z.of_nat (length pre) + 2 + Z.of_nat (length d)) s'.
Proof.
  intros Htmp Hs Hfit Hroom Htsz Hosz.
  assert (length tmp = length pre + 2 + length d + length post)%nat as Hlen.
  { rewrite Htmp. rewrite ?length_app. cbn. rewrite ?length_app. lia. }
  assert (length (encode_options [add_parameters (c, d)])
          = (2 + length d + (if (c =? 55)%Z then 2 else 0))%nat) as Henc.
  { unfold add_parameters. cbn [fst snd]. destruct (c =? 55); cbn;
      rewrite ?length_app, ?app_nil_r, ?length_app; cbn; lia. }
  assert (length (snd (add_parameters (c, d)))
          = (length d + (if (c =? 55)%Z then 2 else 0))%nat) as Hadd.
  { unfold add_parameters. cbn [fst snd]. destruct (c =? 55); cbn [snd];
      rewrite ?length_app; cbn; lia. }
  unfold rebuild_option.
  destruct (take_option_byte_rebuilt tmp orig W _ s c Hs ltac:(lia) ltac:(lia))
    as (s1 & H1 & Hs1).
  { rewrite Nat2Z.id, Htmp. rewrite lookup_app_r by lia.
    rewrite Nat.sub_diag. reflexivity. }
  rewrite H1. cbn.
  destruct (take_option_byte_rebuilt tmp orig W _ s1 (Z.of_nat (length d)) Hs1
              ltac:(lia) ltac:(lia)) as (s2 & H2 & Hs2).
  { replace (Z.to_nat (Z.of_nat (length pre) + 1)) with (length pre + 1)%nat by lia.
    rewrite Htmp. rewrite lookup_app_r by lia.
    replace (length pre + 1 - length pre)%nat with 1%nat by lia. reflexivity. }
  rewrite H2. cbn.
  destruct (put_option_byte_rebuilt orig W _ s2 c Hs2 ltac:(lia) Hosz)
    as (s3 & H3 & Hs3).
  rewrite H3. cbn.
  set (lenb := if c =? 55 then uint8_wrap (Z.of_nat (length d) + extra_len)
               else Z.of_nat (length d)).
  destruct (put_option_byte_rebuilt orig _ _ s3 lenb Hs3) as (s4 & H4 & Hs4);
    [rewrite length_app; cbn; lia | exact Hosz |].
  rewrite H4. cbn. rewrite Nat2Z.id.
  destruct (copy_data_rebuilt tmp orig d (length d) _ _ s4 Hs4) as (s5 & H5 & Hs5);
    try lia.
  { intros i Hi.
    replace (Z.to_nat (Z.of_nat (length pre) + 1 + 1) + i)%nat
      with (length pre + (2 + i))%nat by lia.
    rewrite Htmp. rewrite lookup_app_r by lia.
    replace (length pre + (2 + i) - length pre)%nat with (S (S i)) by lia.
    cbn. apply lookup_app_l. exact Hi. }
  { rewrite !length_app. cbn. lia. }
  rewrite H5. cbn. rewrite firstn_all in Hs5.
  replace (Z.of_nat (length pre) + 1 + 1 + Z.of_nat (length d))
    with (Z.of_nat (length pre) + 2 + Z.of_nat (length d)) in Hs5 by lia.
  unfold add_parameters. cbn [fst snd]. subst lenb.
  destruct (c =? 55) eqn:Ec.
  - destruct (add_parameters_rebuilt orig _ _ s5 Hs5) as (s6 & H6 & Hs6).
    { rewrite !length_app. cbn. lia. }
    { exact Hosz. }
    exists s6. split; [exact H6|].
    cbn [encode_options]. rewrite app_nil_r, length_app. cbn [length new_parameters].
    assert (uint8_wrap (Z.of_nat (length d) + extra_len)
            = Z.of_nat (length d + 2)) as Hw.
    { unfold uint8_wrap, extra_len. rewrite Z.mod_small; lia. }
    rewrite Hw in Hs6.
    rewrite <- ?app_assoc in Hs6. rewrite <- ?app_assoc. cbn in Hs6 |- *. exact Hs6.
  - exists s5. split; [reflexivity|].
    cbn [encode_options]. rewrite app_nil_r.
    rewrite <- ?app_assoc in Hs5. cbn in Hs5 |- *. exact Hs5.
Qed.

Lemma encode_options_cons (o : Z * list Z) (r : list (Z * list Z)) :
  encode_options (o :: r) = encode_options [o] ++ encode_options r.
Proof. destruct o as [c d]. cbn. rewrite app_nil_r, <- ?app_assoc. reflexivity. Qed.

Lemma encode_options_length_ge (os : list (Z * list Z)) :
  (2 * length os <= length (encode_options os))%nat.
Proof.
  induction os as [|[c d] r IH]; cbn; [lia|]. rewrite length_app. lia.
Qed.

(** The whole loop, on the options [os] found in [tmp] after [pre]. *)
Lemma rebuild_options_rebuilt (tmp orig rest : list Z) (orig_len : Z)
    (os : list (Z * list Z)) :
  forall (pre W : list Z) (fuel : nat) (s : rebuild_state),
    tmp = pre ++ encode_options os ++ rest ->
    orig_len = Z.of_nat (length pre + length (encode_options os)) ->
    rebuilt orig W (Z.of_nat (length pre)) s ->
    options_fit os ->
    (length W + length (encode_options (map add_parameters os)) <= length orig)%nat ->
    (length os <= fuel)%nat ->
    Z.of_nat (length tmp) < 2 ^ 16 -> Z.of_nat (length orig) < 2 ^ 16 ->
    exists s',
      rebuild_options fuel tmp orig_len s = Some s'
      /\ rebuilt orig (W ++ encode_options (map add_parameters os)) orig_len s'.
Proof.
  induction os as [|[c d] r IH]; intros pre W fuel s Htmp Hlen Hs Hfit Hroom Hfuel Ht Ho.
  - exists s. cbn in Hlen. rewrite Nat.add_0_r in Hlen. cbn [map encode_options].
    rewrite app_nil_r. split.
    + destruct Hs as (Hop & _). destruct fuel; cbn [rebuild_options]; rewrite Hop;
        destruct (Z.ltb_spec (Z.of_nat (length pre)) orig_len); (reflexivity || lia).
    + rewrite Hlen. exact Hs.
  - destruct fuel as [|fuel]; [cbn in Hfuel; lia|].
    cbn [rebuild_options]. pose proof Hs as (Hop & _). rewrite Hop.
    cbn [encode_options length] in Hlen.
    destruct (Z.ltb_spec (Z.of_nat (length pre)) orig_len) as [_|Hge]; [|lia].
    apply Forall_cons in Hfit. destruct Hfit as [Hfit1 Hfit].
    cbn [map] in Hroom. rewrite encode_options_cons, length_app in Hroom.
    destruct (rebuild_option_rebuilt tmp orig pre (encode_options r ++ rest) d W c s)
      as (s1 & Hstep & Hs1); try assumption; [| lia |].
    { rewrite Htmp. cbn [encode_options app]. rewrite <- ?app_assoc. reflexivity. }
    rewrite Hstep. change (Some s1 ≫= ?f) with (f s1). cbv beta.
    destruct (IH (pre ++ c :: Z.of_nat (length d) :: d)
                 (W ++ encode_options [add_parameters (c, d)]) fuel s1)
      as (s2 & Hrun & Hs2); try assumption.
    + rewrite Htmp. cbn [encode_options app]. rewrite <- ?app_assoc.
      cbn [app]. rewrite <- ?app_assoc. reflexivity.
    + rewrite Hlen. rewrite !length_app. cbn [length]. lia.
    + rewrite length_app. cbn [length].
      replace (Z.of_nat (length pre + S (S (length d))))
        with (Z.of_nat (length pre) + 2 + Z.of_nat (length d)) by lia.
      exact Hs1.
    + rewrite length_app. lia.
    + cbn in Hfuel. lia.
    + exists s2. split; [exact Hrun|].
      cbn [map]. rewrite (encode_options_cons (add_parameters (c, d))), app_assoc.
      exact Hs2.
Qed.

(** The hook on a REQUEST whose options are well formed and leave room. *)
Lemma dhcp_add_hook_request (n : nat) (os : list (Z * list Z)) (rest : list Z) :
  length (encode_options os ++ rest) = n -> Z.of_nat n < 2 ^ 16 ->
  options_fit os ->
  (length (encode_options os) + 2 <= n)%nat ->
  (length (encode_options os) + 2 * count_55 os <= n)%nat ->
  pico_dhcp_option_add_hook n DHCP_REQUEST (encode_options os ++ rest)
    (Z.of_nat (length (encode_options os)))
  = Some (encode_options (map add_parameters os) ++ drop (2 * count_55 os) rest,
          Z.of_nat (length (encode_options os) + 2 * count_55 os)).
Proof.
  intros Hn Hsz Hfit Hassert Hroom. unfold pico_dhcp_option_add_hook.
  rewrite Z.eqb_refl. cbn [negb].
  destruct (Z.leb_spec (Z.of_nat (length (encode_options os)) + extra_len) (Z.of_nat n))
    as [_|Hbad]; [|unfold extra_len in Hbad; lia].
  cbn [negb].
  destruct (rebuild_options_rebuilt (encode_options os ++ rest)
              (encode_options os ++ rest) rest
              (Z.of_nat (length (encode_options os))) os [] []
              (Z.to_nat (Z.of_nat (length (encode_options os))))
              (mkRebuild 0 0 (encode_options os ++ rest)))
    as (s' & Hrun & (Hop & Hnp & Hopt)).
  - reflexivity.
  - reflexivity.
  - repeat split.
  - exact Hfit.
  - rewrite encode_options_length_map. cbn. lia.
  - pose proof (encode_options_length_ge os). lia.
  - lia.
  - lia.
  - rewrite Hrun. cbn. rewrite Hopt, Hnp. cbn [app].
    rewrite encode_options_length_map.
    rewrite drop_app_ge by lia.
    replace (length (encode_options os) + 2 * count_55 os - length (encode_options os))%nat
      with (2 * count_55 os)%nat by lia.
    reflexivity.
Qed.

(** X1: on a DHCP REQUEST whose options are well formed and leave room,
    the hook appends the parameters 7 and 100 to every option 55,
    leaves every other option as it is and in its place, and moves
    [options_len] to the end of the rebuilt options, two bytes further
    for each option 55; the buffer keeps its size. *)
Theorem dhcp_add_hook_rebuilds (n : nat) (os : list (Z * list Z)) (rest : list Z) :
  length (encode_options os ++ rest) = n -> Z.of_nat n < 2 ^ 16 ->
  options_fit os ->
  (length (encode_options os) + 2 <= n)%nat ->
  (length (encode_options os) + 2 * count_55 os <= n)%nat ->
  exists msg',
    pico_dhcp_option_add_hook n DHCP_REQUEST (encode_options os ++ rest)
      (Z.of_nat (length (encode_options os)))
    = Some (msg', Z.of_nat (length (encode_options os) + 2 * count_55 os))
    /\ msg' = encode_options (map add_parameters os) ++ drop (2 * count_55 os) rest
    /\ length (encode_options (map add_parameters os))
       = (length (encode_options os) + 2 * count_55 os)%nat
    /\ length msg' = n.
Proof.
  intros Hn Hsz Hfit Hassert Hroom. eexists. split.
  - apply (dhcp_add_hook_request n os rest); assumption.
  - split; [reflexivity|]. split; [apply encode_options_length_map|].
    rewrite length_app, length_drop, encode_options_length_map.
    rewrite length_app in Hn. lia.
Qed.

Lemma dhcp_add_hook_rebuilds_witness :
  pico_dhcp_option_add_hook 16 DHCP_REQUEST
    [53; 1; 3; 55; 3; 1; 3; 6; 50; 4; 10; 0; 0; 9; 0; 0] 14
  = Some ([53; 1; 3; 55; 5; 1; 3; 6; 7; 100; 50; 4; 10; 0; 0; 9], 16).
Proof.
  destruct (dhcp_add_hook_rebuilds 16
              [(53, [3]); (55, [1; 3; 6]); (50, [10; 0; 0; 9])] [0; 0])
    as (msg' & Hrun & -> & _).
  - reflexivity.
  - reflexivity.
  - repeat constructor.
  - cbn. lia.
  - cbn. lia.
  - exact Hrun.
Defined.

Lemma add_parameters_no_55 (os : list (Z * list Z)) :
  count_55 os = O -> map add_parameters os = os.
Proof.
  induction os as [|[c d] r IH]; [reflexivity|].
  cbn [count_55 map]. unfold add_parameters at 1. cbn [fst].
  destruct (c =? 55); [discriminate|]. intros Hc. rewrite (IH Hc). reflexivity.
Qed.

(** X2: a message other than a REQUEST is left alone, whatever its
    options, and so is a REQUEST of well-formed options without option
    55; a REQUEST whose options leave fewer than two bytes of the
    buffer free fails the assertion, with or without an option 55. *)
Theorem dhcp_add_hook_unchanged (n : nat) (os : list (Z * list Z))
    (rest : list Z) :
  (forall (msg_type : Z) (msg : list Z) (len : Z),
     msg_type <> DHCP_REQUEST ->
     pico_dhcp_option_add_hook n msg_type msg len = Some (msg, len))
  /\ (length (encode_options os ++ rest) = n -> Z.of_nat n < 2 ^ 16 ->
      options_fit os ->
      (length (encode_options os) + 2 <= n)%nat ->
      count_55 os = O ->
      pico_dhcp_option_add_hook n DHCP_REQUEST (encode_options os ++ rest)
        (Z.of_nat (length (encode_options os)))
      = Some (encode_options os ++ rest, Z.of_nat (length (encode_options os))))
  /\ (forall (msg : list Z) (len : Z),
        Z.of_nat n < len + 2 ->
        pico_dhcp_option_add_hook n DHCP_REQUEST msg len = None).
Proof.
  split; [|split].
  - intros msg_type msg len Hne. unfold pico_dhcp_option_add_hook.
    destruct (Z.eqb_spec msg_type DHCP_REQUEST); [contradiction | reflexivity].
  - intros Hn Hsz Hfit Hassert Hc.
    rewrite (dhcp_add_hook_request n os rest Hn Hsz Hfit Hassert) by lia.
    rewrite Hc, Nat.mul_0_r, Nat.add_0_r, drop_0, (add_parameters_no_55 os Hc).
    reflexivity.
  - intros msg len Hlen. unfold pico_dhcp_option_add_hook, extra_len.
    rewrite Z.eqb_refl. cbn [negb].
    destruct (Z.leb_spec (len + 2) (Z.of_nat n)); [lia | reflexivity].
Qed.

Lemma dhcp_add_hook_unchanged_witness :
  pico_dhcp_option_add_hook 12 DHCP_REQUEST [53; 1; 3; 50; 4; 10; 0; 0; 9; 0; 0; 0] 9
  = Some ([53; 1; 3; 50; 4; 10; 0; 0; 9; 0; 0; 0], 9)
  /\ pico_dhcp_option_add_hook 12 DHCP_ACK [55; 1; 3] 3 = Some ([55; 1; 3], 3)
  /\ pico_dhcp_option_add_hook 12 DHCP_REQUEST [55; 1; 3] 11 = None.
Proof.
  destruct (dhcp_add_hook_unchanged 12 [(53, [3]); (50, [10; 0; 0; 9])] [0; 0; 0])
    as (H1 & H2 & H3).
  split; [|split].
  - apply H2.
    + reflexivity.
    + reflexivity.
    + repeat constructor.
    + cbn. lia.
    + reflexivity.
  - apply H1. discriminate.
  - apply H3. lia.
Defined.

(** *** The rebuilding loop stops *)

Lemma take_option_byte_ptrs (tmp : list Z) (s s' : rebuild_state) (b : Z) :
  take_option_byte tmp s = Some (b, s') ->
  0 <= old_ptr s -> Z.of_nat (length tmp) < 2 ^ 16 ->
  old_ptr s' = old_ptr s + 1.
Proof.
  unfold take_option_byte, arr_get. intros H Hnn Hsz.
  destruct (bool_decide (0 <= old_ptr s)); [|discriminate].
  destruct (tmp !! Z.to_nat (old_ptr s)) as [x|] eqn:Hx; [|discriminate].
  apply lookup_lt_Some in Hx. cbn in H. injection H as _ <-. cbn.
  unfold u16_wrap. apply Z.mod_small. lia.
Qed.

Lemma put_option_byte_old_ptr (s s' : rebuild_state) (b : Z) :
  put_option_byte s b = Some s' -> old_ptr s' = old_ptr s.
Proof.
  unfold put_option_byte. destruct (arr_set _ _ _); [|discriminate].
  cbn. intros [= <-]. reflexivity.
Qed.

Lemma copy_data_old_ptr (tmp : list Z) (n : nat) :
  forall s s',
    for_loop n (fun _ s => '(b, s) ← take_option_byte tmp s; put_option_byte s b) s
    = Some s' ->
    0 <= old_ptr s -> Z.of_nat (length tmp) < 2 ^ 16 ->
    old_ptr s <= old_ptr s'.
Proof.
  induction n as [|n IH]; intros s s' H Hnn Hsz.
  - injection H as <-. lia.
  - cbn [for_loop] in H.
    destruct (for_loop n _ s) as [s1|] eqn:H1; [|discriminate].
    specialize (IH s s1 H1 Hnn Hsz). cbn in H.
    destruct (take_option_byte tmp s1) as [[b s2]|] eqn:H2; [|discriminate].
    cbn in H. apply put_option_byte_old_ptr in H.
    apply take_option_byte_ptrs in H2; lia.
Qed.

Lemma add_parameters_old_ptr (n : nat) :
  forall s s',
    for_loop n (fun i s => b ← new_parameters !! i; put_option_byte s b) s = Some s' ->
    old_ptr s' = old_ptr s.
Proof.
  induction n as [|n IH]; intros s s' H.
  - injection H as <-. reflexivity.
  - cbn [for_loop] in H.
    destruct (for_loop n _ s) as [s1|] eqn:H1; [|discriminate].
    specialize (IH s s1 H1). cbn in H.
    destruct (new_parameters !! n); [|discriminate]. cbn in H.
    apply put_option_byte_old_ptr in H. lia.
Qed.

(** A round that completes has read two bytes at least. *)
Lemma rebuild_option_advances (tmp : list Z) (s s' : rebuild_state) :
  rebuild_option tmp s = Some s' ->
  0 <= old_ptr s -> Z.of_nat (length tmp) < 2 ^ 16 ->
  old_ptr s + 2 <= old_ptr s'.
Proof.
  unfold rebuild_option. intros H Hnn Hsz.
  destruct (take_option_byte tmp s) as [[code s1]|] eqn:H1; [|discriminate].
  cbn in H. apply take_option_byte_ptrs in H1; [|lia..].
  destruct (take_option_byte tmp s1) as [[len s2]|] eqn:H2; [|discriminate].
  cbn in H. apply take_option_byte_ptrs in H2; [|lia..].
  destruct (put_option_byte s2 code) as [s3|] eqn:H3; [|discriminate].
  cbn in H. apply put_option_byte_old_ptr in H3.
  destruct (put_option_byte s3 _) as [s4|] eqn:H4; [|discriminate].
  cbn in H. apply put_option_byte_old_ptr in H4.
  destruct (for_loop (Z.to_nat len) _ s4) as [s5|] eqn:H5; [|discriminate].
  cbn in H. apply copy_data_old_ptr in H5; [|lia..].
  destruct (code =? 55).
  - apply add_parameters_old_ptr in H. lia.
  - injection H as <-. lia.
Qed.

Lemma rebuild_options_fuel (tmp : list Z) (orig_len : Z) (fuel : nat) :
  forall (k : nat) (s : rebuild_state),
    0 <= old_ptr s -> Z.of_nat (length tmp) < 2 ^ 16 ->
    orig_len - old_ptr s <= 2 * Z.of_nat fuel ->
    rebuild_options (fuel + k) tmp orig_len s = rebuild_options fuel tmp orig_len s.
Proof.
  induction fuel as [|fuel IH]; intros k s Hnn Hsz Hleft.
  - cbn [Nat.add]. destruct k; cbn [rebuild_options];
      destruct (Z.ltb_spec (old_ptr s) orig_len); (reflexivity || lia).
  - cbn [Nat.add rebuild_options].
    destruct (Z.ltb_spec (old_ptr s) orig_len); [|reflexivity].
    destruct (rebuild_option tmp s) as [s'|] eqn:Hstep; [|reflexivity].
    cbn. pose proof (rebuild_option_advances tmp s s' Hstep Hnn Hsz).
    apply IH; lia.
Qed.

(** The loop from any state: with fuel for the bytes left, it ends
    with [old_ptr] at [orig_len] or beyond, or one of its rounds does
    not complete. *)
Lemma rebuild_options_ends (tmp : list Z) (orig_len : Z) (fuel : nat) :
  forall s : rebuild_state,
    0 <= old_ptr s -> Z.of_nat (length tmp) < 2 ^ 16 ->
    orig_len - old_ptr s <= 2 * Z.of_nat fuel ->
    match rebuild_options fuel tmp orig_len s with
    | Some s' =>
        orig_len <= old_ptr s'
        /\ exists n, (n <= fuel)%nat /\ loop_rounds n tmp orig_len s = Some s'
    | None =>
        exists n s1,
          (n < fuel)%nat /\ loop_rounds n tmp orig_len s = Some s1
          /\ old_ptr s1 < orig_len /\ rebuild_option tmp s1 = None
    end.
Proof.
  induction fuel as [|fuel IH]; intros s Hnn Hsz Hleft; cbn [rebuild_options].
  - destruct (Z.ltb_spec (old_ptr s) orig_len); [lia|].
    split; [lia|]. exists O. split; [lia | reflexivity].
  - destruct (Z.ltb_spec (old_ptr s) orig_len) as [Hlt|Hge].
    2:{ split; [lia|]. exists O. split; [lia | reflexivity]. }
    destruct (rebuild_option tmp s) as [s1|] eqn:Hstep.
    + cbn [mbind option_bind].
      pose proof (rebuild_option_advances tmp s s1 Hstep Hnn Hsz) as Hadv.
      specialize (IH s1 ltac:(lia) Hsz ltac:(lia)).
      assert (loop_rounds_S : forall n r,
                loop_rounds n tmp orig_len s1 = r ->
                loop_rounds (S n) tmp orig_len s = r).
      { intros n r Hr. cbn [loop_rounds].
        apply Z.ltb_lt in Hlt. rewrite Hlt, Hstep. exact Hr. }
      destruct (rebuild_options fuel tmp orig_len s1) as [s'|].
      * destruct IH as (Hend & n & Hn & Hrun). split; [exact Hend|].
        exists (S n). split; [lia | apply loop_rounds_S; exact Hrun].
      * destruct IH as (n & s2 & Hn & Hrun & Hlt2 & Hfault).
        exists (S n), s2. split; [lia|]. split; [apply loop_rounds_S; exact Hrun|].
        split; assumption.
    + cbn [mbind option_bind]. exists O, s.
      split; [lia|]. split; [reflexivity|]. split; assumption.
Qed.

(** X3: the loop of the hook always comes to an end.  A round that
    completes reads two bytes or more; so, whatever the bytes of the
    message, [options_len] rounds are room enough: the loop either ends
    within them, with [old_ptr] at [options_len] or beyond, or it
    reaches, within them, a round in which an access falls outside the
    options; it never runs for want of an end, and more rounds change
    nothing. *)
Theorem dhcp_add_hook_terminates (tmp msg : list Z) (orig_len : Z) (k : nat) :
  Z.of_nat (length tmp) < 2 ^ 16 ->
  let init := mkRebuild 0 0 msg in
  (forall s s' : rebuild_state,
     0 <= old_ptr s -> rebuild_option tmp s = Some s' ->
     old_ptr s + 2 <= old_ptr s')
  /\ rebuild_options (Z.to_nat orig_len + k) tmp orig_len init
     = rebuild_options (Z.to_nat orig_len) tmp orig_len init
  /\ match rebuild_options (Z.to_nat orig_len) tmp orig_len init with
     | Some s' =>
         orig_len <= old_ptr s'
         /\ exists n, (n <= Z.to_nat orig_len)%nat
                      /\ loop_rounds n tmp orig_len init = Some s'
     | None =>
         exists n s,
           (n < Z.to_nat orig_len)%nat
           /\ loop_rounds n tmp orig_len init = Some s
           /\ old_ptr s < orig_len /\ rebuild_option tmp s = None
     end.
Proof.
  intros Hsz init. split; [|split].
  - intros s s' Hnn Hstep. exact (rebuild_option_advances tmp s s' Hstep Hnn Hsz).
  - apply rebuild_options_fuel; cbn [old_ptr init]; lia.
  - apply rebuild_options_ends; cbn [old_ptr init]; lia.
Qed.

Lemma dhcp_add_hook_terminates_witness :
  let tmp := [53; 1; 3; 55; 1; 6; 0; 0; 0] in
  rebuild_options (6 + 5) tmp 6 (mkRebuild 0 0 tmp)
  = Some (mkRebuild 6 8 [53; 1; 3; 55; 3; 6; 7; 100; 0])
  /\ rebuild_options 7 tmp 7 (mkRebuild 0 0 tmp) = None
  /\ exists n s,
       loop_rounds n tmp 7 (mkRebuild 0 0 tmp) = Some s
       /\ old_ptr s < 7 /\ rebuild_option tmp s = None.
Proof.
  intros tmp.
  destruct (dhcp_add_hook_terminates tmp tmp 6 5) as (_ & Hsame & _);
    [reflexivity|].
  destruct (dhcp_add_hook_terminates tmp tmp 7 0) as (_ & _ & Hend);
    [reflexivity|].
  change (Z.to_nat 6) with 6%nat in Hsame.
  split; [rewrite Hsame; vm_compute; reflexivity|].
  assert (rebuild_options 7 tmp 7 (mkRebuild 0 0 tmp) = None) as Hnone
      by (vm_compute; reflexivity).
  split; [exact Hnone|].
  change (Z.to_nat 7) with 7%nat in Hend. rewrite Hnone in Hend.
  destruct Hend as (n & s & _ & Hrun & Hlt & Hfault).
  exists n, s. repeat split; assumption.
Defined.

(** *** Options received: log server and time zone *)

Lemma memcpy_length (dst src : list Z) (off : Z) (n : nat) (d : list Z) :
  memcpy dst src off n = Some d -> length d = length dst /\ (n <= length dst)%nat.
Proof.
  unfold memcpy. revert d. induction n as [|n IH]; intros d H.
  - injection H as <-. split; [reflexivity | lia].
  - cbn [for_loop] in H.
    destruct (for_loop n _ dst) as [d1|] eqn:H1; [|discriminate].
    destruct (IH d1 eq_refl) as [Hl Hn]. cbn in H.
    destruct (arr_get src (off + Z.of_nat n)) as [b|]; [|discriminate]. cbn in H.
    unfold arr_set in H. destruct (bool_decide (n < length d1)%nat) eqn:Hb; [|discriminate].
    apply bool_decide_eq_true in Hb. injection H as <-.
    rewrite length_insert. split; lia.
Qed.

(** [memcpy] of [n] bytes that are there, into an array that has room. *)
Lemma memcpy_spec (dst src : list Z) (off : Z) (n : nat) :
  0 <= off -> (Z.to_nat off + n <= length src)%nat -> (n <= length dst)%nat ->
  memcpy dst src off n = Some (take n (drop (Z.to_nat off) src) ++ drop n dst).
Proof.
  intros Hoff Hsrc Hdst. unfold memcpy.
  destruct (for_loop_fill (fun i => arr_get src (off + Z.of_nat i)) n dst Hdst)
    as (d & Hrun & Hlen & Hlo & Hhi).
  - intros i Hi. unfold arr_get. rewrite bool_decide_true by lia.
    apply lookup_lt_is_Some. lia.
  - rewrite Hrun. f_equal. apply list_eq. intros i.
    destruct (decide (i < n)%nat) as [Hi|Hi].
    + rewrite (Hlo i Hi). unfold arr_get. rewrite bool_decide_true by lia.
      rewrite lookup_app_l by (rewrite length_take, length_drop; lia).
      rewrite lookup_take_lt by lia. rewrite lookup_drop. f_equal. lia.
    + rewrite (Hhi i ltac:(lia)).
      rewrite lookup_app_r by (rewrite length_take, length_drop; lia).
      rewrite length_take, length_drop, lookup_drop. f_equal. lia.
Qed.

Lemma c_string_of_app (v rest : list Z) :
  c_string_of (v ++ 0 :: rest) = c_string_of (v ++ [0]).
Proof.
  induction v as [|b r IH]; [reflexivity|]. cbn. destruct (b =? 0); [reflexivity|].
  rewrite IH. reflexivity.
Qed.

(** X4: a time zone (option 100) of 1 to 63 bytes in an ACK is copied
    into [timezone] with a NUL after it, and TZ is set to it, up to its
    first NUL if it has one; with 64 bytes or more the hook writes
    outside the 64 bytes of [timezone]: nothing bounds the length. *)
Theorem dhcp_parse_hook_timezone (option_len : Z) (payload : list Z) (off : Z)
    (setenv_ok : bool) (st : net_state) :
  length (timezone st) = 64%nat -> 0 < option_len ->
  (option_len < 64 -> 0 <= off -> off + option_len <= Z.of_nat (length payload) ->
     let value := take (Z.to_nat option_len) (drop (Z.to_nat off) payload) in
     exists st',
       pico_dhcp_option_parse_hook DHCP_ACK 100 option_len payload off setenv_ok st
       = Some st'
       /\ timezone st' = value ++ 0 :: drop (S (Z.to_nat option_len)) (timezone st)
       /\ env_TZ st' = (if setenv_ok then Some (c_string_of (value ++ [0]))
                        else env_TZ st)
       /\ syslog_server st' = syslog_server st
       /\ network_initialized st' = network_initialized st
       /\ syslog_open_calls st' = syslog_open_calls st)
  /\ (64 <= option_len ->
      pico_dhcp_option_parse_hook DHCP_ACK 100 option_len payload off setenv_ok st
      = None).
Proof.
  intros Htz Hpos. unfold pico_dhcp_option_parse_hook.
  rewrite Z.eqb_refl. cbn [negb]. change (100 =? 7) with false. cbn [andb].
  change (100 =? 100) with true.
  destruct (Z.ltb_spec 0 option_len) as [_|]; [|lia]. cbn [andb]. split.
  - intros Hlt Hoff Hpay.
    set (value := take (Z.to_nat option_len) (drop (Z.to_nat off) payload)).
    rewrite (memcpy_spec (timezone st) payload off (Z.to_nat option_len)) by lia.
    fold value. cbn.
    assert (length value = Z.to_nat option_len) as Hv
        by (unfold value; rewrite length_take, length_drop; lia).
    unfold arr_set. rewrite bool_decide_true
      by (rewrite length_app, length_drop, Hv; lia).
    cbn. eexists. split; [reflexivity|]. cbn.
    assert (<[Z.to_nat option_len := 0]> (value ++ drop (Z.to_nat option_len) (timezone st))
            = value ++ 0 :: drop (S (Z.to_nat option_len)) (timezone st)) as ->.
    { destruct (lookup_lt_is_Some_2 (timezone st) (Z.to_nat option_len) ltac:(lia))
        as [x Hx].
      rewrite (drop_S _ x _ Hx). rewrite insert_app_r_alt by lia.
      rewrite Hv, Nat.sub_diag. reflexivity. }
    rewrite c_string_of_app. repeat split; reflexivity.
  - intros Hge.
    destruct (memcpy (timezone st) payload off (Z.to_nat option_len)) as [tz|] eqn:Hm;
      [|reflexivity].
    apply memcpy_length in Hm. destruct Hm as [Hl _]. cbn.
    unfold arr_set. rewrite bool_decide_false by lia. reflexivity.
Qed.

Lemma dhcp_parse_hook_timezone_witness :
  let st := mkNet false 0 (replicate 64 65) None 0 [0; 0; 0; 0; 0; 0] "" in
  exists st',
    pico_dhcp_option_parse_hook DHCP_ACK 100 3 [1; 2; 69; 83; 84; 9] 2 true st
    = Some st'
    /\ env_TZ st' = Some [69; 83; 84].
Proof.
  intros st.
  destruct (dhcp_parse_hook_timezone 3 [1; 2; 69; 83; 84; 9] 2 true st)
    as [H _]; [reflexivity | lia |].
  destruct H as (st' & Hrun & _ & Henv & _); [lia | lia | cbn; lia |].
  exists st'. split; [exact Hrun | exact Henv].
Defined.

(** What the parse hook never touches. *)
Lemma parse_hook_keeps (msg_type opt option_len : Z) (payload : list Z) (off : Z)
    (ok : bool) (st st' : net_state) :
  pico_dhcp_option_parse_hook msg_type opt option_len payload off ok st = Some st' ->
  network_initialized st' = network_initialized st
  /\ syslog_open_calls st' = syslog_open_calls st
  /\ cyw43_mac st' = cyw43_mac st
  /\ stdout st' = stdout st
  /\ (syslog_server st <> 0 -> syslog_server st' = syslog_server st).
Proof.
  unfold pico_dhcp_option_parse_hook. intros H.
  destruct (negb (msg_type =? DHCP_ACK)); [injection H as <-; auto 10|].
  destruct ((opt =? 7) && (4 <=? option_len)).
  - destruct (arr_get payload off); [|discriminate].
    destruct (arr_get payload (off + 1)); [|discriminate].
    destruct (arr_get payload (off + 2)); [|discriminate].
    destruct (arr_get payload (off + 3)); [|discriminate]. cbn in H.
    destruct (Z.eqb_spec (syslog_server st) 0) as [Hz|Hnz];
      injection H as <-; cbn; auto 10.
    repeat split; try reflexivity. intros Hne. contradiction.
  - destruct ((opt =? 100) && (0 <? option_len)); [|injection H as <-; auto 10].
    destruct (memcpy _ _ _ _); [|discriminate]. cbn in H.
    destruct (arr_set _ _ _); [|discriminate]. cbn in H.
    injection H as <-. cbn. auto 10.
Qed.

(** X5: a log server (option 7, four bytes or more) in an ACK is taken
    when none is set (address 0) and ignored otherwise; so over any
    sequence of status callbacks and DHCP options a log server that is
    set is never replaced. *)
Theorem syslog_server_kept (evs : list net_event) (st : net_state) :
  (forall option_len payload off ok b0 b1 b2 b3,
     4 <= option_len -> 0 <= off ->
     payload !! Z.to_nat off = Some b0 ->
     payload !! Z.to_nat (off + 1) = Some b1 ->
     payload !! Z.to_nat (off + 2) = Some b2 ->
     payload !! Z.to_nat (off + 3) = Some b3 ->
     exists st',
       pico_dhcp_option_parse_hook DHCP_ACK 7 option_len payload off ok st = Some st'
       /\ syslog_server st'
          = (if syslog_server st =? 0 then le32 b0 b1 b2 b3 else syslog_server st)
       /\ env_TZ st' = env_TZ st /\ timezone st' = timezone st)
  /\ (forall st',
        net_run evs st = Some st' -> syslog_server st <> 0 ->
        syslog_server st' = syslog_server st).
Proof.
  split.
  - intros option_len payload off ok b0 b1 b2 b3 Hlen Hoff H0 H1 H2 H3.
    unfold pico_dhcp_option_parse_hook. rewrite Z.eqb_refl. cbn [negb].
    change (7 =? 7) with true. destruct (Z.leb_spec 4 option_len); [|lia].
    cbn [andb]. unfold arr_get. rewrite !bool_decide_true by lia.
    rewrite H0, H1, H2, H3. cbn.
    destruct (syslog_server st =? 0); eexists; (split; [reflexivity|]); cbn; auto.
  - revert st. induction evs as [|ev rest IH]; intros st st' Hrun Hne.
    + injection Hrun as <-. reflexivity.
    + cbn [net_run] in Hrun.
      destruct (net_step ev st) as [st1|] eqn:Hstep; [|discriminate]. cbn in Hrun.
      assert (syslog_server st1 = syslog_server st) as Heq.
      { destruct ev as [up|mt opt len payload off ok]; cbn [net_step] in Hstep.
        - injection Hstep as <-. unfold wifi_status_cb.
          destruct (up && negb (network_initialized st)); reflexivity.
        - apply parse_hook_keeps in Hstep. apply Hstep. exact Hne. }
      rewrite <- Heq. apply IH; [exact Hrun | rewrite Heq; exact Hne].
Qed.

Lemma syslog_server_kept_witness :
  let st := mkNet false 16885952 (replicate 64 0) None 0 [0; 0; 0; 0; 0; 0] "" in
  let evs := [EvDhcpOption DHCP_ACK 7 4 [10; 0; 0; 9] 0 true; EvStatus true] in
  exists st', net_run evs st = Some st' /\ syslog_server st' = 16885952.
Proof.
  intros st evs. exists (default st (net_run evs st)).
  split; [vm_compute; reflexivity|].
  destruct (syslog_server_kept evs st) as [_ H].
  apply (H (default st (net_run evs st))); [vm_compute; reflexivity|].
  cbn. lia.
Defined.

(** X6: over any sequence of status callbacks and DHCP options,
    [syslog_open] is called once, at the first callback that finds the
    interface up, and never again; [network_initialized] is set from
    then on. *)
Theorem syslog_opened_once (evs : list net_event) (st st' : net_state) :
  net_run evs st = Some st' ->
  network_initialized st' = network_initialized st || existsb is_up_event evs
  /\ syslog_open_calls st'
     = (syslog_open_calls st
        + (if negb (network_initialized st) && existsb is_up_event evs then 1 else 0))%nat.
Proof.
  revert st. induction evs as [|ev rest IH]; intros st Hrun.
  - injection Hrun as <-. cbn. rewrite orb_false_r, andb_false_r. split; [reflexivity | lia].
  - cbn [net_run] in Hrun.
    destruct (net_step ev st) as [st1|] eqn:Hstep; [|discriminate]. cbn in Hrun.
    destruct (IH st1 Hrun) as [Hn Hc]. rewrite Hn, Hc. cbn [existsb].
    destruct ev as [up|mt opt len payload off ok]; cbn [net_step is_up_event] in *.
    + injection Hstep as <-. unfold wifi_status_cb.
      destruct up, (network_initialized st) eqn:Eni; cbn;
        destruct (existsb is_up_event rest); cbn; rewrite ?Eni; cbn;
        split; (reflexivity || lia).
    + apply parse_hook_keeps in Hstep. destruct Hstep as (-> & -> & _).
      split; reflexivity.
Qed.

Lemma syslog_opened_once_witness :
  let st := mkNet false 0 (replicate 64 0) None 0 [0; 0; 0; 0; 0; 0] "" in
  let evs := [EvStatus false; EvStatus true; EvStatus false; EvStatus true] in
  exists st', net_run evs st = Some st' /\ syslog_open_calls st' = 1%nat.
Proof.
  intros st evs. exists (default st (net_run evs st)).
  split; [vm_compute; reflexivity|].
  destruct (syslog_opened_once evs st (default st (net_run evs st))) as [_ H];
    [vm_compute; reflexivity|].
  exact H.
Defined.

(** *** The MAC address as text *)

Lemma hex_digit_inj (d1 d2 : Z) :
  0 <= d1 < 16 -> 0 <= d2 < 16 -> hex_digit d1 = hex_digit d2 -> d1 = d2.
Proof.
  intros H1 H2 Heq. apply (f_equal N_of_ascii) in Heq. unfold hex_digit in Heq.
  destruct (Z.ltb_spec d1 10), (Z.ltb_spec d2 10);
    rewrite !N_ascii_embedding in Heq by lia; lia.
Qed.

Lemma format_02x_inj (b1 b2 : Z) :
  0 <= b1 < 256 -> 0 <= b2 < 256 -> format_02x b1 = format_02x b2 -> b1 = b2.
Proof.
  intros H1 H2 Heq. unfold format_02x in Heq. injection Heq as Hh Hl.
  pose proof (Z.div_mod b1 16 ltac:(lia)). pose proof (Z.div_mod b2 16 ltac:(lia)).
  pose proof (Z.mod_pos_bound b1 16 ltac:(lia)).
  pose proof (Z.mod_pos_bound b2 16 ltac:(lia)).
  apply hex_digit_inj in Hh; [|lia..]. apply hex_digit_inj in Hl; [|lia..].
  lia.
Qed.

Lemma string_append_assoc (a b c : string) :
  ((a ++ b) ++ c = a ++ (b ++ c))%string.
Proof.
  induction a as [|x a IH]; cbn; [reflexivity|]. rewrite IH. reflexivity.
Qed.

Lemma print_print (a b : string) (st : net_state) :
  print b (print a st) = print (a ++ b) st.
Proof.
  unfold print. cbn. rewrite string_append_assoc. reflexivity.
Qed.

Lemma cyw43_mac_print (out : string) (st : net_state) :
  cyw43_mac (print out st) = cyw43_mac st.
Proof. reflexivity. Qed.

Lemma for_loop_S {St : Type} (k : nat) (body : nat -> St -> option St) (s : St) :
  for_loop (S k) body s = for_loop k body s ≫= body k.
Proof. reflexivity. Qed.

Lemma bind_Some {A B : Type} (x : A) (f : A -> option B) : Some x ≫= f = f x.
Proof. reflexivity. Qed.

Lemma wifi_mac_closed (st : net_state) :
  length (cyw43_mac st) = 6%nat ->
  exists a b c d e f,
    cyw43_mac st = [a; b; c; d; e; f]
    /\ wifi_mac st
       = Some (print (format_02x a ++ ":" ++ format_02x b ++ ":" ++ format_02x c
                      ++ ":" ++ format_02x d ++ ":" ++ format_02x e ++ ":"
                      ++ format_02x f ++ newline)%string st).
Proof.
  intros Hlen.
  destruct (cyw43_mac st) as [|a [|b [|c [|d [|e [|f [|]]]]]]] eqn:Hm;
    try discriminate.
  exists a, b, c, d, e, f. split; [reflexivity|].
  unfold wifi_mac.
  match goal with |- context [for_loop 6 ?g _] => set (body := g) end.
  assert (forall (i : nat) (x : Z),
            (i < 5)%nat -> [a; b; c; d; e; f] !! i = Some x ->
            body i st = Some (print (format_02x x ++ ":") st)) as Hfirst.
  { intros i x Hi Hx. unfold body. rewrite Hm, Hx, bind_Some.
    apply Nat.ltb_lt in Hi. rewrite Hi, print_print. reflexivity. }
  assert (forall (i : nat) (x : Z) (out : string),
            (i < 5)%nat -> [a; b; c; d; e; f] !! i = Some x ->
            body i (print out st)
            = Some (print (out ++ format_02x x ++ ":") st)) as Hmid.
  { intros i x out Hi Hx. unfold body. rewrite cyw43_mac_print, Hm, Hx, bind_Some.
    apply Nat.ltb_lt in Hi. rewrite Hi, !print_print, ?string_append_assoc.
    reflexivity. }
  assert (forall (x : Z) (out : string),
            [a; b; c; d; e; f] !! 5%nat = Some x ->
            body 5%nat (print out st) = Some (print (out ++ format_02x x) st))
    as Hlast.
  { intros x out Hx. unfold body. rewrite cyw43_mac_print, Hm, Hx, bind_Some.
    cbn [Nat.ltb Nat.leb]. rewrite print_print. reflexivity. }
  rewrite !for_loop_S. change (for_loop 0 body st) with (Some st).
  rewrite bind_Some, (Hfirst 0%nat a) by (reflexivity || lia).
  rewrite bind_Some, (Hmid 1%nat b) by (reflexivity || lia).
  rewrite bind_Some, (Hmid 2%nat c) by (reflexivity || lia).
  rewrite bind_Some, (Hmid 3%nat d) by (reflexivity || lia).
  rewrite bind_Some, (Hmid 4%nat e) by (reflexivity || lia).
  rewrite bind_Some, (Hlast f) by reflexivity.
  rewrite bind_Some, print_print, ?string_append_assoc. reflexivity.
Qed.

(** X7: [wifi_mac] prints the six bytes of the address as two
    hexadecimal digits each, with colons between them and a newline at
    the end, 18 characters in all, and different addresses print
    differently. *)
Theorem wifi_mac_text (st1 st2 : net_state) :
  mac_wf (cyw43_mac st1) -> mac_wf (cyw43_mac st2) ->
  exists t1 t2,
    wifi_mac st1 = Some (print t1 st1) /\ wifi_mac st2 = Some (print t2 st2)
    /\ String.length t1 = 18%nat
    /\ (exists a b c d e f,
          cyw43_mac st1 = [a; b; c; d; e; f]
          /\ t1 = (format_02x a ++ ":" ++ format_02x b ++ ":" ++ format_02x c ++ ":"
                   ++ format_02x d ++ ":" ++ format_02x e ++ ":" ++ format_02x f
                   ++ newline)%string)
    /\ (t1 = t2 -> cyw43_mac st1 = cyw43_mac st2).
Proof.
  intros [Hl1 Hb1] [Hl2 Hb2].
  destruct (wifi_mac_closed st1 Hl1) as (a1 & b1 & c1 & d1 & e1 & f1 & Hm1 & Hr1).
  destruct (wifi_mac_closed st2 Hl2) as (a2 & b2 & c2 & d2 & e2 & f2 & Hm2 & Hr2).
  eexists. eexists. split; [exact Hr1|]. split; [exact Hr2|]. split.
  { unfold format_02x, newline. cbn [String.append String.length]. reflexivity. }
  split.
  { exists a1, b1, c1, d1, e1, f1. split; [exact Hm1 | reflexivity]. }
  rewrite Hm1 in Hb1 |- *. rewrite Hm2 in Hb2 |- *.
  unfold format_02x, newline. cbn [String.append].
  intros Heq. injection Heq as Ha Ha' Hb Hb' Hc Hc' Hd Hd' He He' Hf Hf'.
  repeat match goal with
         | H : Forall _ (_ :: _) |- _ => apply Forall_cons in H; destruct H
         end.
  repeat f_equal; apply format_02x_inj; try lia; unfold format_02x; congruence.
Qed.

Lemma wifi_mac_text_witness :
  let st := mkNet false 0 (replicate 64 0) None 0 [0; 17; 171; 255; 1; 2] "" in
  exists t, wifi_mac st = Some (print t st) /\ String.length t = 18%nat.
Proof.
  intros st.
  destruct (wifi_mac_text st st) as (t1 & _ & H1 & _ & Hlen & _).
  - split; [reflexivity|]. repeat constructor; lia.
  - split; [reflexivity|]. repeat constructor; lia.
  - exists t1. split; assumption.
Defined.

(** ** More on the filters *)

(** X8: the two name conversions agree: the name [pwm_filter2str]
    gives for a known selector is resolved back to that selector by
    [str2pwm_filter]; and whatever text is resolved, the selector found
    has a name, which resolves to the same selector. *)
Theorem filter_names_round_trip (str_to_float : string -> option float32) :
  (forall sel, sel = FILTER_NONE \/ sel = FILTER_LOSSYPEAK ->
     exists n,
       pwm_filter2str str_to_float sel = Some n
       /\ str2pwm_filter str_to_float n = Some sel)
  /\ (forall s, exists sel n,
        str2pwm_filter str_to_float s = Some sel
        /\ (sel = FILTER_NONE \/ sel = FILTER_LOSSYPEAK)
        /\ pwm_filter2str str_to_float sel = Some n
        /\ str2pwm_filter str_to_float n = Some sel).
Proof.
  split.
  - intros sel [-> | ->]; eexists; split; reflexivity.
  - intros s. unfold str2pwm_filter. cbn [filters str2pwm_filter_from name].
    destruct (strcasecmp s "none" =? 0).
    + exists FILTER_NONE. eexists. repeat split; try reflexivity. left; reflexivity.
    + destruct (strcasecmp s "lossypeak" =? 0).
      * exists FILTER_LOSSYPEAK. eexists. repeat split; try reflexivity.
        right; reflexivity.
      * exists FILTER_NONE. eexists. repeat split; try reflexivity. left; reflexivity.
Qed.

Lemma filter_names_round_trip_witness :
  exists n,
    pwm_filter2str str_to_float_sample FILTER_LOSSYPEAK = Some n
    /\ str2pwm_filter str_to_float_sample n = Some FILTER_LOSSYPEAK.
Proof.
  destruct (filter_names_round_trip str_to_float_sample) as [H _].
  apply (H FILTER_LOSSYPEAK). right. reflexivity.
Defined.

(** One call of the transform leaves the configuration alone. *)
Lemma lossy_peak_filter_frame (t_now : Z) (c : lossypeak_context) (input : float32) :
  let c' := fst (lossy_peak_filter t_now c input) in
  delay_us c' = delay_us c /\ decay c' = decay c /\ last_t c' = t_now.
Proof.
  unfold lossy_peak_filter. destruct (f_ge input (peak c)); cbn; [auto|].
  destruct (hold_check c t_now _); cbn. auto.
Qed.

(** X9: the transform never changes the parameters of a context:
    through any run of calls the hold delay and the decay rate are
    those the context started with, one value is returned for each
    sample, the time of the last update is the time of the last call
    and the value returned last is the peak the context holds. *)
Theorem lossy_peak_parameters_kept (samples : list (Z * float32))
    (c : lossypeak_context) :
  delay_us (fst (lossy_peak_run samples c)) = delay_us c
  /\ decay (fst (lossy_peak_run samples c)) = decay c
  /\ length (snd (lossy_peak_run samples c)) = length samples
  /\ (forall t x rest, samples = rest ++ [(t, x)] ->
        last_t (fst (lossy_peak_run samples c)) = t
        /\ last (snd (lossy_peak_run samples c))
           = Some (peak (fst (lossy_peak_run samples c)))).
Proof.
  revert c. induction samples as [|[t x] rest IH]; intros c.
  - cbn. do 3 (split; [reflexivity|]). intros t0 x0 rest0 H0. destruct rest0; discriminate.
  - cbn [lossy_peak_run].
    pose proof (lossy_peak_filter_frame t c x) as (Hd & Hr & Hl).
    assert (snd (lossy_peak_filter t c x) = peak (fst (lossy_peak_filter t c x)))
      as Hret by reflexivity.
    destruct (lossy_peak_filter t c x) as [c1 r]. cbn [fst snd] in *.
    destruct (IH c1) as (IHd & IHr & IHn & IHl).
    destruct (lossy_peak_run rest c1) as [c2 rs] eqn:Hrun. cbn [fst snd] in *.
    split; [congruence|]. split; [congruence|]. split; [cbn; lia|].
    intros t' x' rest' Heq. destruct rest as [|p rest2].
    + destruct rest' as [|? [|]]; try discriminate. injection Heq as <- <-.
      cbn in Hrun. injection Hrun as <- <-. cbn. split; congruence.
    + destruct rest' as [|q rest']; [discriminate|]. injection Heq as <- Heq.
      destruct (IHl t' x' rest' Heq) as [Hlt Hlast]. split; [exact Hlt|].
      destruct rs as [|r0 rs]; [cbn in IHn; discriminate|].
      rewrite last_cons_cons. exact Hlast.
Qed.

Lemma lossy_peak_parameters_kept_witness :
  let c := mkCtx (f32_of_Z 10) 500000 (f32_of_Z 2) 0 0 0 in
  let samples := [(100, f32_of_Z 4); (700000, f32_of_Z 3)] in
  delay_us (fst (lossy_peak_run samples c)) = 500000
  /\ last_t (fst (lossy_peak_run samples c)) = 700000.
Proof.
  intros c samples.
  destruct (lossy_peak_parameters_kept samples c) as (Hd & _ & _ & Hl).
  split; [exact Hd|].
  exact (proj1 (Hl 700000 (f32_of_Z 3) [(100, f32_of_Z 4)] eq_refl)).
Defined.

(** X10: the hold window.  A sample below the peak, while tracking with
    a hold delay above zero: as long as no more than the delay has
    passed since the peak was taken, the peak is returned and nothing
    but the time of the last update changes; once more has passed, the
    context goes to decaying and what is taken off the peak is the decay
    rate times the excess over the delay only.  While decaying, it is
    the decay rate times the time since the previous call. *)
Theorem lossy_peak_hold_window (t_now : Z) (c : lossypeak_context) (input : float32) :
  f_ge input (peak c) = false ->
  let since_peak := absolute_time_diff_us (peak_t c) t_now in
  let c' := fst (lossy_peak_filter t_now c input) in
  (state c = 0 -> 0 < delay_us c -> since_peak <= delay_us c ->
     c' = mkCtx (peak c) (delay_us c) (decay c) t_now (peak_t c) 0
     /\ snd (lossy_peak_filter t_now c input) = peak c)
  /\ (state c = 0 -> 0 < delay_us c -> delay_us c < since_peak ->
      state c' = 1 /\ peak_t c' = peak_t c
      /\ peak c' = decay_step c 1 (since_peak - delay_us c) input)
  /\ (state c = 1 ->
      state c' = 1 /\ peak_t c' = peak_t c
      /\ peak c' = decay_step c 1 (absolute_time_diff_us (last_t c) t_now) input).
Proof.
  intros Hlt since_peak c'. subst c'. unfold lossy_peak_filter, hold_check.
  rewrite Hlt. fold since_peak. split; [|split].
  - intros Hs Hd Hin. rewrite Hs. cbn [Z.eqb].
    destruct (Z.ltb_spec 0 (delay_us c)); [|lia].
    destruct (Z.ltb_spec (delay_us c) since_peak); [lia|].
    unfold decay_step. cbn. split; reflexivity.
  - intros Hs Hd Hout. rewrite Hs. cbn [Z.eqb].
    destruct (Z.ltb_spec 0 (delay_us c)); [|lia].
    destruct (Z.ltb_spec (delay_us c) since_peak); [|lia]. cbn. auto.
  - intros Hs. rewrite Hs. cbn. auto.
Qed.

Lemma lossy_peak_hold_window_witness :
  let c := mkCtx (f32_of_Z 10) 500000 (f32_of_Z 2) 100000 100000 0 in
  snd (lossy_peak_filter 600000 c (f32_of_Z 4)) = f32_of_Z 10
  /\ peak (fst (lossy_peak_filter 1100000 c (f32_of_Z 4))) = f32_of_Z 9.
Proof.
  intros c.
  destruct (lossy_peak_hold_window 600000 c (f32_of_Z 4)) as (H1 & _);
    [reflexivity|].
  destruct (lossy_peak_hold_window 1100000 c (f32_of_Z 4)) as (_ & H2 & _);
    [reflexivity|].
  split.
  - apply H1; [reflexivity | reflexivity | vm_compute; discriminate].
  - destruct H2 as (_ & _ & Hp); [reflexivity | reflexivity | reflexivity |].
    rewrite Hp. vm_compute. reflexivity.
Defined.

(** X11: a hold delay below zero acts as a hold delay of zero: the
    code only asks whether the delay is above zero. *)
Theorem lossy_peak_negative_delay (t_now : Z) (c : lossypeak_context)
    (input : float32) :
  delay_us c <= 0 ->
  let c0 := mkCtx (peak c) 0 (decay c) (last_t c) (peak_t c) (state c) in
  snd (lossy_peak_filter t_now c input) = snd (lossy_peak_filter t_now c0 input)
  /\ peak (fst (lossy_peak_filter t_now c input))
     = peak (fst (lossy_peak_filter t_now c0 input))
  /\ state (fst (lossy_peak_filter t_now c input))
     = state (fst (lossy_peak_filter t_now c0 input))
  /\ peak_t (fst (lossy_peak_filter t_now c input))
     = peak_t (fst (lossy_peak_filter t_now c0 input))
  /\ delay_us (fst (lossy_peak_filter t_now c input)) = delay_us c.
Proof.
  intros Hd c0. unfold lossy_peak_filter, hold_check. cbn [peak delay_us decay last_t peak_t state c0].
  destruct (f_ge input (peak c)); [cbn; auto|].
  destruct (Z.ltb_spec 0 (delay_us c)); [lia|]. cbn [Z.ltb Z.compare].
  destruct (state c =? 0); cbn; auto.
Qed.

Lemma lossy_peak_negative_delay_witness :
  let c := mkCtx (f32_of_Z 10) (-250000) (f32_of_Z 2) 0 0 0 in
  snd (lossy_peak_filter 1000000 c f32_zero) = f32_of_Z 8.
Proof.
  intros c.
  destruct (lossy_peak_negative_delay 1000000 c f32_zero) as (H & _);
    [cbn; lia|].
  rewrite H. vm_compute. reflexivity.
Defined.

(** The dispatcher, on the selector of the lossy peak filter. *)
Lemma filter_lossypeak (str_to_float : string -> option float32) (t : Z)
    (c : lossypeak_context) (x : float32) :
  filter str_to_float FILTER_LOSSYPEAK t (Some c) x
  = Some (Some (fst (lossy_peak_filter t c x)), snd (lossy_peak_filter t c x)).
Proof.
  unfold filter, FILTER_LOSSYPEAK, arr_get. rewrite bool_decide_true by lia.
  replace (filters str_to_float !! Z.to_nat 1)
    with (Some (mkEntry (Some "lossypeak"%string)
                  (Some (lossy_peak_parse_args str_to_float))
                  (Some lossy_peak_print_args_ptr) (Some lossy_peak_filter_ptr)))
    by reflexivity.
  cbn [mbind option_bind filter_func]. unfold lossy_peak_filter_ptr.
  cbn [mbind option_bind]. destruct (lossy_peak_filter t c x). reflexivity.
Qed.

(** X12: creating a context and applying the filter to it.  A context
    that creation returns starts with peak 0, tracking, the time of the
    peak being 0 (system start): through the dispatcher, a first sample
    that is 0 or more is returned as it is and becomes the peak; a first
    sample below 0 taken no later than the hold delay after system
    start is answered with 0, the initial peak. *)
Theorem create_then_apply (str_to_float : string -> option float32) (now : Z)
    (args : option string) (h h' : heap) (c : lossypeak_context) :
  lossy_peak_parse_args str_to_float now args h = Some (Some c, h') ->
  forall (t : Z) (x : float32),
    (f_ge x f32_zero = true ->
       filter str_to_float FILTER_LOSSYPEAK t (Some c) x
       = Some (Some (mkCtx x (delay_us c) (decay c) t t 0), x))
    /\ (f_ge x f32_zero = false -> 0 < delay_us c -> to_int64 t <= delay_us c ->
        filter str_to_float FILTER_LOSSYPEAK t (Some c) x
        = Some (Some (mkCtx f32_zero (delay_us c) (decay c) t 0 0), f32_zero)).
Proof.
  intros Hparse t x.
  assert (peak c = f32_zero /\ state c = 0 /\ peak_t c = 0) as (Hp & Hs & Ht).
  { destruct args as [a|]; [|discriminate].
    rewrite lossy_peak_parse_args_fields in Hparse.
    destruct (comma_fields a) as [|f1 [|f2 fs]]; try discriminate.
    destruct (str_to_float f1); [|discriminate].
    destruct (str_to_float f2); [|discriminate].
    destruct (heap_avail h); [discriminate|].
    destruct (f32_to_int64 _); [|discriminate].
    injection Hparse as <- _. auto. }
  rewrite filter_lossypeak.
  destruct c as [p d r lt pt s]. cbn [peak state peak_t delay_us decay] in *.
  subst p s pt. unfold lossy_peak_filter, hold_check.
  cbn [peak state peak_t delay_us decay last_t Z.eqb]. split.
  - intros Hge. rewrite Hge. reflexivity.
  - intros Hlt Hd Hin. rewrite Hlt.
    destruct (Z.ltb_spec 0 d); [|lia].
    unfold absolute_time_diff_us. rewrite Z.sub_0_r.
    destruct (Z.ltb_spec d (to_int64 t)); [lia|]. reflexivity.
Qed.

Lemma create_then_apply_witness :
  exists c h',
    lossy_peak_parse_args str_to_float_sample 7 (Some "2,3"%string) (mkHeap 0 1)
    = Some (Some c, h')
    /\ filter str_to_float_sample FILTER_LOSSYPEAK 9 (Some c) (f32_of_Z 5)
       = Some (Some (mkCtx (f32_of_Z 5) 3000000 (f32_of_Z 2) 9 9 0), f32_of_Z 5).
Proof.
  eexists. eexists. split; [vm_compute; reflexivity|].
  refine (proj1 (create_then_apply str_to_float_sample 7 (Some "2,3"%string)
                   (mkHeap 0 1) _ _ _ 9 (f32_of_Z 5)) _).
  - vm_compute. reflexivity.
  - reflexivity.
Defined.

(** X13: creation reads the first two fields that are not empty and
    nothing else: commas at the start, commas in a row and any further
    field make no difference to the context created. *)
Theorem lossy_peak_parse_args_first_two (str_to_float : string -> option float32)
    (now : Z) (h : heap) (a b f1 f2 : string) (r1 r2 : list string) :
  comma_fields a = f1 :: f2 :: r1 -> comma_fields b = f1 :: f2 :: r2 ->
  lossy_peak_parse_args str_to_float now (Some a) h
  = lossy_peak_parse_args str_to_float now (Some b) h.
Proof.
  intros Ha Hb. rewrite !lossy_peak_parse_args_fields, Ha, Hb. reflexivity.
Qed.

Lemma lossy_peak_parse_args_first_two_witness :
  lossy_peak_parse_args str_to_float_sample 7 (Some ",,2,,3,junk,"%string) (mkHeap 0 1)
  = lossy_peak_parse_args str_to_float_sample 7 (Some "2,3"%string) (mkHeap 0 1).
Proof.
  apply (lossy_peak_parse_args_first_two str_to_float_sample 7 (mkHeap 0 1)
           ",,2,,3,junk," "2,3" "2" "3" ["junk"%string] []); reflexivity.
Defined.

(** ** More on the tachometer *)

(** X14: polling is throttled.  Once a sample has been accepted at
    [t1], every call less than a second after [t1], a second call at
    [t1] itself included, returns the state as that sample left it. *)
Theorem update_tacho_throttled (n : nat) (t1 : Z) (st : tacho_state) :
  tacho_wf n st ->
  1000000 <= absolute_time_diff_us (fan_tacho_last_read st) t1 ->
  exists st1,
    update_tacho_input_freq n t1 st = Some st1
    /\ update_tacho_input_freq n t1 st1 = Some st1
    /\ forall t2, absolute_time_diff_us t1 t2 < 1000000 ->
         update_tacho_input_freq n t2 st1 = Some st1.
Proof.
  intros Hwf Hd.
  destruct (update_tacho_accepted n t1 st Hwf Hd)
    as (st1 & Hrun & _ & Hlf & Hl & Hr & Hc & _).
  assert (forall t2, absolute_time_diff_us t1 t2 < 1000000 ->
            update_tacho_input_freq n t2 st1 = Some st1) as Hno.
  { intros t2 Hlt. unfold update_tacho_input_freq.
    rewrite (snapshot_loop n (fan_tacho_counters st1))
      by (rewrite Hc; apply Hwf).
    change (Some (fan_tacho_counters st1) ≫= ?f) with (f (fan_tacho_counters st1)).
    cbv beta zeta. rewrite Hr. apply Z.ltb_lt in Hlt. rewrite Hlt. reflexivity. }
  exists st1. split; [exact Hrun|]. split; [|exact Hno].
  apply Hno. unfold absolute_time_diff_us. rewrite Z.sub_diag. reflexivity.
Qed.

Lemma update_tacho_throttled_witness :
  let st := mkTacho (replicate 32 0) [7; 9] [3; 9] 0 [f32_zero; f32_zero] in
  exists st1,
    update_tacho_input_freq 2 2000000 st = Some st1
    /\ update_tacho_input_freq 2 2999999 st1 = Some st1.
Proof.
  intros st.
  destruct (update_tacho_throttled 2 2000000 st) as (st1 & H1 & _ & H2).
  - repeat split.
  - vm_compute. discriminate.
  - exists st1. split; [exact H1|]. apply H2. vm_compute. reflexivity.
Defined.

(** *** Setting up the inputs *)

Lemma insert_replicate_drop {A} (x : A) (k : nat) (l : list A) :
  (k < length l)%nat ->
  <[k := x]> (replicate k x ++ drop k l) = replicate (S k) x ++ drop (S k) l.
Proof.
  intros Hk. apply list_eq. intros j.
  destruct (decide (j = k)) as [->|Hne].
  - rewrite list_lookup_insert_eq
      by (rewrite length_app, length_replicate, length_drop; lia).
    rewrite lookup_app_l by (rewrite length_replicate; lia).
    symmetry. apply lookup_replicate_2. lia.
  - rewrite list_lookup_insert_ne by congruence.
    destruct (decide (j < k)%nat) as [Hlt|Hge].
    + rewrite !lookup_app_l by (rewrite length_replicate; lia).
      rewrite !lookup_replicate_2 by lia. reflexivity.
    + rewrite !lookup_app_r by (rewrite length_replicate; lia).
      rewrite !length_replicate, !lookup_drop. f_equal. lia.
Qed.

(** Whenever the loop returns, the elements it has passed are zero. *)
Lemma setup_loop_zeroed (n : nat) (pins : list Z) (st0 : tacho_state) (k : nat)
    (s : tacho_state) (m0 : list Z) :
  m0 = replicate 32 0 -> tacho_wf n st0 -> (k <= n)%nat ->
  for_loop k (setup_step pins)
    (mkTacho m0 (fan_tacho_counters st0) (fan_tacho_counters_last st0)
       (fan_tacho_last_read st0) (fan_tacho_freq st0)) = Some s ->
  fan_tacho_counters s = replicate k 0 ++ drop k (fan_tacho_counters st0)
  /\ fan_tacho_counters_last s
     = replicate k 0 ++ drop k (fan_tacho_counters_last st0)
  /\ fan_tacho_freq s = replicate k f32_zero ++ drop k (fan_tacho_freq st0).
Proof.
  intros Hm0 (Hc & Hl & Hf). revert s. induction k as [|k IH]; intros s Hk Hrun.
  - injection Hrun as <-. cbn. rewrite !drop_0. auto.
  - cbn [for_loop] in Hrun.
    destruct (for_loop k _ _) as [s1|] eqn:Hloop; [|discriminate].
    destruct (IH s1 ltac:(lia) eq_refl) as (Ec & El & Ef).
    cbn [mbind option_bind] in Hrun. unfold setup_step in Hrun.
    destruct (pins !! k) as [pin|]; [|discriminate].
    cbn [mbind option_bind] in Hrun.
    destruct (if bool_decide (0 <= pin) then _ else _) as [m|]; [|discriminate].
    cbn [mbind option_bind] in Hrun. unfold arr_set in Hrun.
    destruct (bool_decide (k < length (fan_tacho_counters s1))%nat);
      [|discriminate].
    cbn [mbind option_bind] in Hrun.
    destruct (bool_decide (k < length (fan_tacho_counters_last s1))%nat);
      [|discriminate].
    cbn [mbind option_bind] in Hrun.
    destruct (bool_decide (k < length (fan_tacho_freq s1))%nat); [|discriminate].
    cbn [mbind option_bind] in Hrun. injection Hrun as <-. cbn.
    rewrite Ec, El, Ef, !insert_replicate_drop by lia. auto.
Qed.

Lemma setup_loop_runs (n : nat) (pins : list Z) (st0 : tacho_state) (k : nat)
    (m0 : list Z) :
  m0 = replicate 32 0 -> tacho_wf n st0 -> pins_wf n pins ->
  (k <= n)%nat -> (n <= 255)%nat ->
  exists s,
    for_loop k (setup_step pins)
      (mkTacho m0 (fan_tacho_counters st0) (fan_tacho_counters_last st0)
         (fan_tacho_last_read st0) (fan_tacho_freq st0)) = Some s
    /\ setup_done pins st0 k s.
Proof.
  intros Hm0 (Hc & Hl & Hf) (Hlen & Hpins) Hk Hn.
  induction k as [|k IH].
  - eexists. split; [reflexivity|]. unfold setup_done. cbn. subst m0.
    rewrite length_replicate, !drop_0. do 5 (split; [reflexivity|]).
    intros i pin Hi. lia.
  - destruct IH as (s & Hrun & Hm & Ec & El & Ef & Er & Hmap); [lia|].
    cbn [for_loop]. rewrite Hrun.
    change (Some s ≫= ?f) with (f s). cbv beta.
    destruct (lookup_lt_is_Some_2 pins k) as [pin Hpin]; [lia|].
    pose proof (Hpins k pin ltac:(lia) Hpin) as Hb.
    unfold setup_step. rewrite Hpin. cbn [mbind option_bind].
    assert (length (fan_tacho_counters s) = n
            /\ length (fan_tacho_counters_last s) = n
            /\ length (fan_tacho_freq s) = n) as (Lc & Ll & Lf).
    { rewrite Ec, El, Ef, !length_app, !length_replicate, !length_drop. lia. }
    rewrite bool_decide_true by lia. unfold arr_set.
    rewrite !bool_decide_true by lia. cbn [mbind option_bind].
    eexists. split; [reflexivity|].
    unfold setup_done. cbn.
    rewrite Ec, El, Ef.
    rewrite length_insert, !insert_replicate_drop by lia.
    do 5 (split; [auto|]).
    intros i p Hi Hp Hlater.
    assert (uint8_wrap (1 + Z.of_nat k) = Z.of_nat k + 1) as ->.
    { unfold uint8_wrap. rewrite Z.mod_small; lia. }
    destruct (decide (i = k)) as [->|Hne].
    + replace p with pin by congruence.
      apply list_lookup_insert_eq. lia.
    + assert (p <> pin) as Hpp.
      { intros ->. apply (Hlater k); [lia | exact Hpin]. }
      pose proof (Hpins i p ltac:(lia) Hp).
      rewrite list_lookup_insert_ne by lia.
      apply Hmap; [lia | exact Hp |]. intros j Hj. apply Hlater. lia.
Qed.

Lemma for_loop_none {St : Type} (body : nat -> St -> option St) (s : St)
    (k n : nat) :
  (k <= n)%nat -> for_loop k body s = None -> for_loop n body s = None.
Proof.
  intros Hkn Hk. induction Hkn as [|n Hkn IH]; [exact Hk|].
  cbn. rewrite IH. reflexivity.
Qed.

(** What [setup_tacho_inputs] leaves, for pins that are GPIO numbers. *)
Lemma setup_tacho_inputs_ok (n : nat) (pins : list Z) (now : Z)
    (st0 : tacho_state) :
  tacho_wf n st0 -> (n <= length pins)%nat -> (n <= 255)%nat ->
  (forall (i : nat) (pin : Z), (i < n)%nat -> pins !! i = Some pin -> 0 <= pin < 32) ->
  exists st,
    setup_tacho_inputs n pins now st0 = Some st
    /\ fan_tacho_counters st = replicate n 0
    /\ fan_tacho_counters_last st = replicate n 0
    /\ fan_tacho_freq st = replicate n f32_zero
    /\ fan_tacho_last_read st = now
    /\ map_wf st
    /\ (forall (i : nat) (gpio : Z),
          (i < n)%nat -> pins !! i = Some (Z.land gpio 31) ->
          (forall j : nat, (i < j < n)%nat -> pins !! j <> Some (Z.land gpio 31)) ->
          pin_fan st gpio = Z.of_nat i + 1)
    /\ (forall gpio : Z, Z.land gpio 31 ∉ take n pins -> pin_fan st gpio = 0).
Proof.
  intros Hwf Hlen Hn Hpins.
  destruct (setup_loop_runs n pins st0 n _ eq_refl Hwf (conj Hlen Hpins)
              ltac:(lia) Hn) as (s & Hrun & Hm & Ec & El & Ef & Er & Hmap).
  destruct (setup_loop_inv pins st0 n s _ eq_refl Hrun)
    as (_ & Hcl & _ & Hall & Hz).
  destruct Hwf as (Hc & Hl & Hf).
  unfold setup_tacho_inputs. rewrite Hrun. cbn [mbind option_bind].
  eexists. split; [reflexivity|]. cbn.
  rewrite Ec, El, Ef, !drop_ge, !app_nil_r by lia.
  do 4 (split; [reflexivity|]). split; [|split].
  + split; cbn; [exact Hm|].
    rewrite length_replicate.
    eapply Forall_impl; [exact Hall|]. cbn. intros; lia.
  + intros i gpio Hi Hp Hlater. pose proof (land_31_bounds gpio) as Hb.
    unfold pin_fan, arr_get. cbn. rewrite bool_decide_true by lia.
    rewrite (Hmap i _ Hi Hp Hlater). reflexivity.
  + intros gpio Hnot. pose proof (land_31_bounds gpio) as Hb.
    unfold pin_fan, arr_get. cbn. rewrite bool_decide_true by lia.
    rewrite Hz; [reflexivity | | lia].
    intros i pin Hi Hpin Heq. apply Hnot.
    pose proof (Hpins i pin Hi Hpin).
    replace (Z.land gpio 31) with pin by lia.
    apply list_elem_of_lookup. exists i. rewrite lookup_take_lt by lia.
    exact Hpin.
Qed.

(** X15: [setup_tacho_inputs], for channel pins that are GPIO numbers
    (0 to 31) and at most 255 channels, returns; afterwards every pulse
    counter, baseline and frequency is zero, the time of the last sample
    is the time of the call, the map is well formed, and the interrupt
    handler finds for a pin the last channel that names it: with
    distinct pins every channel is found from its pin, and a channel
    that shares its pin with a later one is not found at all.  A pin
    outside 0 to 31 makes the setup write outside the map. *)
Theorem setup_tacho_inputs_spec (n : nat) (pins : list Z) (now : Z)
    (st0 : tacho_state) :
  tacho_wf n st0 -> (n <= length pins)%nat -> (n <= 255)%nat ->
  ((forall (i : nat) (pin : Z), (i < n)%nat -> pins !! i = Some pin -> 0 <= pin < 32) ->
   exists st,
     setup_tacho_inputs n pins now st0 = Some st
     /\ fan_tacho_counters st = replicate n 0
     /\ fan_tacho_counters_last st = replicate n 0
     /\ fan_tacho_freq st = replicate n f32_zero
     /\ fan_tacho_last_read st = now
     /\ map_wf st
     /\ (forall (i : nat) (gpio : Z),
           (i < n)%nat -> pins !! i = Some (Z.land gpio 31) ->
           (forall j : nat, (i < j < n)%nat -> pins !! j <> Some (Z.land gpio 31)) ->
           pin_fan st gpio = Z.of_nat i + 1)
     /\ (forall gpio : Z, Z.land gpio 31 ∉ take n pins -> pin_fan st gpio = 0))
  /\ (forall (i : nat) (pin : Z),
        (i < n)%nat -> pins !! i = Some pin -> ~ 0 <= pin < 32 ->
        setup_tacho_inputs n pins now st0 = None).
Proof.
  intros Hwf Hlen Hn. split.
  - intros Hpins. exact (setup_tacho_inputs_ok n pins now st0 Hwf Hlen Hn Hpins).
  - intros i pin Hi Hpin Hbad. unfold setup_tacho_inputs.
    rewrite (for_loop_none _ _ (S i) n); [reflexivity | lia |].
    cbn [for_loop]. destruct (for_loop i _ _) as [s|] eqn:Hrun; [|reflexivity].
    destruct (setup_loop_inv pins st0 i s _ eq_refl Hrun) as (Hm & _).
    cbn [mbind option_bind]. unfold setup_step. rewrite Hpin.
    cbn [mbind option_bind].
    destruct (bool_decide (0 <= pin)) eqn:Hnn; [|reflexivity].
    apply bool_decide_eq_true in Hnn. unfold arr_set.
    rewrite (bool_decide_false (Z.to_nat pin < length (gpio_fan_tacho_map s))%nat)
      by lia.
    reflexivity.
Qed.

Lemma setup_tacho_inputs_spec_witness :
  let st0 := mkTacho (replicate 32 9) [5; 6; 7] [1; 2; 3] 44
                     [f32_of_Z 1; f32_of_Z 2; f32_of_Z 3] in
  (exists st,
     setup_tacho_inputs 3 [4; 11; 4] 1000 st0 = Some st
     /\ fan_tacho_counters st = [0; 0; 0]
     /\ pin_fan st 4 = 3 /\ pin_fan st (32 + 11) = 2)
  /\ setup_tacho_inputs 3 [4; 32; 5] 1000 st0 = None.
Proof.
  intros st0. split.
  - destruct (setup_tacho_inputs_spec 3 [4; 11; 4] 1000 st0) as [H _];
      [repeat split | cbn; lia | lia |].
    destruct H as (st & Hrun & Hc & _ & _ & _ & _ & Hfan & _).
    + intros [|[|[|i]]] pin Hi Hp; cbn in Hp; try lia; injection Hp as <-; lia.
    + exists st. split; [exact Hrun|]. split; [exact Hc|]. split.
      * apply (Hfan 2%nat 4); [lia | reflexivity | intros j Hj; lia].
      * apply (Hfan 1%nat (32 + 11)); [lia | reflexivity |].
        intros j Hj. replace j with 2%nat by lia. discriminate.
  - destruct (setup_tacho_inputs_spec 3 [4; 32; 5] 1000 st0) as [_ H];
      [repeat split | cbn; lia | lia |].
    apply (H 1%nat 32); [lia | reflexivity | lia].
Defined.

(** *** The order of the interrupts *)

Lemma pin_fan_set_counters (st : tacho_state) (cs : list Z) (gpio : Z) :
  pin_fan (set_counters st cs) gpio = pin_fan st gpio.
Proof. reflexivity. Qed.

Lemma callback_swap (st : tacho_state) (g1 g2 : Z) :
  map_wf st ->
  (st1 ← fan_tacho_read_callback g1 0 st; fan_tacho_read_callback g2 0 st1)
  = (st2 ← fan_tacho_read_callback g2 0 st; fan_tacho_read_callback g1 0 st2).
Proof.
  intros Hwf.
  pose proof (callback_closed_form st g1 0 Hwf) as H1.
  pose proof (callback_closed_form st g2 0 Hwf) as H2.
  destruct (callback_keeps_wf _ _ _ _ Hwf H1) as [Hwf1 _].
  destruct (callback_keeps_wf _ _ _ _ Hwf H2) as [Hwf2 _].
  rewrite H1, H2. cbn [mbind option_bind].
  rewrite (callback_closed_form _ g2 0 Hwf1), (callback_closed_form _ g1 0 Hwf2).
  f_equal.
  destruct (0 <? pin_fan st g1) eqn:E1, (0 <? pin_fan st g2) eqn:E2;
    rewrite ?pin_fan_set_counters, ?E1, ?E2; try reflexivity.
  unfold set_counters. cbn. f_equal.
  destruct (decide (Z.to_nat (pin_fan st g1 - 1) = Z.to_nat (pin_fan st g2 - 1)))
    as [->|Hne]; [reflexivity|].
  apply list_alter_alter_ne. congruence.
Qed.

Lemma run_callbacks_wf (gpios : list Z) (st st' : tacho_state) :
  map_wf st -> run_callbacks gpios st = Some st' -> map_wf st'.
Proof.
  intros Hwf Hrun.
  destruct (run_callbacks_counts gpios st Hwf) as (s & Hs & Hwf' & _).
  congruence.
Qed.

(** X16: the counters do not depend on the order in which the edges
    arrive: two runs of the interrupt handler over the same edges, in
    any two orders, leave the same state. *)
Theorem run_callbacks_permutation (gpios gpios' : list Z) (st : tacho_state) :
  map_wf st -> gpios ≡ₚ gpios' ->
  run_callbacks gpios st = run_callbacks gpios' st.
Proof.
  intros Hwf Hperm. revert st Hwf.
  induction Hperm as [|g l l' _ IH|g1 g2 l|l1 l2 l3 _ IH1 _ IH2]; intros st Hwf.
  - reflexivity.
  - cbn [run_callbacks].
    pose proof (callback_closed_form st g 0 Hwf) as Hstep.
    destruct (callback_keeps_wf _ _ _ _ Hwf Hstep) as [Hwf1 _].
    rewrite Hstep. cbn [mbind option_bind]. apply IH. exact Hwf1.
  - cbn [run_callbacks].
    pose proof (callback_swap st g1 g2 Hwf) as Hswap.
    destruct (fan_tacho_read_callback g1 0 st) as [s1|],
             (fan_tacho_read_callback g2 0 st) as [s2|];
      cbn [mbind option_bind] in *; try congruence.
    + rewrite Hswap. reflexivity.
    + rewrite <- Hswap. reflexivity.
  - rewrite IH1 by exact Hwf. apply IH2. exact Hwf.
Qed.

Lemma run_callbacks_permutation_witness :
  let st := mkTacho (<[4%nat := 2]> (<[2%nat := 1]> (replicate 32 0)))
                    [4294967295; 5] [0; 0] 0 [f32_zero; f32_zero] in
  run_callbacks [2; 4; 2; 9] st = run_callbacks [9; 2; 2; 4] st.
Proof.
  intros st. apply run_callbacks_permutation.
  - split; [reflexivity|]. vm_compute. repeat constructor; discriminate.
  - apply (Permutation_trans (l' := [2; 2; 4; 9])).
    + apply perm_skip. apply perm_swap.
    + symmetry. apply (Permutation_cons_append [2; 2; 4] 9).
Defined.

(** With distinct pins, the edges the handler counts for channel [i]
    are the edges on the pin of channel [i]. *)
Lemma count_pulses_edges (n : nat) (pins : list Z) (now : Z) (st0 st : tacho_state)
    (i : nat) (pin : Z) (gpios : list Z) :
  tacho_wf n st0 -> (n <= length pins)%nat -> (n <= 255)%nat ->
  (forall (j : nat) (p : Z), (j < n)%nat -> pins !! j = Some p -> 0 <= p < 32) ->
  NoDup (take n pins) ->
  (i < n)%nat -> pins !! i = Some pin ->
  setup_tacho_inputs n pins now st0 = Some st ->
  count_pulses st i gpios = edges_on pin gpios.
Proof.
  intros Hwf Hlen Hn Hpins Hnodup Hi Hpin Hsetup.
  destruct (setup_tacho_inputs_ok n pins now st0 Hwf Hlen Hn Hpins)
    as (st' & Hrun & _ & _ & _ & _ & _ & Hfan & Hzero).
  assert (st' = st) as -> by congruence.
  assert (forall (j : nat) (g : Z),
            (j < n)%nat -> pins !! j = Some (Z.land g 31) ->
            pin_fan st g = Z.of_nat j + 1) as Hfound.
  { intros j g Hj Hp. apply (Hfan j g Hj Hp). intros j' Hj' Hp'.
    assert (j = j'); [|lia].
    apply (NoDup_lookup (take n pins) j j' (Z.land g 31) Hnodup);
      rewrite lookup_take_lt by lia; assumption. }
  induction gpios as [|g gs IH]; [reflexivity|].
  cbn [count_pulses edges_on]. rewrite IH. f_equal.
  destruct (Z.eqb_spec (Z.land g 31) pin) as [Heq|Hne].
  - rewrite (Hfound i g Hi) by (rewrite Heq; exact Hpin).
    rewrite Z.eqb_refl. reflexivity.
  - destruct (Z.eqb_spec (pin_fan st g) (Z.of_nat i + 1)) as [Hfan_i|]; [|reflexivity].
    exfalso. destruct (decide (Z.land g 31 ∈ take n pins)) as [Hin|Hout].
    + apply list_elem_of_lookup in Hin. destruct Hin as [j Hj].
      pose proof (lookup_lt_Some _ _ _ Hj) as Hjn. rewrite length_take in Hjn.
      rewrite lookup_take_lt in Hj by lia.
      pose proof (Hfound j g ltac:(lia) Hj) as Hfj.
      assert (j = i) as -> by lia. congruence.
    + rewrite (Hzero g Hout) in Hfan_i. lia.
Qed.

(** X17: from setup to a sample.  After [setup_tacho_inputs] at time
    [now] for distinct pins that are GPIO numbers, any edges, fewer
    than [2^32] of them on the pin of channel [i], and a sample at
    least a second after the setup: the three calls return, and the
    frequency stored for the channel is [(float) (edges / (elapsed /
    1000000.0))] for the number of edges on its pin (pin numbers taken
    by their low five bits): a finite number that is these edges
    divided by the seconds since the setup, up to a relative error of
    [2^-22]. *)
Theorem setup_count_sample (n : nat) (pins : list Z) (now read_time : Z)
    (st0 : tacho_state) (gpios : list Z) (i : nat) (pin : Z) :
  tacho_wf n st0 -> (n <= length pins)%nat -> (n <= 255)%nat ->
  (forall (j : nat) (p : Z), (j < n)%nat -> pins !! j = Some p -> 0 <= p < 32) ->
  NoDup (take n pins) ->
  (i < n)%nat -> pins !! i = Some pin ->
  edges_on pin gpios < 2 ^ 32 ->
  1000000 <= absolute_time_diff_us now read_time ->
  exists (st st1 st2 : tacho_state) (f : float32),
    setup_tacho_inputs n pins now st0 = Some st
    /\ run_callbacks gpios st = Some st1
    /\ update_tacho_input_freq n read_time st1 = Some st2
    /\ fan_tacho_freq st2 !! i = Some f
    /\ f = f32_of_f64
             (f64_div (f64_of_Z (edges_on pin gpios))
                      (f64_div (f64_of_Z (absolute_time_diff_us now read_time))
                               f64_1000000))
    /\ is_finite f = true
    /\ close_to float_tolerance (Q_of_float f)
         (exact_frequency (edges_on pin gpios)
            (absolute_time_diff_us now read_time))
    /\ fan_tacho_counters_last st2 = fan_tacho_counters st1
    /\ fan_tacho_last_read st2 = read_time.
Proof.
  intros Hwf0 Hlen Hn Hpins Hnodup Hi Hpin Hcount Hdelta.
  destruct (setup_tacho_inputs_ok n pins now st0 Hwf0 Hlen Hn Hpins)
    as (st & Hsetup & Ec & El & Ef & Hr & Hwf & _).
  pose proof (count_pulses_edges n pins now st0 st i pin gpios Hwf0 Hlen Hn Hpins
                Hnodup Hi Hpin Hsetup) as Hedges.
  assert (fan_tacho_counters st !! i = Some 0) as Hc
      by (rewrite Ec; apply lookup_replicate_2; lia).
  assert (fan_tacho_counters_last st !! i = Some 0) as Hl
      by (rewrite El; apply lookup_replicate_2; lia).
  destruct (run_callbacks_counts gpios st Hwf)
    as (st1 & Hrun & _ & _ & Hlast & Hread & Hfreq & Hlen1 & Hadv).
  destruct (Hadv i 0 Hc) as (cur & k & Hcur & Ek).
  pose proof (count_pulses_nonneg st i gpios) as Hnn.
  assert (uint_sub cur 0 = edges_on pin gpios) as Hsub.
  { unfold uint_sub, uint_wrap.
    replace (cur - 0) with (count_pulses st i gpios + k * 2 ^ 32) by lia.
    rewrite Z.mod_add by lia. rewrite Hedges in *. apply Z.mod_small. lia. }
  assert (tacho_wf n st1) as Hwf1.
  { unfold tacho_wf. rewrite Hlast, Hfreq, Hlen1, Ec, El, Ef.
    rewrite !length_replicate. auto. }
  pose proof (update_tacho_accepted n read_time st1 Hwf1) as Hupd.
  rewrite Hread, Hr in Hupd.
  destruct (Hupd Hdelta) as (st2 & Hrun2 & Hfr & _ & Hl2 & Hr2 & _).
  exists st, st1, st2,
    (tacho_freq_of (edges_on pin gpios) (absolute_time_diff_us now read_time)).
  split; [exact Hsetup|]. split; [exact Hrun|]. split; [exact Hrun2|]. split.
  { rewrite <- Hsub. apply Hfr; [exact Hcur | rewrite Hlast; exact Hl]. }
  split; [reflexivity|].
  destruct (tacho_freq_of_accurate (edges_on pin gpios)
              (absolute_time_diff_us now read_time)) as [Hfin Hclose].
  { rewrite <- Hedges. lia. }
  { split; [exact Hdelta|]. unfold absolute_time_diff_us. apply to_int64_range. }
  repeat split; assumption.
Qed.

Lemma setup_count_sample_witness :
  let st0 := mkTacho (replicate 32 9) [5; 6] [1; 2] 44 [f32_of_Z 1; f32_of_Z 2] in
  exists st st1 st2,
    setup_tacho_inputs 2 [4; 11] 1000 st0 = Some st
    /\ run_callbacks [4; 11; 36; 7] st = Some st1
    /\ update_tacho_input_freq 2 2001000 st1 = Some st2
    /\ fan_tacho_freq st2 !! 0%nat = Some (S754_finite false 8388608 (-23))
    /\ (Q_of_float (S754_finite false 8388608 (-23)) == 1)%Q.
Proof.
  intros st0.
  destruct (setup_count_sample 2 [4; 11] 1000 2001000 st0 [4; 11; 36; 7] 0 4)
    as (st & st1 & st2 & f & H1 & H2 & H3 & H4 & H5 & _).
  - repeat split.
  - cbn. lia.
  - lia.
  - intros [|[|j]] p Hj Hp; cbn in Hp; try lia; injection Hp as <-; lia.
  - cbn [take]. apply NoDup_cons. split; [|apply NoDup_singleton].
    intros Hin. apply list_elem_of_singleton in Hin. discriminate.
  - lia.
  - reflexivity.
  - vm_compute. reflexivity.
  - vm_compute. discriminate.
  - exists st, st1, st2. do 3 (split; [assumption|]).
    split; [|reflexivity].
    etransitivity; [exact H4|]. rewrite H5. vm_compute. reflexivity.
Defined.

(** *** The stored frequency is a number *)

(** X18: every frequency an accepted sample stores is a number.  For
    a channel whose counter has not moved since the last sample it is
    [+0]; for any other channel it is finite and above zero: the
    sampler never stores a NaN, an infinity or a negative value. *)
Theorem update_tacho_stores_numbers (n : nat) (read_time : Z) (st : tacho_state) :
  tacho_wf n st ->
  1000000 <= absolute_time_diff_us (fan_tacho_last_read st) read_time ->
  exists st',
    update_tacho_input_freq n read_time st = Some st'
    /\ forall (i : nat) (c l : Z),
         fan_tacho_counters st !! i = Some c ->
         fan_tacho_counters_last st !! i = Some l ->
         exists f,
           fan_tacho_freq st' !! i = Some f
           /\ is_finite f = true
           /\ f_ge f f32_zero = true
           /\ (uint_sub c l = 0 -> f = f32_zero)
           /\ (uint_sub c l <> 0 -> f_gt f f32_zero = true).
Proof.
  intros Hwf Hdelta.
  destruct (update_tacho_accepted n read_time st Hwf Hdelta)
    as (st' & Hrun & Hfr & _).
  exists st'. split; [exact Hrun|]. intros i c l Hc Hl.
  eexists. split; [exact (Hfr i c l Hc Hl)|].
  assert (0 <= uint_sub c l < 2 ^ 32) as Hp
      by (unfold uint_sub, uint_wrap; apply Z.mod_pos_bound; lia).
  assert (absolute_time_diff_us (fan_tacho_last_read st) read_time < 2 ^ 63) as Hd
      by (unfold absolute_time_diff_us; apply to_int64_range).
  destruct (tacho_freq_of_number (uint_sub c l)
              (absolute_time_diff_us (fan_tacho_last_read st) read_time) Hp
              ltac:(lia)) as [Hzero Hpos].
  destruct (Z.eq_dec (uint_sub c l) 0) as [E0|Hne].
  - rewrite (Hzero E0). repeat split; try reflexivity. intros; contradiction.
  - destruct (Hpos ltac:(lia)) as (m & e & ->).
    repeat split; try reflexivity. intros; contradiction.
Qed.

Lemma update_tacho_stores_numbers_witness :
  let st := mkTacho (replicate 32 0) [3; 9] [4294967295; 9] 0
                    [f32_zero; f32_zero] in
  exists st' f,
    update_tacho_input_freq 2 1500000 st = Some st'
    /\ fan_tacho_freq st' !! 0%nat = Some f /\ f_gt f f32_zero = true
    /\ fan_tacho_freq st' !! 1%nat = Some f32_zero.
Proof.
  intros st.
  destruct (update_tacho_stores_numbers 2 1500000 st) as (st' & Hrun & Hall).
  - repeat split.
  - vm_compute. discriminate.
  - destruct (Hall 0%nat 3 4294967295 eq_refl eq_refl)
      as (f & Hf & _ & _ & _ & Hgt).
    destruct (Hall 1%nat 9 9 eq_refl eq_refl) as (g & Hg & _ & _ & Hz & _).
    exists st', f. split; [exact Hrun|]. split; [exact Hf|].
    split; [apply Hgt; vm_compute; discriminate|].
    rewrite <- (Hz eq_refl). exact Hg.
Defined.
